(** * Chain reconciliation, revert, block indexing and aggregate maintenance
      of the discovery provider

    A shallow embedding of [src/tasks/index.py] and
    [src/tasks/index_aggregate_user.py], over the rows of
    [src/models/models.py], with the handler of
    [src/queries/get_redirect_weights.py] and the dispatch of
    [src/tasks/calculate_trending_challenges.py].

    - Tables are lists of rows (order is the storage order; a query without
      [order_by] returns rows in that order).
    - Python [int] is [Z]; a nullable column is an [option].
    - Hashes are the hex strings that [web3.toHex] yields.
    - An exception is a value [Raised e]; a [db.scoped_session()] block that
      raises leaves the committed tables as they were.
    - The two [while] loops of [update_task] take a fuel argument; [None]
      stands for "fuel exhausted", never for a result. *)

From stdpp Require Import base list strings gmap sorting.
From Stdlib Require Import ZArith Lia.

Open Scope string_scope.
Open Scope list_scope.
Open Scope Z_scope.

(** ** Results of fallible code *)

Inductive Error :=
  | AssertionError (msg : string)
  | Exception (msg : string)
  | IntegrityError
  | BlockNotFound
  | CollaboratorError.

Inductive Result (A : Type) :=
  | Ok (a : A)
  | Raised (e : Error).
Arguments Ok {A} a.
Arguments Raised {A} e.

Definition is_raised {A} (r : Result A) : bool :=
  match r with Ok _ => false | Raised _ => true end.

(** ** Rows of [src/models/models.py] *)

Module Block.
(** [class BlockMixin]: [blockhash] is the primary key, [number] is
    nullable and unique. *)
Record t := mk {
  blockhash : string;
  number : option Z;
  parenthash : string;
  is_current : bool
}.

Definition set_is_current (v : bool) (b : t) : t :=
  mk (blockhash b) (number b) (parenthash b) v.
End Block.

Module Version.
(** An entity-version row.  [key] is the business id the revert queries
    filter on, [payload] the columns that only the aggregate query reads. *)
Record t (K P : Type) := mk {
  key : K;
  blockhash : string;
  blocknumber : Z;
  txhash : string;
  is_current : bool;
  is_delete : bool;
  payload : P
}.
Arguments mk {K P}.
Arguments key {K P}.
Arguments blockhash {K P}.
Arguments blocknumber {K P}.
Arguments txhash {K P}.
Arguments is_current {K P}.
Arguments is_delete {K P}.
Arguments payload {K P}.

Definition set_is_current {K P} (v : bool) (r : t K P) : t K P :=
  mk (key r) (blockhash r) (blocknumber r) (txhash r) v (is_delete r) (payload r).
End Version.

(** [class SaveType] and [class RepostType] have the same three members. *)
Inductive ItemType := track | playlist | album.

Global Instance ItemType_eq_dec : EqDecision ItemType.
Proof. solve_decision. Defined.

Record TrackPayload := {
  owner_id : Z;
  is_unlisted : bool;
  stem_of_is_null : bool
}.

Record PlaylistPayload := {
  playlist_owner_id : Z;
  is_album : bool;
  is_private : bool
}.

(** [Save]: [(user_id, save_item_id, save_type)];
    [Repost]: [(user_id, repost_item_id, repost_type)];
    [Follow]: [(follower_user_id, followee_user_id)];
    [Playlist]: [playlist_id]; [Track]: [track_id]; [User]: [user_id]
    (the [users] table has no [is_delete] column: it is [false] there). *)
Definition Save := Version.t (Z * Z * ItemType) unit.
Definition Repost := Version.t (Z * Z * ItemType) unit.
Definition Follow := Version.t (Z * Z) unit.
Definition Playlist := Version.t Z PlaylistPayload.
Definition Track := Version.t Z TrackPayload.
Definition User := Version.t Z unit.

Record AggregateUser := {
  track_count : Z;
  playlist_count : Z;
  album_count : Z;
  follower_count : Z;
  following_count : Z;
  repost_count : Z;
  track_save_count : Z
}.

(** The six entity-version tables. *)
Record Entities := {
  saves : list Save;
  reposts : list Repost;
  follows : list Follow;
  playlists : list Playlist;
  tracks : list Track;
  users : list User
}.

(** The relational store: [blocks], the entity tables, [aggregate_user]
    keyed by [user_id] and [indexing_checkpoints] keyed by [tablename]. *)
Record Db := {
  blocks : list Block.t;
  entities : Entities;
  aggregate_user : gmap Z AggregateUser;
  indexing_checkpoints : gmap string Z
}.

Definition with_blocks (bs : list Block.t) (db : Db) : Db :=
  {| blocks := bs; entities := entities db;
     aggregate_user := aggregate_user db;
     indexing_checkpoints := indexing_checkpoints db |}.

Definition with_entities (e : Entities) (db : Db) : Db :=
  {| blocks := blocks db; entities := e;
     aggregate_user := aggregate_user db;
     indexing_checkpoints := indexing_checkpoints db |}.

(** ** The chain client *)

Module Chain.
Record Transaction := {
  tx_hash : string;   (* [web3.toHex(tx["hash"])] *)
  to : string         (* [tx["to"]] *)
}.

(** What [web3.eth.getBlock(_, True)] returns. *)
Record t := {
  hash : string;
  parentHash : string;
  number : Z;
  timestamp : Z;
  transactions : list Transaction
}.
End Chain.

Definition default_padded_start_hash : string :=
  "0x0000000000000000000000000000000000000000000000000000000000000000".
Definition default_config_start_hash : string := "0x0".

(** ** Queries on the [blocks] table *)

(** [session.query(Block).filter_by(is_current=True)] *)
Definition current_blocks (bs : list Block.t) : list Block.t :=
  List.filter Block.is_current bs.

(** [session.query(Block).filter(Block.blockhash == h)] *)
Definition blocks_with_hash (h : string) (bs : list Block.t) : list Block.t :=
  List.filter (fun b => String.eqb (Block.blockhash b) h) bs.

(** The invariant of the [blocks] table. *)
Definition exactly_one_current (bs : list Block.t) : Prop :=
  length (current_blocks bs) = 1%nat.

(** *** SQL criteria built with Python's [and]

    [update_task] builds the filter of [latest_block_db_query] as
    [Block.blockhash == current_hash and Block.parenthash == parent_hash
     and Block.is_current == True].  Each [==] yields a SQLAlchemy
    [BinaryExpression]; Python's [and] evaluates the truth value of its
    left operand and returns that operand itself when it is false.  The
    truth value of an [==] expression compares the hashes of its two
    operands, a column and a bound value, which are distinct objects. *)

Inductive Column := Col_blockhash | Col_parenthash | Col_is_current.

Inductive Bound :=
  | BStr (s : string)
  | BBool (b : bool).

(** [Block.<column> == <bound value>] *)
Inductive Criterion := CEq (c : Column) (v : Bound).

(** [BinaryExpression.__bool__] for a column compared with a bound value. *)
Definition criterion_bool (e : Criterion) : bool := false.

(** Python's [a and b]. *)
Definition py_and (a b : Criterion) : Criterion :=
  if criterion_bool a then b else a.

(** Whether a row satisfies a criterion, once it reaches the database. *)
Definition satisfies (e : Criterion) (b : Block.t) : bool :=
  match e with
  | CEq Col_blockhash (BStr s) => String.eqb (Block.blockhash b) s
  | CEq Col_parenthash (BStr s) => String.eqb (Block.parenthash b) s
  | CEq Col_is_current (BBool v) => Bool.eqb (Block.is_current b) v
  | _ => false
  end.

(** The criterion of [latest_block_db_query] (index.py, update_task). *)
Definition latest_block_db_criterion (current_hash parent_hash : string) : Criterion :=
  py_and (py_and (CEq Col_blockhash (BStr current_hash))
                 (CEq Col_parenthash (BStr parent_hash)))
         (CEq Col_is_current (BBool true)).

Definition latest_block_db_query (current_hash parent_hash : string)
    (bs : list Block.t) : list Block.t :=
  List.filter (satisfies (latest_block_db_criterion current_hash parent_hash)) bs.

(** ** The collaborators of the indexing task *)

(** What [web3.eth.getTransactionReceipt] returns, as far as the task
    passes it on. *)
Record Receipt := {
  transactionHash : string;
  logs : list string
}.

Record ContractAddresses := {
  user_factory : string;
  track_factory : string;
  social_feature_factory : string;
  playlist_factory : string;
  user_library_factory : string;
  user_replica_set_manager : string
}.

(** An entity applier: called with the open session, a bucket of receipts,
    the block number and the block timestamp, it changes entity-version rows
    and returns what it reports, or raises ([None]). *)
Definition Applier (R : Type) : Type :=
  Entities -> list Receipt -> Z -> Z -> option (Entities * R).

(** The chain client ([None] stands for a raised exception), the six
    contract addresses and the six appliers. *)
Record TaskContext := {
  getBlock : string -> option Chain.t;
  getTransactionReceipt : string -> option Receipt;
  contract_addresses : ContractAddresses;
  user_state_update : Applier (Z * list Z);
  track_state_update : Applier (Z * list Z);
  social_feature_state_update : Applier Z;
  user_replica_set_state_update : Applier Z;
  playlist_state_update : Applier (Z * list Z);
  user_library_state_update : Applier Z
}.

(** ** Reconciliation: the two walks of [update_task] *)

(** The first loop: [while not block_intersection_found].  Returns the
    intersection hash and [index_blocks_list] in discovery order. *)
Fixpoint tip_walk (ctx : TaskContext) (fuel : nat) (bs : list Block.t)
    (latest_block : Chain.t) (index_blocks_list : list Chain.t)
    : option (Result (string * list Chain.t)) :=
  match fuel with
  | O => None
  | S fuel' =>
    let current_hash := Chain.hash latest_block in
    let parent_hash := Chain.parentHash latest_block in
    (* Exit loop if we are up to date *)
    if (0 <? length (latest_block_db_query current_hash parent_hash bs))%nat then
      Some (Ok (current_hash, index_blocks_list))
    else
      let index_blocks_list := index_blocks_list ++ [latest_block] in
      let block_intersection_found :=
        (0 <? length (blocks_with_hash parent_hash bs))%nat in
      (* Special case for initial block hash value of 0x0 and 0x0000.... *)
      if String.eqb parent_hash default_padded_start_hash then
        Some (Ok (default_config_start_hash, index_blocks_list))
      else
        match getBlock ctx parent_hash with
        | None => Some (Raised BlockNotFound)
        | Some latest_block' =>
          if block_intersection_found then
            Some (Ok (Chain.hash latest_block', index_blocks_list))
          else tip_walk ctx fuel' bs latest_block' index_blocks_list
        end
  end.

(** The second loop: [while traverse_block.blockhash != intersect_block_hash]. *)
Fixpoint traverse (fuel : nat) (bs : list Block.t) (traverse_block : Block.t)
    (intersect_block_hash : string) (revert_blocks_list : list Block.t)
    : option (list Block.t) :=
  match fuel with
  | O => None
  | S fuel' =>
    if String.eqb (Block.blockhash traverse_block) intersect_block_hash then
      Some revert_blocks_list
    else
      let revert_blocks_list := revert_blocks_list ++ [traverse_block] in
      match blocks_with_hash (Block.parenthash traverse_block) bs with
      | [] => Some revert_blocks_list   (* Special case exit *)
      | parent :: _ => traverse fuel' bs parent intersect_block_hash revert_blocks_list
      end
  end.

Record Reconciliation := {
  intersect_block_hash : string;
  index_blocks_list : list Chain.t;
  revert_blocks_list : list Block.t
}.

(** The [with db.scoped_session()] block of [update_task] that computes
    both lists. *)
Definition reconcile (ctx : TaskContext) (fuel : nat) (bs : list Block.t)
    (latest_block : Chain.t) : option (Result Reconciliation) :=
  match tip_walk ctx fuel bs latest_block [] with
  | None => None
  | Some (Raised e) => Some (Raised e)
  | Some (Ok (intersect, index_list)) =>
    match current_blocks bs with
    | [db_current_block] =>
      match traverse fuel bs db_current_block intersect [] with
      | None => None
      | Some revert_list => Some (Ok (Build_Reconciliation intersect index_list revert_list))
      end
    | _ => Some (Raised (AssertionError "Expected SINGLE row marked as current"))
    end
  end.

(** [index_blocks] visits [blocks_list[i]] for [i] in
    [range(len(blocks_list) - 1, -1, -1)]. *)
Definition block_order_range (n : nat) : list nat := rev (seq 0 n).

Definition application_order {A} (blocks_list : list A) : list A :=
  omap (fun i => blocks_list !! i) (block_order_range (length blocks_list)).

(** ** The revert engine *)

Section VersionTable.
Context {K P : Type} `{EqDecision K}.

(** A row held by the session together with its identity (its position in
    the table when the block's revert began). *)
Definition Loaded : Type := list (nat * Version.t K P).

Definition load (tb : list (Version.t K P)) : Loaded :=
  combine (seq 0 (length tb)) tb.

Definition store (l : Loaded) : list (Version.t K P) := map snd l.

(** [.order_by(X.blocknumber.desc()).first()]: the first row, in storage
    order, among those of greatest [blocknumber]. *)
Fixpoint first_by_blocknumber_desc (l : Loaded) : option (nat * Version.t K P) :=
  match l with
  | [] => None
  | x :: l' =>
    match first_by_blocknumber_desc l' with
    | None => Some x
    | Some y =>
      if Version.blocknumber (snd y) <=? Version.blocknumber (snd x)
      then Some x else Some y
    end
  end.

(** [previous_entry.is_current = True] *)
Definition set_current_at (i : nat) (l : Loaded) : Loaded :=
  map (fun x => if Nat.eqb (fst x) i
                then (fst x, Version.set_is_current true (snd x)) else x) l.

(** [session.delete(entry_to_revert)] *)
Definition delete_at (i : nat) (l : Loaded) : Loaded :=
  List.filter (fun x => negb (Nat.eqb (fst x) i)) l.

Definition same_key (k : K) (x : nat * Version.t K P) : bool :=
  bool_decide (Version.key (snd x) = k).

(** [X.blocknumber < revert_block_number]; a comparison with SQL NULL
    selects no row. *)
Definition below (revert_block_number : option Z) (x : nat * Version.t K P) : bool :=
  match revert_block_number with
  | Some n => Version.blocknumber (snd x) <? n
  | None => false
  end.

Definition restore_and_delete (previous_entry : option (nat * Version.t K P))
    (to_revert : nat * Version.t K P) (l : Loaded) : Loaded :=
  let l := match previous_entry with
           | Some p => set_current_at (fst p) l
           | None => l
           end in
  delete_at (fst to_revert) l.

(** The body of the loops over saves, reposts and follows: the previous
    entry is looked up by business key alone. *)
Definition revert_entry_by_key (l : Loaded) (to_revert : nat * Version.t K P) : Loaded :=
  let previous_entry :=
    first_by_blocknumber_desc
      (List.filter (same_key (Version.key (snd to_revert))) l) in
  restore_and_delete previous_entry to_revert l.

(** The body of the loops over playlists, tracks and users: the lookup also
    filters on [blocknumber < revert_block_number]. *)
Definition revert_entry_below (revert_block_number : option Z)
    (l : Loaded) (to_revert : nat * Version.t K P) : Loaded :=
  let previous_entry :=
    first_by_blocknumber_desc
      (List.filter (fun x => same_key (Version.key (snd to_revert)) x
                             && below revert_block_number x) l) in
  restore_and_delete previous_entry to_revert l.

(** [session.query(X).filter(X.blockhash == revert_hash).all()] *)
Definition entries_to_revert (revert_hash : string) (l : Loaded) : Loaded :=
  List.filter (fun x => String.eqb (Version.blockhash (snd x)) revert_hash) l.

Definition revert_by_key (revert_hash : string)
    (tb : list (Version.t K P)) : list (Version.t K P) :=
  let l := load tb in
  store (fold_left revert_entry_by_key (entries_to_revert revert_hash l) l).

Definition revert_below (revert_hash : string) (revert_block_number : option Z)
    (tb : list (Version.t K P)) : list (Version.t K P) :=
  let l := load tb in
  store (fold_left (revert_entry_below revert_block_number)
                   (entries_to_revert revert_hash l) l).
End VersionTable.

(** [session.query(Block).filter(Block.blockhash == h).update({"is_current": v})] *)
Definition update_is_current (h : string) (v : bool) (bs : list Block.t) : list Block.t :=
  map (fun b => if String.eqb (Block.blockhash b) h
                then Block.set_is_current v b else b) bs.

(** [session.query(Block).filter(Block.blockhash == h).delete()] *)
Definition delete_block (h : string) (bs : list Block.t) : list Block.t :=
  List.filter (fun b => negb (String.eqb (Block.blockhash b) h)) bs.

(** The parent hash [revert_blocks] marks current: the padded zero hash
    stands for the configured start hash. *)
Definition revert_parent_hash (revert_block : Block.t) : string :=
  if String.eqb (Block.parenthash revert_block) default_padded_start_hash
  then default_config_start_hash
  else Block.parenthash revert_block.

(** One iteration of [for revert_block in revert_blocks_list].  The six
    lists of rows to revert are read first; each loop then works on its own
    table, in the order saves, reposts, follows, playlists, tracks, users. *)
Definition revert_block (db : Db) (revert_block : Block.t) : Db :=
  let revert_hash := Block.blockhash revert_block in
  let revert_block_number := Block.number revert_block in
  let parent_hash := revert_parent_hash revert_block in
  let bs := update_is_current revert_hash false (blocks db) in
  let bs := update_is_current parent_hash true bs in
  let e := entities db in
  let e :=
    {| saves := revert_by_key revert_hash (saves e);
       reposts := revert_by_key revert_hash (reposts e);
       follows := revert_by_key revert_hash (follows e);
       playlists := revert_below revert_hash revert_block_number (playlists e);
       tracks := revert_below revert_hash revert_block_number (tracks e);
       users := revert_below revert_hash revert_block_number (users e) |} in
  (* Remove outdated block entry *)
  let bs := delete_block revert_hash bs in
  with_entities e (with_blocks bs db).

(** [revert_blocks]: the result and the committed database afterwards.
    Constraint violations of the entity tables are not modelled. *)
Definition revert_blocks (db : Db) (revert_blocks_list : list Block.t)
    : Result unit * Db :=
  let num_revert_blocks := length revert_blocks_list in
  if (num_revert_blocks =? 0)%nat then (Ok tt, db)
  else if (500 <? num_revert_blocks)%nat then
    (Raised (Exception "Unexpected revert, >0 blocks"), db)
  else (Ok tt, fold_left revert_block revert_blocks_list db).

(** ** The block indexer *)

Inductive RedisKey :=
  | latest_block_redis_key
  | latest_block_hash_redis_key
  | most_recent_indexed_block_redis_key
  | most_recent_indexed_block_hash_redis_key.

Inductive RedisValue :=
  | RInt (n : Z)
  | RStr (s : string).

(** What the task does outside the relational store, and its commits, in
    the order they happen. *)
Inductive Event :=
  | Commit (snapshot : Db)
  | remove_cached_user_ids (ids : list Z)
  | remove_cached_track_ids (ids : list Z)
  | remove_cached_playlist_ids (ids : list Z)
  | redis_set (k : RedisKey) (v : RedisValue).

Record World := {
  committed : Db;
  trace : list Event
}.

Definition emit (evs : list Event) (w : World) : World :=
  {| committed := committed w; trace := trace w ++ evs |}.

Definition commit (db : Db) (w : World) : World :=
  {| committed := db; trace := trace w ++ [Commit db] |}.

(** [fetch_tx_receipt]: the transaction hash and its receipt, or a raised
    exception. *)
Definition fetch_tx_receipt (ctx : TaskContext) (transaction : Chain.Transaction)
    : option (string * Receipt) :=
  let tx_hash := Chain.tx_hash transaction in
  match getTransactionReceipt ctx tx_hash with
  | Some receipt => Some (tx_hash, receipt)
  | None => None
  end.

(** One turn of the loop over [as_completed]: a future that raised is
    logged and skipped. *)
Definition collect_step (ctx : TaskContext) (block_tx_with_receipts : gmap string Receipt)
    (tx : Chain.Transaction) : gmap string Receipt :=
  match fetch_tx_receipt ctx tx with
  | Some (tx_hash, receipt) => <[tx_hash := receipt]> block_tx_with_receipts
  | None => block_tx_with_receipts
  end.

(** The whole loop; [completed] is the order in which the futures complete. *)
Definition collect_receipts (ctx : TaskContext) (completed : list Chain.Transaction)
    : gmap string Receipt :=
  fold_left (collect_step ctx) completed ∅.

(** [fetch_tx_receipts], with the futures completing in submission order
    (the order is shown not to matter below). *)
Definition fetch_tx_receipts (ctx : TaskContext) (block_transactions : list Chain.Transaction)
    : Result (gmap string Receipt) :=
  let block_tx_with_receipts := collect_receipts ctx block_transactions in
  let num_processed_txs := size block_tx_with_receipts in
  let num_submitted_txs := length block_transactions in
  if negb (num_processed_txs =? num_submitted_txs)%nat then
    Raised (Exception "index.py | fetch_tx_receipts Expected received")
  else Ok block_tx_with_receipts.

(** [sorted(block.transactions, key=lambda entry: entry['hash'])]: a stable
    sort; hashes of one length compare as their hex strings do. *)
Fixpoint insert_by_hash (tx : Chain.Transaction) (l : list Chain.Transaction)
    : list Chain.Transaction :=
  match l with
  | [] => [tx]
  | y :: l' =>
    if String.leb (Chain.tx_hash tx) (Chain.tx_hash y) then tx :: l
    else y :: insert_by_hash tx l'
  end.

Definition sorted_by_hash (txs : list Chain.Transaction) : list Chain.Transaction :=
  foldr insert_by_hash [] txs.

Record Buckets := {
  user_factory_txs : list Receipt;
  track_factory_txs : list Receipt;
  social_feature_factory_txs : list Receipt;
  playlist_factory_txs : list Receipt;
  user_library_factory_txs : list Receipt;
  user_replica_set_manager_txs : list Receipt
}.

Definition empty_buckets : Buckets := Build_Buckets [] [] [] [] [] [].

Definition append_if (c : bool) (r : Receipt) (l : list Receipt) : list Receipt :=
  if c then l ++ [r] else l.

(** The six independent [if]s on [tx["to"]]. *)
Definition classify (addrs : ContractAddresses) (tx : Chain.Transaction)
    (tx_receipt : Receipt) (b : Buckets) : Buckets :=
  let target := Chain.to tx in
  {| user_factory_txs :=
       append_if (String.eqb target (user_factory addrs)) tx_receipt (user_factory_txs b);
     track_factory_txs :=
       append_if (String.eqb target (track_factory addrs)) tx_receipt (track_factory_txs b);
     social_feature_factory_txs :=
       append_if (String.eqb target (social_feature_factory addrs)) tx_receipt
                 (social_feature_factory_txs b);
     playlist_factory_txs :=
       append_if (String.eqb target (playlist_factory addrs)) tx_receipt
                 (playlist_factory_txs b);
     user_library_factory_txs :=
       append_if (String.eqb target (user_library_factory addrs)) tx_receipt
                 (user_library_factory_txs b);
     user_replica_set_manager_txs :=
       append_if (String.eqb target (user_replica_set_manager addrs)) tx_receipt
                 (user_replica_set_manager_txs b) |}.

(** [for tx in sorted_txs]; [tx_receipt_dict[tx_hash]] raises on a missing key. *)
Fixpoint parse_txs (addrs : ContractAddresses) (tx_receipt_dict : gmap string Receipt)
    (sorted_txs : list Chain.Transaction) (b : Buckets) : Result Buckets :=
  match sorted_txs with
  | [] => Ok b
  | tx :: rest =>
    match tx_receipt_dict !! Chain.tx_hash tx with
    | None => Raised (Exception "KeyError")
    | Some tx_receipt => parse_txs addrs tx_receipt_dict rest (classify addrs tx tx_receipt b)
    end
  end.

Global Instance Result_ret : MRet Result := fun _ a => Ok a.
Global Instance Result_bind : MBind Result := fun _ _ k r =>
  match r with
  | Ok a => k a
  | Raised e => Raised e
  end.

(** A call of a collaborator that may raise. *)
Definition call {A} (r : option A) : Result A :=
  match r with
  | Some a => Ok a
  | None => Raised CollaboratorError
  end.

(** [former_current_block = current_block_query.first()]
    [former_current_block.is_current = False] *)
Fixpoint flip_first_current (bs : list Block.t) : list Block.t :=
  match bs with
  | [] => []
  | b :: rest =>
    if Block.is_current b then Block.set_is_current false b :: rest
    else b :: flip_first_current rest
  end.

(** The flush of [session.add(block_model)]: [blockhash] is the primary key
    and [number] is unique among the rows where it is not NULL. *)
Definition add_block (block_model : Block.t) (bs : list Block.t) : Result (list Block.t) :=
  let same_hash b := String.eqb (Block.blockhash b) (Block.blockhash block_model) in
  let same_number b :=
    match Block.number b, Block.number block_model with
    | Some n, Some m => n =? m
    | _, _ => false
    end in
  if existsb same_hash bs || existsb same_number bs then Raised IntegrityError
  else Ok (bs ++ [block_model]).

(** The ids whose caches are invalidated after the commit. *)
Record CacheWork := {
  user_state_changed : bool;
  user_ids : list Z;
  track_lexeme_state_changed : bool;
  track_ids : list Z;
  playlist_state_changed : bool;
  playlist_ids : list Z
}.

(** Truth value of a Python collection. *)
Definition nonempty {A} (l : list A) : bool :=
  match l with [] => false | _ => true end.

Definition cache_invalidations (c : CacheWork) : list Event :=
  (if user_state_changed c && nonempty (user_ids c)
   then [remove_cached_user_ids (user_ids c)] else [])
  ++ (if track_lexeme_state_changed c && nonempty (track_ids c)
      then [remove_cached_track_ids (track_ids c)] else [])
  ++ (if playlist_state_changed c && nonempty (playlist_ids c)
      then [remove_cached_playlist_ids (playlist_ids c)] else []).

(** The body of [with db.scoped_session() as session] for one block, up to
    (and including the flush of) [session.commit()]: the tables to commit and
    the cache work, or the exception that rolls the block back. *)
Definition index_block_session (ctx : TaskContext) (db : Db) (block : Chain.t)
    : Result (Db * CacheWork) :=
  let block_number := Chain.number block in
  let block_timestamp := Chain.timestamp block in
  let block_model :=
    Block.mk (Chain.hash block) (Some (Chain.number block)) (Chain.parentHash block) true in
  match current_blocks (blocks db) with
  | [_] =>
    let bs := flip_first_current (blocks db) in
    tx_receipt_dict ← fetch_tx_receipts ctx (Chain.transactions block);
    let sorted_txs := sorted_by_hash (Chain.transactions block) in
    b ← parse_txs (contract_addresses ctx) tx_receipt_dict sorted_txs empty_buckets;
    '(e, (total_user_changes, user_ids)) ←
      call (user_state_update ctx (entities db) (user_factory_txs b)
                              block_number block_timestamp);
    '(e, (total_track_changes, track_ids)) ←
      call (track_state_update ctx e (track_factory_txs b) block_number block_timestamp);
    '(e, _) ←
      call (social_feature_state_update ctx e (social_feature_factory_txs b)
                                        block_number block_timestamp);
    '(e, _) ←
      call (user_replica_set_state_update ctx e (user_replica_set_manager_txs b)
                                          block_number block_timestamp);
    '(e, (total_playlist_changes, playlist_ids)) ←
      call (playlist_state_update ctx e (playlist_factory_txs b)
                                  block_number block_timestamp);
    '(e, _) ←
      call (user_library_state_update ctx e (user_library_factory_txs b)
                                      block_number block_timestamp);
    bs ← add_block block_model bs;
    let user_state_changed := 0 <? total_user_changes in
    let track_state_changed := 0 <? total_track_changes in
    Ok (with_entities e (with_blocks bs db),
        {| user_state_changed := user_state_changed;
           user_ids := user_ids;
           track_lexeme_state_changed := user_state_changed || track_state_changed;
           track_ids := track_ids;
           playlist_state_changed := 0 <? total_playlist_changes;
           playlist_ids := playlist_ids |})
  | _ => Raised (AssertionError "Expected single row marked as current")
  end.

(** One iteration of the loop of [index_blocks]. *)
Definition index_block (ctx : TaskContext) (w : World) (block : Chain.t)
    : Result unit * World :=
  match index_block_session ctx (committed w) block with
  | Raised e => (Raised e, w)
  | Ok (db, work) =>
    let w := commit db w in
    let w := emit (cache_invalidations work) w in
    (* add the block number of the most recently processed block to redis *)
    let w := emit [redis_set most_recent_indexed_block_redis_key (RInt (Chain.number block));
                   redis_set most_recent_indexed_block_hash_redis_key (RStr (Chain.hash block))] w in
    (Ok tt, w)
  end.

Fixpoint index_each (ctx : TaskContext) (w : World) (in_order : list Chain.t)
    : Result unit * World :=
  match in_order with
  | [] => (Ok tt, w)
  | block :: rest =>
    match index_block ctx w block with
    | (Ok _, w') => index_each ctx w' rest
    | (Raised e, w') => (Raised e, w')
    end
  end.

Definition index_blocks (ctx : TaskContext) (w : World) (blocks_list : list Chain.t)
    : Result unit * World :=
  index_each ctx w (application_order blocks_list).

(** Truth value of a Python [Optional[int]]. *)
Definition truthy (n : option Z) : bool :=
  match n with
  | Some n => negb (n =? 0)
  | None => false
  end.

(** [initialize_blocks_table_if_necessary], for the configured
    [start_block]. *)
Definition initialize_blocks_table_if_necessary (ctx : TaskContext)
    (start_block : string) (w : World) : Result string * World :=
  let target_blockhash := start_block in
  match getBlock ctx target_blockhash with
  | None => (Raised BlockNotFound, w)
  | Some target_block =>
    let bs := blocks (committed w) in
    match current_blocks bs with
    | [] =>
      if negb (length bs =? 0)%nat then
        (Raised (AssertionError "Corrupted DB State - Expect single row marked as current"), w)
      else
        let number :=
          if (Chain.number target_block =? 0)
             || String.eqb target_blockhash default_config_start_hash
          then None else Some (Chain.number target_block) in
        let block_model := Block.mk target_blockhash number target_blockhash true in
        (Ok target_blockhash, commit (with_blocks (bs ++ [block_model]) (committed w)) w)
    | [current_block_result] =>
      (* set the last indexed block in redis *)
      let w :=
        match Block.number current_block_result with
        | Some n =>
          if truthy (Some n)
          then emit [redis_set most_recent_indexed_block_redis_key (RInt n)] w else w
        | None => w
        end in
      let w :=
        if negb (String.eqb (Block.blockhash current_block_result) "")
        then emit [redis_set most_recent_indexed_block_hash_redis_key
                             (RStr (Block.blockhash current_block_result))] w
        else w in
      (Ok target_blockhash, w)
    | _ => (Raised (AssertionError "Expected SINGLE row marked as current"), w)
    end
  end.

(** [revert_blocks] as a unit of work on the committed store. *)
Definition revert_batch (w : World) (revert_blocks_list : list Block.t)
    : Result unit * World :=
  match revert_blocks (committed w) revert_blocks_list with
  | (Ok _, db) =>
    (Ok tt, if nonempty revert_blocks_list then commit db w else w)
  | (Raised e, _) => (Raised e, w)
  end.

(** ** Aggregate maintenance ([src/tasks/index_aggregate_user.py]) *)

Definition AGGREGATE_USER : string := "aggregate_user".

(** Modelled from the spec: [get_last_indexed_checkpoint] and
    [save_indexed_checkpoint] of [src/utils/update_indexing_checkpoints]
    are not among the sources.  The checkpoint store is a durable mapping
    from a job name to its last processed blocknumber, one row per job,
    absent before the first successful run. *)
Definition get_last_indexed_checkpoint (db : Db) (tablename : string) : option Z :=
  indexing_checkpoints db !! tablename.

Definition save_indexed_checkpoint (db : Db) (tablename : string) (checkpoint : Z) : Db :=
  {| blocks := blocks db; entities := entities db;
     aggregate_user := aggregate_user db;
     indexing_checkpoints := <[tablename := checkpoint]> (indexing_checkpoints db) |}.

(** [get_latest_blocknumber]: [None] when no row is current, or when the
    current row's [number] is NULL. *)
Definition get_latest_blocknumber (db : Db) : option Z :=
  match current_blocks (blocks db) with
  | [] => None
  | db_block_query :: _ => Block.number db_block_query
  end.

Section AggregateQuery.
Variable most_recent_indexed_aggregate_block : Z.
Variable e : Entities.

Definition newer {K P} (r : Version.t K P) : bool :=
  Version.is_current r && (most_recent_indexed_aggregate_block <? Version.blocknumber r).

(** The CTE [changed_users].  Each branch is grouped by its id and the
    branches are joined by UNION ALL; the CTE is only read through
    [IN (SELECT user_id FROM changed_users)]. *)
Definition changed_users : list Z :=
  map Version.key (List.filter newer (users e))
  ++ map (fun t => owner_id (Version.payload t)) (List.filter newer (tracks e))
  ++ map (fun p => playlist_owner_id (Version.payload p))
         (List.filter (fun p => negb (is_album (Version.payload p)) && newer p) (playlists e))
  ++ map (fun p => playlist_owner_id (Version.payload p))
         (List.filter (fun p => is_album (Version.payload p) && newer p) (playlists e))
  ++ map (fun f => snd (Version.key f)) (List.filter newer (follows e))
  ++ map (fun f => fst (Version.key f)) (List.filter newer (follows e))
  ++ map (fun r => fst (fst (Version.key r))) (List.filter newer (reposts e))
  ++ map (fun s => fst (fst (Version.key s)))
         (List.filter (fun s => Version.is_current s
                                && bool_decide (snd (Version.key s) = track)
                                && (most_recent_indexed_aggregate_block <? Version.blocknumber s))
                      (saves e)).

Definition in_changed_users (user_id : Z) : bool :=
  existsb (Z.eqb user_id) changed_users.

Definition count_where {A} (f : A -> bool) (l : list A) : Z :=
  Z.of_nat (length (List.filter f l)).

(** The row the SELECT yields for [u.user_id]: each LEFT OUTER JOIN
    contributes its count, or 0 through COALESCE. *)
Definition recount (user_id : Z) : AggregateUser :=
  {| track_count :=
       count_where (fun t => Version.is_current t && negb (Version.is_delete t)
                             && negb (is_unlisted (Version.payload t))
                             && stem_of_is_null (Version.payload t)
                             && in_changed_users (owner_id (Version.payload t))
                             && (owner_id (Version.payload t) =? user_id)) (tracks e);
     playlist_count :=
       count_where (fun p => negb (is_album (Version.payload p))
                             && Version.is_current p && negb (Version.is_delete p)
                             && negb (is_private (Version.payload p))
                             && in_changed_users (playlist_owner_id (Version.payload p))
                             && (playlist_owner_id (Version.payload p) =? user_id))
                   (playlists e);
     album_count :=
       count_where (fun p => is_album (Version.payload p)
                             && Version.is_current p && negb (Version.is_delete p)
                             && negb (is_private (Version.payload p))
                             && in_changed_users (playlist_owner_id (Version.payload p))
                             && (playlist_owner_id (Version.payload p) =? user_id))
                   (playlists e);
     follower_count :=
       count_where (fun f => Version.is_current f && negb (Version.is_delete f)
                             && in_changed_users (snd (Version.key f))
                             && (snd (Version.key f) =? user_id)) (follows e);
     following_count :=
       count_where (fun f => Version.is_current f && negb (Version.is_delete f)
                             && in_changed_users (fst (Version.key f))
                             && (fst (Version.key f) =? user_id)) (follows e);
     repost_count :=
       count_where (fun r => Version.is_current r && negb (Version.is_delete r)
                             && in_changed_users (fst (fst (Version.key r)))
                             && (fst (fst (Version.key r)) =? user_id)) (reposts e);
     track_save_count :=
       count_where (fun s => Version.is_current s
                             && bool_decide (snd (Version.key s) = track)
                             && negb (Version.is_delete s)
                             && in_changed_users (fst (fst (Version.key s)))
                             && (fst (fst (Version.key s)) =? user_id)) (saves e) |}.

(** INSERT ... SELECT ... ON CONFLICT (user_id) DO UPDATE: one row per
    current user among the changed ones, overwriting all count fields. *)
Definition UPDATE_AGGREGATE_USER_QUERY (tb : gmap Z AggregateUser) : gmap Z AggregateUser :=
  fold_left (fun tb u => <[Version.key u := recount (Version.key u)]> tb)
            (List.filter (fun u => Version.is_current u && in_changed_users (Version.key u))
                         (users e))
            tb.
End AggregateQuery.

(** The statements [_update_aggregate_user] executes. *)
Inductive Statement :=
  | TRUNCATE_TABLE (tablename : string)
  | EXECUTE_UPDATE (most_recent_indexed_aggregate_block : Z)
  | SAVE_CHECKPOINT (tablename : string) (checkpoint : Z).

Definition with_aggregate_user (tb : gmap Z AggregateUser) (db : Db) : Db :=
  {| blocks := blocks db; entities := entities db;
     aggregate_user := tb;
     indexing_checkpoints := indexing_checkpoints db |}.

(** The upsert query and the checkpoint write that end
    [_update_aggregate_user]. *)
Definition run_update (most_recent_indexed_aggregate_block : Z)
    (latest_blocknumber : option Z) (db : Db) (log : list Statement)
    : Db * list Statement :=
  let db :=
    with_aggregate_user
      (UPDATE_AGGREGATE_USER_QUERY most_recent_indexed_aggregate_block
                                   (entities db) (aggregate_user db)) db in
  let log := log ++ [EXECUTE_UPDATE most_recent_indexed_aggregate_block] in
  (* set new block to be the lower bound for the next indexing *)
  match latest_blocknumber with
  | Some n =>
    if truthy (Some n)
    then (save_indexed_checkpoint db AGGREGATE_USER n,
          log ++ [SAVE_CHECKPOINT AGGREGATE_USER n])
    else (db, log)
  | None => (db, log)
  end.

(** [_update_aggregate_user]: the session's tables afterwards and the
    statements executed, in order. *)
Definition _update_aggregate_user (db : Db) : Db * list Statement :=
  let most_recent_indexed_aggregate_block :=
    get_last_indexed_checkpoint db AGGREGATE_USER in
  let latest_blocknumber := get_latest_blocknumber db in
  if negb (truthy most_recent_indexed_aggregate_block) then
    (* repopulate entire table *)
    run_update 0 latest_blocknumber (with_aggregate_user ∅ db)
               [TRUNCATE_TABLE AGGREGATE_USER]
  else if bool_decide (latest_blocknumber = most_recent_indexed_aggregate_block) then
    (db, [])
  else
    match most_recent_indexed_aggregate_block with
    | Some c => run_update c latest_blocknumber db []
    | None => (db, [])
    end.

(** ** Predicates used to state the properties *)

(** The only current row of [bs] is the one with hash [h]. *)
Definition current_is (h : string) (bs : list Block.t) : Prop :=
  List.NoDup (map Block.blockhash bs)
  /\ In h (map Block.blockhash bs)
  /\ forall b, In b bs -> Block.is_current b = true <-> Block.blockhash b = h.

(** A revert list as the second walk of [update_task] builds it on a
    persisted chain whose hashes are [persisted]: it starts at the current
    block, and each block's parent is a different block that is still
    persisted when the block is reverted, and is the next one in the list. *)
Fixpoint revert_chain (persisted : list string) (current_hash : string)
    (revert_blocks_list : list Block.t) : Prop :=
  match revert_blocks_list with
  | [] => True
  | r :: rest =>
    Block.blockhash r = current_hash
    /\ revert_parent_hash r <> current_hash
    /\ In (revert_parent_hash r) persisted
    /\ revert_chain (List.filter (fun s => negb (String.eqb s current_hash)) persisted)
                    (revert_parent_hash r) rest
  end.

(** The hash of the block that is current after the batch. *)
Fixpoint reverted_to (current_hash : string) (revert_blocks_list : list Block.t) : string :=
  match revert_blocks_list with
  | [] => current_hash
  | r :: rest => reverted_to (revert_parent_hash r) rest
  end.

(** The transaction has hash [h]. *)
Definition has_hash (h : string) (tx : Chain.Transaction) : bool :=
  String.eqb (Chain.tx_hash tx) h.

(** The receipt of the transaction can be fetched. *)
Definition fetched (ctx : TaskContext) (tx : Chain.Transaction) : bool :=
  match getTransactionReceipt ctx (Chain.tx_hash tx) with
  | Some _ => true
  | None => false
  end.

(** The events one indexed block adds to the trace. *)
Definition block_events (db : Db) (work : CacheWork) (block : Chain.t) : list Event :=
  Commit db :: cache_invalidations work
  ++ [redis_set most_recent_indexed_block_redis_key (RInt (Chain.number block));
      redis_set most_recent_indexed_block_hash_redis_key (RStr (Chain.hash block))].

(** A scan of a trace that accepts a cache invalidation or a publication
    only behind the commit of the block it belongs to: [open] tells whether
    that commit has been seen; the publication of the block's hash, the last
    event of a block, closes it. *)
Fixpoint effects_follow_commit (open : bool) (evs : list Event) : bool :=
  match evs with
  | [] => true
  | Commit _ :: rest => effects_follow_commit true rest
  | redis_set most_recent_indexed_block_hash_redis_key _ :: rest =>
    open && effects_follow_commit false rest
  | _ :: rest => open && effects_follow_commit open rest
  end.

(** The second walk of [update_task] as a relation: from the block [t], the
    rows appended to the revert list, up to the intersection hash [X] or to a
    block whose parent is not persisted. *)
Inductive walk (bs : list Block.t) (X : string) : Block.t -> list Block.t -> Prop :=
  | walk_stop t :
      Block.blockhash t = X -> walk bs X t []
  | walk_break t :
      Block.blockhash t <> X ->
      blocks_with_hash (Block.parenthash t) bs = [] ->
      walk bs X t [t]
  | walk_next t parent ps p :
      Block.blockhash t <> X ->
      blocks_with_hash (Block.parenthash t) bs = parent :: ps ->
      walk bs X parent p ->
      walk bs X t (t :: p).

(** The [blocks] table as [initialize_blocks_table_if_necessary] and
    [index_blocks] fill it: [blockhash] is the primary key and never the
    padded zero hash; the parent of every row is persisted, the configured
    start hash standing for the padded zero hash; and the row of the
    configured start hash is its own parent. *)
Definition persisted_chain (bs : list Block.t) : Prop :=
  List.NoDup (map Block.blockhash bs)
  /\ ~ In default_padded_start_hash (map Block.blockhash bs)
  /\ (forall r, In r bs -> In (revert_parent_hash r) (map Block.blockhash bs))
  /\ (forall r, In r bs -> Block.blockhash r = default_config_start_hash ->
                Block.parenthash r = default_config_start_hash).

(** ** Full counts of a user *)

(** The counts of one user over the current, not deleted rows that are
    eligible by visibility, as the seven subqueries of the upsert select
    them, without the restriction to the changed users. *)
Definition full_count (e : Entities) (user_id : Z) : AggregateUser :=
  {| track_count :=
       count_where (fun t => Version.is_current t && negb (Version.is_delete t)
                             && negb (is_unlisted (Version.payload t))
                             && stem_of_is_null (Version.payload t)
                             && (owner_id (Version.payload t) =? user_id)) (tracks e);
     playlist_count :=
       count_where (fun p => negb (is_album (Version.payload p))
                             && Version.is_current p && negb (Version.is_delete p)
                             && negb (is_private (Version.payload p))
                             && (playlist_owner_id (Version.payload p) =? user_id))
                   (playlists e);
     album_count :=
       count_where (fun p => is_album (Version.payload p)
                             && Version.is_current p && negb (Version.is_delete p)
                             && negb (is_private (Version.payload p))
                             && (playlist_owner_id (Version.payload p) =? user_id))
                   (playlists e);
     follower_count :=
       count_where (fun f => Version.is_current f && negb (Version.is_delete f)
                             && (snd (Version.key f) =? user_id)) (follows e);
     following_count :=
       count_where (fun f => Version.is_current f && negb (Version.is_delete f)
                             && (fst (Version.key f) =? user_id)) (follows e);
     repost_count :=
       count_where (fun r => Version.is_current r && negb (Version.is_delete r)
                             && (fst (fst (Version.key r)) =? user_id)) (reposts e);
     track_save_count :=
       count_where (fun s => Version.is_current s
                             && bool_decide (snd (Version.key s) = track)
                             && negb (Version.is_delete s)
                             && (fst (fst (Version.key s)) =? user_id)) (saves e) |}.

(** Some row of the [users] table with this id is current. *)
Definition is_current_user (e : Entities) (user_id : Z) : bool :=
  existsb (fun u => Version.is_current u && (Version.key u =? user_id)) (users e).

(** No current row that the CTE [changed_users] reads has a [blocknumber]
    above [c]. *)
Definition nothing_newer (c : Z) (e : Entities) : Prop :=
  (forall u, In u (users e) -> Version.is_current u = true -> Version.blocknumber u <= c)
  /\ (forall t, In t (tracks e) -> Version.is_current t = true -> Version.blocknumber t <= c)
  /\ (forall p, In p (playlists e) -> Version.is_current p = true ->
                Version.blocknumber p <= c)
  /\ (forall f, In f (follows e) -> Version.is_current f = true -> Version.blocknumber f <= c)
  /\ (forall r, In r (reposts e) -> Version.is_current r = true -> Version.blocknumber r <= c)
  /\ (forall s, In s (saves e) -> Version.is_current s = true ->
                snd (Version.key s) = track -> Version.blocknumber s <= c).

(** ** Views of the entity tables *)

(** A row without its [is_current] flag. *)
Definition forget {K P} (r : Version.t K P) : Version.t K P :=
  Version.set_is_current false r.

(** The rows that are not stamped with the block hash [h]. *)
Definition other_blocks {K P} (h : string) (tb : list (Version.t K P))
    : list (Version.t K P) :=
  List.filter (fun r => negb (String.eqb (Version.blockhash r) h)) tb.

(** Whether the table is [tb'] up to flags that went from false to true. *)
Definition raised {K P} (tb tb' : list (Version.t K P)) : Prop :=
  Forall2 (fun r r' => r' = r \/ r' = Version.set_is_current true r) tb tb'.

(** The same, for the six tables. *)
Definition entities_raised (e e' : Entities) : Prop :=
  raised (saves e) (saves e') /\ raised (reposts e) (reposts e')
  /\ raised (follows e) (follows e') /\ raised (playlists e) (playlists e')
  /\ raised (tracks e) (tracks e') /\ raised (users e) (users e').

Definition entities_of_other_blocks (h : string) (e : Entities) : Entities :=
  {| saves := other_blocks h (saves e); reposts := other_blocks h (reposts e);
     follows := other_blocks h (follows e); playlists := other_blocks h (playlists e);
     tracks := other_blocks h (tracks e); users := other_blocks h (users e) |}.

(** A loaded row and what the revert loop may have made of it. *)
Definition kept {K P} (x x' : nat * Version.t K P) : Prop :=
  fst x' = fst x
  /\ (snd x' = snd x \/ snd x' = Version.set_is_current true (snd x)).

(** The loaded row is not one of the deleted ones. *)
Definition not_among {K P} (deleted : list nat) (x : nat * Version.t K P) : bool :=
  negb (existsb (Nat.eqb (fst x)) deleted).

(** The filter of the lookup in the loops over playlists, tracks and users:
    the business key [k] and a [blocknumber] below [n]. *)
Definition candidate {K P} `{EqDecision K} (n : Z) (k : K) (x : nat * Version.t K P) : bool :=
  same_key k x && below (Some n) x.

(** ** Views of the block indexer *)

(** The row [index_blocks] inserts for a chain block. *)
Definition block_row (is_current : bool) (block : Chain.t) : Block.t :=
  Block.mk (Chain.hash block) (Some (Chain.number block)) (Chain.parentHash block)
           is_current.

(** A row of the table has the hash, or the number, of the chain block. *)
Definition already_persisted (block : Chain.t) (bs : list Block.t) : bool :=
  existsb (fun b => String.eqb (Block.blockhash b) (Chain.hash block)) bs
  || existsb (fun b => match Block.number b with
                       | Some n => n =? Chain.number block
                       | None => false
                       end) bs.

(** The receipts, in the order of [txs], of the transactions sent to
    [address]. *)
Definition receipts_sent_to (address : string) (tx_receipt_dict : gmap string Receipt)
    (txs : list Chain.Transaction) : list Receipt :=
  omap (fun tx => tx_receipt_dict !! Chain.tx_hash tx)
       (List.filter (fun tx => String.eqb (Chain.to tx) address) txs).

(** Ascending order of transaction hash. *)
Definition hash_le (a b : Chain.Transaction) : Prop :=
  String.leb (Chain.tx_hash a) (Chain.tx_hash b) = true.

(** ** The task [update_task] as a whole *)

(** [web3.eth.getBlock('latest', True)] and [web3.eth.getBlock(number, True)];
    [None] stands for a raised exception. *)
Record ChainHead := {
  getBlock_latest : option Chain.t;
  getBlock_number : Z -> option Chain.t
}.

(** [shared_config["discprov"]]: [start_block] and [block_processing_window]. *)
Record Config := {
  start_block : string;
  block_processing_window : Z
}.


(** The block number [get_latest_block] asks the chain for. *)
Definition target_latest_block_number (current_block : Block.t)
    (block_processing_window : Z) (latest_block_from_chain : Chain.t) : Z :=
  let current_block_number :=
    match Block.number current_block with
    | Some n => n
    | None => 0
    end in
  let target_latest_block_number := current_block_number + block_processing_window in
  if Chain.number latest_block_from_chain <? target_latest_block_number
  then Chain.number latest_block_from_chain
  else target_latest_block_number.

(** [get_latest_block] *)
Definition get_latest_block (head : ChainHead) (block_processing_window : Z)
    (bs : list Block.t) : Result Chain.t :=
  match current_blocks bs with
  | [current_block] =>
    match getBlock_latest head with
    | None => Raised BlockNotFound
    | Some latest_block_from_chain =>
      match getBlock_number head
              (target_latest_block_number current_block block_processing_window
                                          latest_block_from_chain) with
      | Some latest_block => Ok latest_block
      | None => Raised BlockNotFound
      end
    end
  | _ => Raised (AssertionError "Expected SINGLE row marked as current")
  end.

(** The body of [if have_lock:] in [update_task]. *)
Definition update_cycle (ctx : TaskContext) (head : ChainHead) (config : Config)
    (fuel : nat) (w : World) : option (Result unit * World) :=
  match initialize_blocks_table_if_necessary ctx (start_block config) w with
  | (Raised e, w) => Some (Raised e, w)
  | (Ok _, w) =>
    match get_latest_block head (block_processing_window config) (blocks (committed w)) with
    | Raised e => Some (Raised e, w)
    | Ok latest_block =>
      match reconcile ctx fuel (blocks (committed w)) latest_block with
      | None => None
      | Some (Raised e) => Some (Raised e, w)
      | Some (Ok lists) =>
        (* Perform revert operations *)
        match revert_batch w (revert_blocks_list lists) with
        | (Raised e, w) => Some (Raised e, w)
        | (Ok _, w) =>
          (* Perform indexing operations *)
          Some (index_blocks ctx w (index_blocks_list lists))
        end
      end
    end
  end.


(** A stretch of the chain, tip first, as the chain client serves it: each
    block names the next one as its parent, and the client returns the next
    one for that hash. *)
Fixpoint served_chain (ctx : TaskContext) (stretch : list Chain.t) : Prop :=
  match stretch with
  | a :: (b :: _) as older =>
    Chain.parentHash a = Chain.hash b
    /\ getBlock ctx (Chain.hash b) = Some b
    /\ served_chain ctx older
  | _ => True
  end.

(** The blocks are not persisted and none has the padded zero hash as its
    parent. *)
Definition all_new (bs : list Block.t) (stretch : list Chain.t) : Prop :=
  Forall (fun c => blocks_with_hash (Chain.hash c) bs = []
                   /\ Chain.parentHash c <> default_padded_start_hash) stretch.

(** ** Redirect weights ([src/queries/get_redirect_weights.py]) *)

Module RedirectWeights.
(** What [requests.get(f"{endpoint}/request_count")] gives: an exception,
    or a response with its [status_code] and with [int(response.text)],
    [None] when [int] raises [ValueError]. *)
Inductive Reply :=
  | RequestException
  | Response (status_code : Z) (int_text : option Z).

(** The first loop of [redirect_weights], over the endpoints and what each
    one answers, in the order of [endpoints].  [loads] is a dict: a later
    entry of the same endpoint replaces the earlier one.  [None] stands for
    an exception that ends the handler. *)
Fixpoint request_counts (answers : list (string * Reply)) (loads : gmap string Z)
    : option (gmap string Z) :=
  match answers with
  | [] => Some loads
  | (endpoint, response) :: rest =>
    match response with
    | RequestException => None
    | Response status_code int_text =>
      if status_code =? 200 then
        match int_text with
        | Some load => request_counts rest (<[endpoint := load]> loads)
        | None => None
        end
      else request_counts rest loads
    end
  end.

(** [{endpoint: 1 for endpoint in endpoints}] *)
Definition all_one (endpoints : list string) : gmap string Z :=
  list_to_map (map (fun endpoint => (endpoint, 1)) endpoints).

(** [max(values, default=default)] *)
Definition max_default (values : list Z) (default : Z) : Z :=
  match values with
  | [] => default
  | v :: rest => fold_left Z.max rest v
  end.

(** [redirect_weights], from the filled [loads] on. *)
Definition weigh (endpoints : list string) (loads : gmap string Z) : gmap string Z :=
  let loads := if (size loads =? 0)%nat then all_one endpoints else loads in
  let max_load := max_default (snd <$> map_to_list loads) 1 in
  (fun load => (max_load - load) + 5) <$> loads.

(** [redirect_weights]: the body of the response. *)
Definition redirect_weights (answers : list (string * Reply)) : option (gmap string Z) :=
  match request_counts answers ∅ with
  | None => None
  | Some loads => Some (weigh (map fst answers) loads)
  end.

(** The endpoint answered with status 200 and a number, and no later answer
    of the same endpoint did. *)
Definition last_load (answers : list (string * Reply)) (endpoint : string) (load : Z) : Prop :=
  exists before after,
    answers = before ++ (endpoint, Response 200 (Some load)) :: after
    /\ forall status_code int_text,
         In (endpoint, Response status_code int_text) after -> status_code <> 200.

(** No endpoint answered with status 200. *)
Definition none_healthy (answers : list (string * Reply)) : Prop :=
  forall endpoint reply,
    In (endpoint, reply) answers ->
    exists status_code int_text,
      reply = Response status_code int_text /\ status_code <> 200.
End RedirectWeights.

(** ** Trending challenges ([src/tasks/calculate_trending_challenges.py]) *)

Module TrendingChallenges.
(** The keys of a trending track and of a trending playlist that the task
    reads. *)
Record Track := {
  track_id : Z;
  owner_id : Z
}.

Record Playlist := {
  playlist_id : Z;
  playlist_owner_id : Z
}.

Inductive ChallengeEvent :=
  | trending_track
  | trending_underground
  | trending_playlist.

Inductive TrendingType :=
  | TRACKS
  | UNDERGROUND_TRACKS
  | PLAYLISTS.

(** The [extra] dict of a dispatch. *)
Record Extra := {
  id : Z;
  user_id : Z;
  rank : Z;
  type : TrendingType;
  version : string;
  week : string
}.

(** One call [challenge_bus.dispatch(event, block_number, user_id, extra)]. *)
Record Dispatch := {
  event : ChallengeEvent;
  block_number : Z;
  dispatch_user_id : Z;
  extra : Extra
}.

(** What the task asks of the rest of the code base: the versions of
    [trending_strategy_factory.get_versions_for_type(type).keys()], and the
    three trending queries, each for the strategy of a version.  The
    underground and the playlist query receive their [limit] argument. *)
Record Trending := {
  get_versions_for_type : TrendingType -> list string;
  _get_trending_tracks_with_session : Db -> string -> list Track;
  _get_underground_trending_with_session : Db -> Z -> string -> list Track;
  _get_trending_playlists_with_session : Db -> Z -> string -> list Playlist
}.

(** The value of [most_recent_indexed_block_redis_key] after the events of
    [trace], when it was [before] at their start: [redis.set] replaces the
    value, and nothing else of the task touches the key. *)
Fixpoint most_recent_indexed_block (trace : list Event) (before : option Z) : option Z :=
  match trace with
  | [] => before
  | redis_set most_recent_indexed_block_redis_key (RInt n) :: rest =>
    most_recent_indexed_block rest (Some n)
  | _ :: rest => most_recent_indexed_block rest before
  end.

(** [get_latest_blocknumber_via_redis]; [latest_indexed_block_num] is the
    number that redis holds under [most_recent_indexed_block_redis_key]. *)
Definition get_latest_blocknumber_via_redis (db : Db) (latest_indexed_block_num : option Z)
    : option Z :=
  match latest_indexed_block_num with
  | Some n => Some n
  | None => get_latest_blocknumber db
  end.

(** The number of users to receive the trending rewards. *)
Definition TRENDING_LIMIT : Z := 5.

(** [for idx, track in enumerate(tracks)], from index [idx] on. *)
Fixpoint dispatch_from (idx : Z) (challenge_event : ChallengeEvent) (latest_blocknumber : Z)
    (tracks : list Track) (version : string) (week : string) (type : TrendingType)
    : list Dispatch :=
  match tracks with
  | [] => []
  | trending_entry :: rest =>
    {| event := challenge_event;
       block_number := latest_blocknumber;
       dispatch_user_id := owner_id trending_entry;
       extra := {| id := track_id trending_entry;
                   user_id := owner_id trending_entry;
                   rank := idx + 1;
                   type := type;
                   version := version;
                   week := week |} |}
    :: dispatch_from (idx + 1) challenge_event latest_blocknumber rest version week type
  end.

(** [dispatch_trending_challenges]; [week] is [date_to_week(date)]. *)
Definition dispatch_trending_challenges (challenge_event : ChallengeEvent)
    (latest_blocknumber : Z) (tracks : list Track) (version : string) (week : string)
    (type : TrendingType) : list Dispatch :=
  dispatch_from 0 challenge_event latest_blocknumber tracks version week type.

(** The loop over the trending playlists of one version. *)
Fixpoint dispatch_playlists_from (idx : Z) (latest_blocknumber : Z)
    (trending_playlists : list Playlist) (version : string) (week : string)
    : list Dispatch :=
  match trending_playlists with
  | [] => []
  | trending_entry :: rest =>
    {| event := trending_playlist;
       block_number := latest_blocknumber;
       dispatch_user_id := playlist_owner_id trending_entry;
       extra := {| id := playlist_id trending_entry;
                   user_id := playlist_owner_id trending_entry;
                   rank := idx + 1;
                   type := PLAYLISTS;
                   version := version;
                   week := week |} |}
    :: dispatch_playlists_from (idx + 1) latest_blocknumber rest version week
  end.

(** [top_tracks[:TRENDING_LIMIT]] *)
Definition top (limit : Z) {A} (l : list A) : list A := take (Z.to_nat limit) l.

(** [enqueue_trending_challenges]: the dispatches, in the order they are
    made. *)
Definition enqueue_trending_challenges (t : Trending) (db : Db)
    (latest_indexed_block_num : option Z) (week : string) : list Dispatch :=
  match get_latest_blocknumber_via_redis db latest_indexed_block_num with
  | None => []
  | Some latest_blocknumber =>
    concat
      (map (fun version =>
              let top_tracks := _get_trending_tracks_with_session t db version in
              let top_tracks := top TRENDING_LIMIT top_tracks in
              dispatch_trending_challenges trending_track latest_blocknumber top_tracks
                                           version week TRACKS)
           (get_versions_for_type t TRACKS))
    ++ concat
         (map (fun version =>
                 let top_tracks :=
                   _get_underground_trending_with_session t db TRENDING_LIMIT version in
                 dispatch_trending_challenges trending_underground latest_blocknumber
                                              top_tracks version week UNDERGROUND_TRACKS)
              (get_versions_for_type t UNDERGROUND_TRACKS))
    ++ concat
         (map (fun version =>
                 let trending_playlists :=
                   _get_trending_playlists_with_session t db TRENDING_LIMIT version in
                 dispatch_playlists_from 0 latest_blocknumber trending_playlists version week)
              (get_versions_for_type t PLAYLISTS))
  end.
End TrendingChallenges.

(** ** Concrete states used by the examples *)

Module Example.
Definition H0 : string := "0xa0".
Definition H1 : string := "0xa1".
Definition H1' : string := "0xb1".
Definition H2' : string := "0xb2".
Definition Hgenesis : string := "0x9f".

(** The persisted chain [H0 <- H1], with [H1] current. *)
Definition row_H0 : Block.t := Block.mk H0 (Some 10) Hgenesis false.
Definition row_H1 : Block.t := Block.mk H1 (Some 11) H0 true.
Definition persisted : list Block.t := [row_H0; row_H1].

(** The canonical chain [H0 <- H1' <- H2']. *)
Definition chain_H0 : Chain.t :=
  {| Chain.hash := H0; Chain.parentHash := Hgenesis; Chain.number := 10;
     Chain.timestamp := 1000; Chain.transactions := [] |}.
Definition chain_H1' : Chain.t :=
  {| Chain.hash := H1'; Chain.parentHash := H0; Chain.number := 11;
     Chain.timestamp := 1001; Chain.transactions := [] |}.
Definition chain_H2' : Chain.t :=
  {| Chain.hash := H2'; Chain.parentHash := H1'; Chain.number := 12;
     Chain.timestamp := 1002; Chain.transactions := [] |}.

Definition canonical (h : string) : option Chain.t :=
  if String.eqb h H0 then Some chain_H0
  else if String.eqb h H1' then Some chain_H1'
  else if String.eqb h H2' then Some chain_H2'
  else None.

Definition idle {R} (r : R) : Applier R := fun e _ _ _ => Some (e, r).

Definition addresses : ContractAddresses :=
  {| user_factory := "0xc1"; track_factory := "0xc2";
     social_feature_factory := "0xc3"; playlist_factory := "0xc4";
     user_library_factory := "0xc5"; user_replica_set_manager := "0xc6" |}.

(** A context whose appliers change nothing. *)
Definition ctx : TaskContext :=
  {| getBlock := canonical;
     getTransactionReceipt := fun h => Some {| transactionHash := h; logs := [] |};
     contract_addresses := addresses;
     user_state_update := idle (0, []);
     track_state_update := idle (0, []);
     social_feature_state_update := idle 0;
     user_replica_set_state_update := idle 0;
     playlist_state_update := idle (0, []);
     user_library_state_update := idle 0 |}.

Definition no_entities : Entities := Build_Entities [] [] [] [] [] [].

Definition store (bs : list Block.t) (e : Entities) : Db :=
  {| blocks := bs; entities := e; aggregate_user := ∅; indexing_checkpoints := ∅ |}.

(** User 1 follows user 2 since block [H0]; block [H1] records the
    unfollow as a new version.  Track 5 has a version in each block. *)
Definition follow_old : Follow := Version.mk (1, 2) H0 10 "0xe0" false false tt.
Definition follow_new : Follow := Version.mk (1, 2) H1 11 "0xe1" true true tt.
Definition track_payload : TrackPayload :=
  {| owner_id := 1; is_unlisted := false; stem_of_is_null := true |}.
Definition track_old : Track := Version.mk 5 H0 10 "0xe2" false false track_payload.
Definition track_new : Track := Version.mk 5 H1 11 "0xe3" true false track_payload.

Definition versioned : Entities :=
  {| saves := []; reposts := []; follows := [follow_old; follow_new];
     playlists := []; tracks := [track_old; track_new]; users := [] |}.

(** The chain [H0 <- B1 <- B2 <- B3]; [B1] carries one transaction sent to
    the social feature factory. *)
Definition B1 : Chain.t :=
  {| Chain.hash := "0xd1"; Chain.parentHash := H0; Chain.number := 11;
     Chain.timestamp := 1001;
     Chain.transactions := [{| Chain.tx_hash := "0xf1"; Chain.to := "0xc3" |}] |}.
Definition B2 : Chain.t :=
  {| Chain.hash := "0xd2"; Chain.parentHash := "0xd1"; Chain.number := 12;
     Chain.timestamp := 1002; Chain.transactions := [] |}.
Definition B3 : Chain.t :=
  {| Chain.hash := "0xd3"; Chain.parentHash := "0xd2"; Chain.number := 13;
     Chain.timestamp := 1003; Chain.transactions := [] |}.

Definition hash_at (block_number : Z) : string :=
  if block_number =? 11 then "0xd1"
  else if block_number =? 12 then "0xd2" else "0xd3".

(** Modelled from the spec: the social-feature applier of
    [src/tasks/social_features.py] is not among the sources.  By the data
    model, applying a change appends a version row stamped with the block
    and leaves that row as the only current one of its business id.  This
    one records, for each receipt batch that is not empty, that user 1
    unfollows user 2. *)
Definition unfollow : Applier Z := fun e receipts block_number _ =>
  match receipts with
  | [] => Some (e, 0)
  | _ =>
    Some ({| saves := saves e; reposts := reposts e;
             follows :=
               map (fun f => if bool_decide (Version.key f = (1, 2))
                             then Version.set_is_current false f else f) (follows e)
               ++ [Version.mk (1, 2) (hash_at block_number) block_number "0xf1"
                              true true tt];
             playlists := playlists e; tracks := tracks e; users := users e |}, 1)
  end.

Definition social_ctx : TaskContext :=
  {| getBlock := canonical;
     getTransactionReceipt := fun h => Some {| transactionHash := h; logs := [] |};
     contract_addresses := addresses;
     user_state_update := idle (0, []);
     track_state_update := idle (0, []);
     social_feature_state_update := unfollow;
     user_replica_set_state_update := idle 0;
     playlist_state_update := idle (0, []);
     user_library_state_update := idle 0 |}.

(** Before [B1]: block [H0] is current and the follow is current. *)
Definition follow_current : Follow := Version.mk (1, 2) H0 10 "0xe0" true false tt.
Definition before_B1 : World :=
  {| committed :=
       store [Block.mk H0 (Some 10) Hgenesis true]
             {| saves := []; reposts := []; follows := [follow_current];
                playlists := []; tracks := []; users := [] |};
     trace := [] |}.

(** The rows of [B3], [B2], [B1] as the second walk of [update_task]
    reads them. *)
Definition revert_B3_B2_B1 : list Block.t :=
  [Block.mk "0xd3" (Some 13) "0xd2" true;
   Block.mk "0xd2" (Some 12) "0xd1" false;
   Block.mk "0xd1" (Some 11) H0 false].

(** All rows marked current, over the six kinds. *)
Definition current_rows (e : Entities) : Entities :=
  {| saves := List.filter Version.is_current (saves e);
     reposts := List.filter Version.is_current (reposts e);
     follows := List.filter Version.is_current (follows e);
     playlists := List.filter Version.is_current (playlists e);
     tracks := List.filter Version.is_current (tracks e);
     users := List.filter Version.is_current (users e) |}.

(** A store whose checkpoint for the aggregate job is [c], whose current
    block has number [n], and whose aggregate table has a row for user 1. *)
Definition aggregate_row : AggregateUser :=
  {| track_count := 3; playlist_count := 1; album_count := 0; follower_count := 2;
     following_count := 2; repost_count := 0; track_save_count := 4 |}.
Definition at_checkpoint (c : Z) (n : option Z) : Db :=
  {| blocks := [Block.mk H0 n Hgenesis true];
     entities := no_entities;
     aggregate_user := {[ 1 := aggregate_row ]};
     indexing_checkpoints := {[ AGGREGATE_USER := c ]} |}.

(** User 7 with no track, one playlist, one album and no follower, all
    written in block 11, after a checkpoint of 10. *)
Definition owner_of_two : Entities :=
  {| saves := []; reposts := []; follows := [];
     playlists :=
       [Version.mk 20 H1 11 "0xe4" true false
                   {| playlist_owner_id := 7; is_album := false; is_private := false |};
        Version.mk 21 H1 11 "0xe5" true false
                   {| playlist_owner_id := 7; is_album := true; is_private := false |}];
     tracks := [];
     users := [Version.mk 7 H0 10 "0xe6" true false tt] |}.

(** A table started from the configured start hash: the start row, the
    genesis block and its child, which is current. *)
Definition start_row : Block.t :=
  Block.mk default_config_start_hash None default_config_start_hash false.
Definition genesis_row : Block.t := Block.mk H0 (Some 0) default_padded_start_hash false.
Definition first_row : Block.t := Block.mk H1 (Some 1) H0 true.
Definition from_start : World :=
  {| committed := store [start_row; genesis_row; first_row] no_entities; trace := [] |}.
End Example.

(** ** More concrete states *)

Module Sample.
(** The genesis block of a chain, its child and its grandchild, and a
    client that serves them. *)
Definition G0 : Chain.t :=
  {| Chain.hash := "0xa0"; Chain.parentHash := default_padded_start_hash;
     Chain.number := 0; Chain.timestamp := 1000; Chain.transactions := [] |}.
Definition G1 : Chain.t :=
  {| Chain.hash := "0xa1"; Chain.parentHash := "0xa0";
     Chain.number := 1; Chain.timestamp := 1001; Chain.transactions := [] |}.
Definition G2 : Chain.t :=
  {| Chain.hash := "0xa2"; Chain.parentHash := "0xa1";
     Chain.number := 2; Chain.timestamp := 1002; Chain.transactions := [] |}.

Definition by_hash (h : string) : option Chain.t :=
  if String.eqb h "0xa0" then Some G0
  else if String.eqb h "0xa1" then Some G1
  else if String.eqb h "0xa2" then Some G2
  else if String.eqb h "0x0" then Some G0
  else None.

Definition by_number (n : Z) : option Chain.t :=
  if n =? 0 then Some G0 else if n =? 1 then Some G1 else if n =? 2 then Some G2 else None.

Definition ctx : TaskContext :=
  {| getBlock := by_hash;
     getTransactionReceipt := fun h => Some {| transactionHash := h; logs := [] |};
     contract_addresses := Example.addresses;
     user_state_update := Example.idle (0, []);
     track_state_update := Example.idle (0, []);
     social_feature_state_update := Example.idle 0;
     user_replica_set_state_update := Example.idle 0;
     playlist_state_update := Example.idle (0, []);
     user_library_state_update := Example.idle 0 |}.

Definition head : ChainHead :=
  {| getBlock_latest := Some G2; getBlock_number := by_number |}.

Definition config : Config :=
  {| start_block := "0x0"; block_processing_window := 100 |}.

(** The store of [Example.from_start]: the start row, [G0] and [G1], with
    [G1] current. *)
Definition at_G1 : World := Example.from_start.

(** The same store once [G2] is indexed. *)
Definition at_G2 : World :=
  {| committed :=
       Example.store [Example.start_row; Example.genesis_row;
                      Block.set_is_current false Example.first_row;
                      Block.mk "0xa2" (Some 2) "0xa1" true]
                     Example.no_entities;
     trace := [] |}.
End Sample.

Module Charts.
(** Three nodes: two answer with their load, one is down. *)
Definition answers : list (string * RedirectWeights.Reply) :=
  [("https://dn1", RedirectWeights.Response 200 (Some 40));
   ("https://dn2", RedirectWeights.Response 503 None);
   ("https://dn3", RedirectWeights.Response 200 (Some 10))].

(** No node answers with status 200. *)
Definition all_down : list (string * RedirectWeights.Reply) :=
  [("https://dn1", RedirectWeights.Response 500 None);
   ("https://dn2", RedirectWeights.Response 503 None)].

(** Seven trending tracks of one strategy version, and a code base with
    that version only. *)
Definition seven : list TrendingChallenges.Track :=
  map (fun i => {| TrendingChallenges.track_id := 100 + i;
                   TrendingChallenges.owner_id := 10 + i |})
      [1; 2; 3; 4; 5; 6; 7].

Definition trending : TrendingChallenges.Trending :=
  {| TrendingChallenges.get_versions_for_type := fun _ => ["ML51L"];
     TrendingChallenges._get_trending_tracks_with_session := fun _ _ => seven;
     TrendingChallenges._get_underground_trending_with_session :=
       fun _ limit _ => take (Z.to_nat limit) seven;
     TrendingChallenges._get_trending_playlists_with_session := fun _ _ _ => [] |}.

(** Seven trending playlists, and a code base whose playlist query returns
    all of them, whatever its limit argument. *)
Definition seven_playlists : list TrendingChallenges.Playlist :=
  map (fun i => {| TrendingChallenges.playlist_id := i;
                   TrendingChallenges.playlist_owner_id := 10 * i |})
      [1; 2; 3; 4; 5; 6; 7].

Definition unbounded : TrendingChallenges.Trending :=
  {| TrendingChallenges.get_versions_for_type := fun _ => ["ML51L"];
     TrendingChallenges._get_trending_tracks_with_session := fun _ _ => seven;
     TrendingChallenges._get_underground_trending_with_session := fun _ _ _ => seven;
     TrendingChallenges._get_trending_playlists_with_session :=
       fun _ _ _ => seven_playlists |}.
End Charts.

(** * Properties *)

(** ** Reconciliation *)

Lemma latest_block_db_query_by_hash (current_hash parent_hash : string) (bs : list Block.t) :
  latest_block_db_query current_hash parent_hash bs = blocks_with_hash current_hash bs.
Proof. reflexivity. Qed.

Lemma blocks_with_hash_head (h : string) (bs : list Block.t) (b : Block.t) (rest : list Block.t) :
  blocks_with_hash h bs = b :: rest -> Block.blockhash b = h.
Proof.
  intros Hq.
  assert (Hin : In b (blocks_with_hash h bs)) by (rewrite Hq; left; reflexivity).
  apply filter_In in Hin as [_ Heq].
  now apply String.eqb_eq.
Qed.

Lemma omap_lookup_app_l {A} (l : list A) (x : A) (idx : list nat) :
  Forall (fun i => (i < length l)%nat) idx ->
  omap (fun i => (l ++ [x]) !! i) idx = omap (fun i => l !! i) idx.
Proof.
  induction 1 as [|i idx Hi _ IH]; [reflexivity|].
  csimpl. rewrite lookup_app_l by exact Hi.
  rewrite IH. reflexivity.
Qed.

Lemma application_order_rev {A} (l : list A) : application_order l = rev l.
Proof.
  unfold application_order, block_order_range.
  induction l as [|x l IH] using rev_ind; [reflexivity|].
  rewrite length_app, Nat.add_comm. simpl length.
  rewrite seq_S, !rev_app_distr. csimpl.
  rewrite list_lookup_middle by reflexivity.
  rewrite omap_lookup_app_l, IH; [reflexivity|].
  apply Forall_forall. intros i Hi.
  apply list_elem_of_In, in_rev, in_seq in Hi. lia.
Qed.

(** C1. Reorg scenario: the persisted current Block is [b1], a child of the
    persisted block with hash [h0]; the chain client shows [c0 <- c1' <- c2']
    with tip [c2'], and neither [c1'] nor [c2'] is persisted.  Given fuel
    for two steps of each walk, the reconciliation finds the intersection
    [h0], the revert list [[b1]] and the index list [[c2'; c1']], which
    [index_blocks] applies as [c1'] then [c2']. *)
Theorem reorg_reconciliation (ctx : TaskContext) (bs : list Block.t)
    (b1 : Block.t) (c0 c1' c2' : Chain.t) (fuel : nat) :
  current_blocks bs = [b1] ->
  Block.parenthash b1 = Chain.hash c0 ->
  Block.blockhash b1 <> Chain.hash c0 ->
  blocks_with_hash (Chain.hash c0) bs <> [] ->
  blocks_with_hash (Chain.hash c1') bs = [] ->
  blocks_with_hash (Chain.hash c2') bs = [] ->
  Chain.parentHash c2' = Chain.hash c1' ->
  Chain.parentHash c1' = Chain.hash c0 ->
  getBlock ctx (Chain.hash c1') = Some c1' ->
  getBlock ctx (Chain.hash c0) = Some c0 ->
  Chain.hash c1' <> default_padded_start_hash ->
  Chain.hash c0 <> default_padded_start_hash ->
  (2 <= fuel)%nat ->
  reconcile ctx fuel bs c2'
  = Some (Ok {| intersect_block_hash := Chain.hash c0;
                index_blocks_list := [c2'; c1'];
                revert_blocks_list := [b1] |})
  /\ application_order [c2'; c1'] = [c1'; c2'].
Proof.
  intros Hcur Hpar Hne Hp0 Hn1 Hn2 Hl2 Hl1 Hg1 Hg0 Hz1 Hz0 Hfuel.
  split; [|rewrite application_order_rev; reflexivity].
  destruct fuel as [|[|fuel]]; [lia|lia|].
  unfold reconcile.
  assert (Hwalk : tip_walk ctx (S (S fuel)) bs c2' []
                  = Some (Ok (Chain.hash c0, [c2'; c1']))).
  { apply String.eqb_neq in Hz1, Hz0.
    cbn [tip_walk].
    rewrite latest_block_db_query_by_hash, Hn2, Hl2, Hn1, Hz1, Hg1. cbn [length Nat.ltb Nat.leb].
    destruct fuel; cbn [tip_walk];
      rewrite latest_block_db_query_by_hash, Hn1, Hl1, Hz0, Hg0; cbn [length Nat.ltb Nat.leb];
      (destruct (blocks_with_hash (Chain.hash c0) bs) as [|p ps]; [congruence|]);
      reflexivity. }
  rewrite Hwalk, Hcur.
  cbn [traverse]. apply String.eqb_neq in Hne. rewrite Hne, Hpar.
  destruct (blocks_with_hash (Chain.hash c0) bs) as [|p ps] eqn:Hq; [congruence|].
  apply blocks_with_hash_head in Hq. rewrite Hq, String.eqb_refl. reflexivity.
Qed.

Lemma reorg_reconciliation_witness :
  reconcile Example.ctx 2 Example.persisted Example.chain_H2'
  = Some (Ok {| intersect_block_hash := Example.H0;
                index_blocks_list := [Example.chain_H2'; Example.chain_H1'];
                revert_blocks_list := [Example.row_H1] |})
  /\ application_order [Example.chain_H2'; Example.chain_H1']
     = [Example.chain_H1'; Example.chain_H2'].
Proof.
  apply (reorg_reconciliation Example.ctx Example.persisted Example.row_H1
           Example.chain_H0 Example.chain_H1' Example.chain_H2' 2);
    first [reflexivity | discriminate | lia].
Defined.

(** The revert list stays empty when the current block is the intersection
    (scenario A: the chain only grew). *)
Example grown_chain_reconciliation :
  reconcile Example.ctx 2 [Example.row_H0; Block.set_is_current false Example.row_H1;
                             Block.mk Example.H1' (Some 11) Example.H0 true]
            Example.chain_H2'
  = Some (Ok {| intersect_block_hash := Example.H1';
                index_blocks_list := [Example.chain_H2'];
                revert_blocks_list := [] |}).
Proof. reflexivity. Qed.

(** The exit "we are up to date" of the tip-walk is taken as soon as some
    row has the visited hash, whatever its [is_current]. *)
Lemma tip_walk_exit_by_hash (ctx : TaskContext) (fuel : nat) (bs : list Block.t)
    (latest_block : Chain.t) (index_blocks_list : list Chain.t) :
  blocks_with_hash (Chain.hash latest_block) bs <> [] ->
  tip_walk ctx (S fuel) bs latest_block index_blocks_list
  = Some (Ok (Chain.hash latest_block, index_blocks_list)).
Proof.
  intros Hq. cbn [tip_walk]. rewrite latest_block_db_query_by_hash.
  destruct (blocks_with_hash (Chain.hash latest_block) bs); [contradiction|reflexivity].
Qed.

(** C6. The tip-walk leaves the loop at the visited hash, without adding
    the block to the index list, although the only persisted row with that
    hash is not current: with rows [H0] (not current) and [H1] (current)
    and the chain tip at [H0], the walk returns [H0] at once.  The
    [is_current] operand of the criterion never reaches the query. *)
Theorem tip_walk_exits_on_non_current_row :
  tip_walk Example.ctx 1 Example.persisted Example.chain_H0 []
  = Some (Ok (Example.H0, []))
  /\ List.filter (fun b => String.eqb (Block.blockhash b) Example.H0
                           && Block.is_current b) Example.persisted = []
  /\ forall current_hash parent_hash,
       latest_block_db_criterion current_hash parent_hash
       = CEq Col_blockhash (BStr current_hash).
Proof. split; [reflexivity|split; reflexivity]. Qed.

(** ** The revert engine *)

(** C5. A revert list longer than 500 makes [revert_blocks] raise with
    every table as it was (and the unit of work leaves the committed store
    and the trace untouched); an empty revert list returns at once, also
    without a change. *)
Theorem revert_blocks_guard (db : Db) (w : World) (revert_blocks_list : list Block.t) :
  (500 < length revert_blocks_list)%nat ->
  revert_blocks db revert_blocks_list
    = (Raised (Exception "Unexpected revert, >0 blocks"), db)
  /\ revert_batch w revert_blocks_list
    = (Raised (Exception "Unexpected revert, >0 blocks"), w)
  /\ revert_blocks db [] = (Ok tt, db)
  /\ revert_batch w [] = (Ok tt, w).
Proof.
  intros Hlen.
  assert (Hraise : forall d, revert_blocks d revert_blocks_list
                             = (Raised (Exception "Unexpected revert, >0 blocks"), d)).
  { intros d. unfold revert_blocks.
    destruct (Nat.eqb_spec (length revert_blocks_list) 0) as [Hz|_]; [lia|].
    destruct (Nat.ltb_spec 500 (length revert_blocks_list)) as [_|Hle]; [reflexivity|lia]. }
  split; [apply Hraise|].
  split; [|split; reflexivity].
  unfold revert_batch. rewrite Hraise. reflexivity.
Qed.

Lemma revert_blocks_guard_witness :
  let db := {| blocks := Example.persisted;
               entities := Build_Entities [] [] [] [] [] [];
               aggregate_user := ∅; indexing_checkpoints := ∅ |} in
  let w := {| committed := db; trace := [] |} in
  let too_long := repeat Example.row_H1 501 in
  revert_blocks db too_long = (Raised (Exception "Unexpected revert, >0 blocks"), db)
  /\ revert_batch w too_long = (Raised (Exception "Unexpected revert, >0 blocks"), w)
  /\ revert_blocks db [] = (Ok tt, db)
  /\ revert_batch w [] = (Ok tt, w).
Proof.
  intros db w too_long.
  apply (revert_blocks_guard db w too_long).
  unfold too_long. rewrite repeat_length. lia.
Defined.

(** *** The current-block invariant *)

Lemma no_current_rows (bs : list Block.t) :
  (forall b, In b bs -> Block.is_current b = false) -> current_blocks bs = [].
Proof.
  induction bs as [|b bs IH]; intros Hall; [reflexivity|].
  unfold current_blocks in *. cbn [List.filter].
  rewrite (Hall b) by (left; reflexivity).
  apply IH. intros b' Hb'. apply Hall. right. exact Hb'.
Qed.

Lemma current_is_one (h : string) (bs : list Block.t) :
  current_is h bs -> exactly_one_current bs.
Proof.
  unfold current_is, exactly_one_current, current_blocks.
  induction bs as [|b bs IH]; intros (Hnd & Hin & Hcur); [destruct Hin|].
  cbn [map] in Hnd. apply NoDup_cons_iff in Hnd as [Hnotin Hnd].
  cbn [List.filter].
  destruct (String.eqb_spec (Block.blockhash b) h) as [Heq|Hneq].
  - rewrite (proj2 (Hcur b (or_introl eq_refl)) Heq). cbn [length]. f_equal.
    fold (current_blocks bs). rewrite no_current_rows; [reflexivity|].
    intros b' Hb'. destruct (Block.is_current b') eqn:Hc; [|reflexivity].
    apply (Hcur b' (or_intror Hb')) in Hc.
    exfalso. apply Hnotin. rewrite Heq, <- Hc. apply in_map. exact Hb'.
  - destruct (Block.is_current b) eqn:Hc.
    + apply (Hcur b (or_introl eq_refl)) in Hc. contradiction.
    + apply IH. split; [|split].
      * exact Hnd.
      * destruct Hin as [Hin|Hin]; [contradiction|exact Hin].
      * intros b0 Hb0. apply (Hcur b0). right. exact Hb0.
Qed.

Lemma blockhash_update_is_current (h : string) (v : bool) (bs : list Block.t) :
  map Block.blockhash (update_is_current h v bs) = map Block.blockhash bs.
Proof.
  unfold update_is_current. rewrite map_map. apply map_ext.
  intros b. destruct (String.eqb (Block.blockhash b) h); reflexivity.
Qed.

Lemma blockhash_delete_block (h : string) (bs : list Block.t) :
  map Block.blockhash (delete_block h bs)
  = List.filter (fun s => negb (String.eqb s h)) (map Block.blockhash bs).
Proof.
  unfold delete_block. induction bs as [|b bs IH]; [reflexivity|].
  cbn [List.filter map].
  destruct (String.eqb (Block.blockhash b) h); cbn [negb map]; rewrite IH; reflexivity.
Qed.

(** One iteration of the revert loop moves the current flag from the
    reverted block to its parent. *)
Lemma revert_step_current (h p : string) (bs : list Block.t) :
  current_is h bs -> p <> h -> In p (map Block.blockhash bs) ->
  current_is p (delete_block h (update_is_current p true (update_is_current h false bs))).
Proof.
  intros (Hnd & Hin & Hcur) Hne Hp. split; [|split].
  - rewrite blockhash_delete_block, !blockhash_update_is_current.
    apply List.NoDup_filter. exact Hnd.
  - rewrite blockhash_delete_block, !blockhash_update_is_current.
    apply filter_In. split; [exact Hp|].
    apply Bool.negb_true_iff, String.eqb_neq. exact Hne.
  - intros b Hb. unfold delete_block in Hb. apply filter_In in Hb as [Hb Hkeep].
    apply Bool.negb_true_iff, String.eqb_neq in Hkeep.
    unfold update_is_current in Hb.
    apply in_map_iff in Hb as (b1 & <- & Hb1).
    apply in_map_iff in Hb1 as (b0 & <- & Hb0).
    specialize (Hcur b0 Hb0).
    destruct (String.eqb_spec (Block.blockhash b0) h) as [Hb0h|Hb0h].
    + exfalso.
      destruct (String.eqb (Block.blockhash (Block.set_is_current false b0)) p);
        cbn in Hkeep; contradiction.
    + assert (Hfalse : Block.is_current b0 = false).
      { destruct (Block.is_current b0); [|reflexivity].
        exfalso. apply Hb0h. apply Hcur. reflexivity. }
      destruct (String.eqb_spec (Block.blockhash b0) p) as [Hb0p|Hb0p]; cbn.
      * split; intros _; [exact Hb0p|reflexivity].
      * rewrite Hfalse. split; [discriminate|contradiction].
Qed.

Lemma blocks_revert_block (db : Db) (r : Block.t) :
  blocks (revert_block db r)
  = delete_block (Block.blockhash r)
      (update_is_current (revert_parent_hash r) true
         (update_is_current (Block.blockhash r) false (blocks db))).
Proof. reflexivity. Qed.


Lemma blockhash_revert_block (db : Db) (r : Block.t) :
  map Block.blockhash (blocks (revert_block db r))
  = List.filter (fun s => negb (String.eqb s (Block.blockhash r)))
                (map Block.blockhash (blocks db)).
Proof.
  rewrite blocks_revert_block, blockhash_delete_block, !blockhash_update_is_current.
  reflexivity.
Qed.

Lemma revert_loop_current (revert_blocks_list : list Block.t) :
  forall (db : Db) (h : string),
    current_is h (blocks db) ->
    revert_chain (map Block.blockhash (blocks db)) h revert_blocks_list ->
    current_is (reverted_to h revert_blocks_list)
               (blocks (fold_left revert_block revert_blocks_list db)).
Proof.
  induction revert_blocks_list as [|r rest IH]; intros db h Hcur Hchain; [exact Hcur|].
  destruct Hchain as (Hr & Hne & Hp & Hrest).
  cbn [fold_left].
  assert (Hstep : current_is (revert_parent_hash r) (blocks (revert_block db r))).
  { rewrite blocks_revert_block, Hr. apply revert_step_current; assumption. }
  rewrite <- Hr, <- blockhash_revert_block in Hrest.
  exact (IH _ _ Hstep Hrest).
Qed.

(** ** The block indexer *)

Ltac step_session :=
  match goal with
  | H : context [match ?x with _ => _ end] |- _ =>
    let E := fresh "E" in destruct x eqn:E; try discriminate H
  end.

(** What a successful session body did to the [blocks] table. *)
Lemma index_block_session_ok (ctx : TaskContext) (db db' : Db) (block : Chain.t)
    (work : CacheWork) :
  index_block_session ctx db block = Ok (db', work) ->
  exists c d,
    current_blocks (blocks db) = [c]
    /\ fetch_tx_receipts ctx (Chain.transactions block) = Ok d
    /\ add_block (Block.mk (Chain.hash block) (Some (Chain.number block))
                           (Chain.parentHash block) true)
                 (flip_first_current (blocks db)) = Ok (blocks db')
    /\ aggregate_user db' = aggregate_user db
    /\ indexing_checkpoints db' = indexing_checkpoints db.
Proof.
  unfold index_block_session. intros H.
  destruct (current_blocks (blocks db)) as [|c [|c2 rest]] eqn:Hcur; try discriminate H.
  unfold mbind, Result_bind in H.
  repeat step_session.
  injection H as <- _.
  exists c. eexists. repeat split; reflexivity.
Qed.

Lemma flip_first_current_none (bs : list Block.t) (c : Block.t) :
  current_blocks bs = [c] -> current_blocks (flip_first_current bs) = [].
Proof.
  unfold current_blocks.
  induction bs as [|b bs IH]; intros Hcur; [discriminate|].
  cbn [List.filter flip_first_current] in *.
  destruct (Block.is_current b) eqn:Hb.
  - injection Hcur as _ Hrest. cbn [List.filter]. exact Hrest.
  - cbn [List.filter]. rewrite Hb. apply IH. exact Hcur.
Qed.

Lemma add_block_ok (block_model : Block.t) (bs bs' : list Block.t) :
  add_block block_model bs = Ok bs' -> bs' = bs ++ [block_model].
Proof.
  unfold add_block. intros H.
  destruct (_ || _); [discriminate|]. injection H as <-. reflexivity.
Qed.

Lemma index_block_session_one_current (ctx : TaskContext) (db db' : Db) (block : Chain.t)
    (work : CacheWork) :
  index_block_session ctx db block = Ok (db', work) ->
  current_blocks (blocks db')
  = [Block.mk (Chain.hash block) (Some (Chain.number block)) (Chain.parentHash block) true].
Proof.
  intros H. apply index_block_session_ok in H as (c & d & Hcur & _ & Hadd & _).
  apply add_block_ok in Hadd. rewrite Hadd.
  unfold current_blocks. rewrite List.filter_app.
  fold (current_blocks (flip_first_current (blocks db))).
  rewrite (flip_first_current_none _ _ Hcur). reflexivity.
Qed.

Lemma index_block_one_current (ctx : TaskContext) (w : World) (block : Chain.t) :
  exactly_one_current (blocks (committed w)) ->
  exactly_one_current (blocks (committed (snd (index_block ctx w block)))).
Proof.
  intros Hinv. unfold index_block.
  destruct (index_block_session ctx (committed w) block) as [[db work]|e] eqn:Hs;
    [|exact Hinv].
  cbn. unfold exactly_one_current.
  rewrite (index_block_session_one_current _ _ _ _ _ Hs). reflexivity.
Qed.

Lemma index_each_one_current (ctx : TaskContext) (in_order : list Chain.t) :
  forall w, exactly_one_current (blocks (committed w)) ->
            exactly_one_current (blocks (committed (snd (index_each ctx w in_order)))).
Proof.
  induction in_order as [|block rest IH]; intros w Hinv; [exact Hinv|].
  cbn [index_each].
  pose proof (index_block_one_current ctx w block Hinv) as Hstep.
  destruct (index_block ctx w block) as [[[]|e] w']; [apply IH|]; exact Hstep.
Qed.

Lemma initialize_one_current (ctx : TaskContext) (start_block : string) (w : World) :
  exactly_one_current (blocks (committed w)) ->
  committed (snd (initialize_blocks_table_if_necessary ctx start_block w)) = committed w.
Proof.
  unfold exactly_one_current, initialize_blocks_table_if_necessary. intros Hinv.
  destruct (getBlock ctx start_block); [|reflexivity].
  destruct (current_blocks (blocks (committed w))) as [|c [|c2 rest]];
    [discriminate| |discriminate].
  destruct (Block.number c) as [n|]; cbn;
    repeat (match goal with |- context [if ?b then _ else _] => destruct b end);
    reflexivity.
Qed.

(** On an empty table the start row is inserted as the current one. *)
Lemma initialize_empty_table (ctx : TaskContext) (start_block : string) (w : World)
    (target_block : Chain.t) :
  blocks (committed w) = [] ->
  getBlock ctx start_block = Some target_block ->
  exactly_one_current
    (blocks (committed (snd (initialize_blocks_table_if_necessary ctx start_block w)))).
Proof.
  intros Hempty Hget. unfold initialize_blocks_table_if_necessary.
  rewrite Hget, Hempty. reflexivity.
Qed.

(** *** The revert list of the second walk *)

Lemma traverse_acc (fuel : nat) (bs : list Block.t) (X : string) :
  forall t acc,
    traverse fuel bs t X acc
    = match traverse fuel bs t X [] with
      | Some p => Some (acc ++ p)
      | None => None
      end.
Proof.
  induction fuel as [|fuel IH]; intros t acc; [reflexivity|].
  cbn [traverse].
  destruct (String.eqb (Block.blockhash t) X); [rewrite app_nil_r; reflexivity|].
  destruct (blocks_with_hash (Block.parenthash t) bs) as [|parent ps]; [reflexivity|].
  rewrite (IH parent (acc ++ [t])), (IH parent ([] ++ [t])).
  destruct (traverse fuel bs parent X []); [|reflexivity].
  rewrite <- app_assoc. reflexivity.
Qed.

(** One step of the walk, with the rest of the walk started afresh. *)
Lemma traverse_step (fuel : nat) (bs : list Block.t) (X : string) (t : Block.t) :
  traverse (S fuel) bs t X []
  = if String.eqb (Block.blockhash t) X then Some []
    else match blocks_with_hash (Block.parenthash t) bs with
         | [] => Some [t]
         | parent :: _ =>
           match traverse fuel bs parent X [] with
           | Some p => Some (t :: p)
           | None => None
           end
         end.
Proof.
  cbn [traverse].
  destruct (String.eqb (Block.blockhash t) X); [reflexivity|].
  destruct (blocks_with_hash (Block.parenthash t) bs) as [|parent ps]; [reflexivity|].
  rewrite traverse_acc. reflexivity.
Qed.

Lemma traverse_more_fuel (fuel : nat) (bs : list Block.t) (X : string) :
  forall t p, traverse fuel bs t X [] = Some p -> traverse (S fuel) bs t X [] = Some p.
Proof.
  induction fuel as [|fuel IH]; intros t p H; [discriminate|].
  rewrite traverse_step in H. rewrite traverse_step.
  destruct (String.eqb (Block.blockhash t) X); [exact H|].
  destruct (blocks_with_hash (Block.parenthash t) bs) as [|parent ps]; [exact H|].
  destruct (traverse fuel bs parent X []) as [p'|] eqn:Hp; [|discriminate].
  rewrite (IH _ _ Hp). exact H.
Qed.

Lemma traverse_fuel_le (bs : list Block.t) (X : string) (t : Block.t) (p : list Block.t)
    (f f' : nat) :
  (f <= f')%nat -> traverse f bs t X [] = Some p -> traverse f' bs t X [] = Some p.
Proof.
  induction 1 as [|f' _ IH]; intros H; [exact H|].
  apply traverse_more_fuel, IH, H.
Qed.

Lemma traverse_deterministic (bs : list Block.t) (X : string) (t : Block.t)
    (p1 p2 : list Block.t) (f1 f2 : nat) :
  traverse f1 bs t X [] = Some p1 -> traverse f2 bs t X [] = Some p2 -> p1 = p2.
Proof.
  intros H1 H2.
  apply (traverse_fuel_le bs X t p1 f1 (Nat.max f1 f2)) in H1; [|lia].
  apply (traverse_fuel_le bs X t p2 f2 (Nat.max f1 f2)) in H2; [|lia].
  congruence.
Qed.

Lemma traverse_walk (fuel : nat) (bs : list Block.t) (X : string) :
  forall t p, traverse fuel bs t X [] = Some p -> walk bs X t p.
Proof.
  induction fuel as [|fuel IH]; intros t p H; [discriminate|].
  rewrite traverse_step in H.
  destruct (String.eqb_spec (Block.blockhash t) X) as [Heq|Hne].
  - injection H as <-. apply walk_stop. exact Heq.
  - destruct (blocks_with_hash (Block.parenthash t) bs) as [|parent ps] eqn:Hq.
    + injection H as <-. apply walk_break; assumption.
    + destruct (traverse fuel bs parent X []) as [p'|] eqn:Hp; [|discriminate].
      injection H as <-. eapply walk_next; eauto.
Qed.

Section WalkFacts.
Variable bs : list Block.t.
Variable X : string.

Lemma walk_deterministic (t : Block.t) (p1 p2 : list Block.t) :
  walk bs X t p1 -> walk bs X t p2 -> p1 = p2.
Proof.
  intros H1. revert p2.
  induction H1 as [t Ht|t Ht Hq|t parent ps p Ht Hq Hw IH]; intros p2 H2;
    inversion H2; subst; try congruence.
  f_equal. apply IH. congruence.
Qed.

Lemma walk_suffix (t r : Block.t) (p : list Block.t) :
  walk bs X t p -> In r p ->
  exists pre s, p = pre ++ r :: s /\ walk bs X r (r :: s).
Proof.
  induction 1 as [t Ht|t Ht Hq|t parent ps p Ht Hq Hw IH]; intros Hin.
  - destruct Hin.
  - destruct Hin as [<-|[]]. exists [], []. split; [reflexivity|].
    apply walk_break; assumption.
  - destruct Hin as [<-|Hin].
    + exists [], p. split; [reflexivity|]. eapply walk_next; eauto.
    + destruct (IH Hin) as (pre & s & -> & Hs).
      exists (t :: pre), s. split; [reflexivity|exact Hs].
Qed.

Lemma walk_persisted (t : Block.t) (p : list Block.t) :
  walk bs X t p -> In t bs -> forall r, In r p -> In r bs.
Proof.
  induction 1 as [t Ht|t Ht Hq|t parent ps p Ht Hq Hw IH]; intros Hin r Hr.
  - destruct Hr.
  - destruct Hr as [<-|[]]. exact Hin.
  - destruct Hr as [<-|Hr]; [exact Hin|].
    apply IH; [|exact Hr].
    assert (Hp : In parent (blocks_with_hash (Block.parenthash t) bs))
      by (rewrite Hq; left; reflexivity).
    apply filter_In in Hp as [Hp _]. exact Hp.
Qed.

Lemma walk_not_intersection (t : Block.t) (p : list Block.t) :
  walk bs X t p -> forall r, In r p -> Block.blockhash r <> X.
Proof.
  induction 1 as [t Ht|t Ht Hq|t parent ps p Ht Hq Hw IH]; intros r Hr.
  - destruct Hr.
  - destruct Hr as [<-|[]]. exact Ht.
  - destruct Hr as [<-|Hr]; [exact Ht|apply IH; exact Hr].
Qed.

Lemma same_hash_same_row (a b : Block.t) :
  List.NoDup (map Block.blockhash bs) -> In a bs -> In b bs ->
  Block.blockhash a = Block.blockhash b -> a = b.
Proof.
  induction bs as [|c l IH]; intros Hnd Ha Hb Heq; [destruct Ha|].
  cbn [map] in Hnd. apply NoDup_cons_iff in Hnd as [Hnotin Hnd].
  destruct Ha as [<-|Ha], Hb as [<-|Hb].
  - reflexivity.
  - exfalso. apply Hnotin. rewrite Heq. apply in_map. exact Hb.
  - exfalso. apply Hnotin. rewrite <- Heq. apply in_map. exact Ha.
  - apply IH; assumption.
Qed.

Lemma parent_persisted (t parent : Block.t) (ps : list Block.t) :
  blocks_with_hash (Block.parenthash t) bs = parent :: ps ->
  In parent bs /\ Block.blockhash parent = Block.parenthash t.
Proof.
  intros Hq.
  assert (Hp : In parent (blocks_with_hash (Block.parenthash t) bs))
    by (rewrite Hq; left; reflexivity).
  apply filter_In in Hp as [Hp Hh]. split; [exact Hp|]. apply String.eqb_eq. exact Hh.
Qed.

Lemma walk_distinct (t : Block.t) (p : list Block.t) :
  List.NoDup (map Block.blockhash bs) -> In t bs ->
  walk bs X t p -> List.NoDup (map Block.blockhash p).
Proof.
  intros Hnd Hin Hw.
  induction Hw as [t Ht|t Ht Hq|t parent ps p Ht Hq Hw IH].
  - constructor.
  - repeat constructor. intros [].
  - destruct (parent_persisted _ _ _ Hq) as [Hp _].
    cbn [map]. constructor; [|apply IH; exact Hp].
    intros Hdup. apply in_map_iff in Hdup as (r & Hr & Hrp).
    assert (r = t).
    { apply same_hash_same_row; try assumption.
      apply (walk_persisted parent p Hw Hp). exact Hrp. }
    subst r.
    destruct (walk_suffix _ _ _ Hw Hrp) as (pre & s & Hsplit & Hs).
    assert (Hfull : walk bs X t (t :: p)) by (eapply walk_next; eauto).
    pose proof (walk_deterministic _ _ _ Hs Hfull) as Hsame.
    injection Hsame as ->.
    apply (f_equal (@length _)) in Hsplit. rewrite length_app in Hsplit. cbn in Hsplit. lia.
Qed.
End WalkFacts.

Section WalkOnChain.
Variable bs : list Block.t.
Variable X : string.
Hypothesis Hwf : persisted_chain bs.

Lemma persisted_has_rows (h : string) :
  In h (map Block.blockhash bs) -> blocks_with_hash h bs <> [].
Proof.
  intros Hin Hq. apply in_map_iff in Hin as (r & Hr & Hin).
  assert (Hf : In r (blocks_with_hash h bs)).
  { apply filter_In. split; [exact Hin|]. apply String.eqb_eq. exact Hr. }
  rewrite Hq in Hf. destruct Hf.
Qed.

Lemma revert_parent_persisted (r parent : Block.t) (ps : list Block.t) :
  blocks_with_hash (Block.parenthash r) bs = parent :: ps ->
  revert_parent_hash r = Block.blockhash parent.
Proof.
  intros Hq. destruct (parent_persisted bs _ _ _ Hq) as [Hp Hh].
  destruct Hwf as (_ & Hpad & _).
  unfold revert_parent_hash.
  destruct (String.eqb_spec (Block.parenthash r) default_padded_start_hash) as [Heq|_];
    [|symmetry; exact Hh].
  exfalso. apply Hpad. rewrite <- Heq, <- Hh. apply in_map. exact Hp.
Qed.

Lemma revert_parent_at_break (r : Block.t) :
  In r bs -> blocks_with_hash (Block.parenthash r) bs = [] ->
  Block.parenthash r = default_padded_start_hash
  /\ revert_parent_hash r = default_config_start_hash.
Proof.
  intros Hin Hq. destruct Hwf as (_ & _ & Hpar & _).
  specialize (Hpar r Hin). unfold revert_parent_hash in *.
  destruct (String.eqb_spec (Block.parenthash r) default_padded_start_hash) as [Heq|_].
  - split; [exact Heq|reflexivity].
  - exfalso. exact (persisted_has_rows _ Hpar Hq).
Qed.

Lemma walk_parent_differs (t parent : Block.t) (ps p : list Block.t) :
  In t bs -> walk bs X t (t :: p) ->
  blocks_with_hash (Block.parenthash t) bs = parent :: ps ->
  Block.blockhash parent <> Block.blockhash t.
Proof.
  intros Hin Hfull Hq Heq.
  destruct Hwf as (Hnd & _).
  destruct (parent_persisted bs _ _ _ Hq) as [Hp _].
  assert (parent = t) by (apply (same_hash_same_row bs); assumption). subst parent.
  inversion Hfull as [|? ? Hq' | ? parent' ps' p' ? Hq' Hw']; subst.
  - congruence.
  - rewrite Hq in Hq'. injection Hq' as <- _.
    pose proof (walk_deterministic bs X _ _ _ Hw' Hfull) as Hsame.
    apply (f_equal (@length _)) in Hsame. cbn in Hsame. lia.
Qed.

(** The parent a visited block is reverted to is neither the block itself
    nor a block the walk visited before it. *)
Lemma walk_parent_not_before (t r : Block.t) (p : list Block.t) :
  In t bs -> walk bs X t (t :: p) -> In r p ->
  revert_parent_hash r <> Block.blockhash t.
Proof.
  intros Hin Hfull Hr.
  pose proof Hwf as (Hnd & _ & _ & Hstart).
  pose proof (walk_distinct bs X _ _ Hnd Hin Hfull) as Hdistinct.
  cbn [map] in Hdistinct. apply NoDup_cons_iff in Hdistinct as [Hfresh _].
  assert (HtX : Block.blockhash t <> X).
  { apply (walk_not_intersection bs X _ _ Hfull). left. reflexivity. }
  inversion Hfull as [|? ? Hq0 | ? parent0 ps0 p0 ? Hq0 Hw0]; subst.
  { destruct Hr. }
  destruct (parent_persisted bs _ _ _ Hq0) as [Hp0 Hh0].
  assert (Hrbs : In r bs) by (apply (walk_persisted bs X _ _ Hw0 Hp0); exact Hr).
  destruct (walk_suffix bs X _ _ _ Hw0 Hr) as (pre & s & -> & Hs).
  inversion Hs as [|? ? Hq | ? n ps' s' ? Hq Hn]; subst.
  - destruct (revert_parent_at_break r Hrbs Hq) as [_ ->].
    intros Heq. symmetry in Heq.
    specialize (Hstart t Hin Heq).
    apply (walk_parent_differs t parent0 ps0 _ Hin Hfull Hq0). congruence.
  - rewrite (revert_parent_persisted _ _ _ Hq).
    inversion Hn as [? HnX | ? ? ? | ? ? ? ? ? ? ?]; subst.
    + congruence.
    + intros Heq. apply Hfresh. rewrite <- Heq. apply in_map.
      apply in_or_app. right. right. left. reflexivity.
    + intros Heq. apply Hfresh. rewrite <- Heq. apply in_map.
      apply in_or_app. right. right. left. reflexivity.
Qed.

Lemma walk_revert_chain_from (t : Block.t) (p : list Block.t) :
  walk bs X t p -> In t bs ->
  forall hs, (forall r, In r p -> In (revert_parent_hash r) hs) ->
             revert_chain hs (Block.blockhash t) p.
Proof.
  induction 1 as [t Ht|t Ht Hq|t parent ps p Ht Hq Hw IH]; intros Hin hs Hhs.
  - exact I.
  - cbn [revert_chain]. repeat split; [|apply Hhs; left; reflexivity].
    destruct (revert_parent_at_break t Hin Hq) as [Hpad ->].
    intros Heq. symmetry in Heq.
    destruct Hwf as (_ & _ & _ & Hstart). specialize (Hstart t Hin Heq).
    rewrite Hpad in Hstart. discriminate Hstart.
  - assert (Hfull : walk bs X t (t :: p)) by (eapply walk_next; eauto).
    destruct (parent_persisted bs _ _ _ Hq) as [Hp _].
    cbn [revert_chain]. rewrite (revert_parent_persisted _ _ _ Hq).
    split; [reflexivity|]. split; [|split].
    + apply (walk_parent_differs t parent ps p Hin Hfull Hq).
    + rewrite <- (revert_parent_persisted _ _ _ Hq). apply Hhs. left. reflexivity.
    + apply IH; [exact Hp|].
      intros r Hr. apply filter_In. split; [apply Hhs; right; exact Hr|].
      apply Bool.negb_true_iff, String.eqb_neq.
      apply (walk_parent_not_before t r p Hin Hfull Hr).
Qed.
End WalkOnChain.

Lemma traverse_revert_chain (bs : list Block.t) (fuel : nat) (X : string)
    (db_current_block : Block.t) (rl : list Block.t) :
  persisted_chain bs ->
  In db_current_block bs ->
  traverse fuel bs db_current_block X [] = Some rl ->
  revert_chain (map Block.blockhash bs) (Block.blockhash db_current_block) rl.
Proof.
  intros Hwf Hin Htr. apply traverse_walk in Htr.
  apply (walk_revert_chain_from bs X Hwf _ _ Htr Hin).
  intros r Hr. destruct Hwf as (_ & _ & Hpar & _). apply Hpar.
  apply (walk_persisted bs X _ _ Htr Hin). exact Hr.
Qed.

Lemma single_current_is (bs : list Block.t) (c : Block.t) :
  List.NoDup (map Block.blockhash bs) -> current_blocks bs = [c] ->
  In c bs /\ current_is (Block.blockhash c) bs.
Proof.
  intros Hnd Hcur.
  assert (Hc : In c bs /\ Block.is_current c = true).
  { apply filter_In. unfold current_blocks in Hcur. rewrite Hcur. left. reflexivity. }
  destruct Hc as [Hin Htrue]. split; [exact Hin|]. split; [exact Hnd|]. split.
  - apply in_map. exact Hin.
  - intros b Hb. split.
    + intros Hb'. assert (Hbc : In b (current_blocks bs)) by (apply filter_In; auto).
      rewrite Hcur in Hbc. destruct Hbc as [<-|[]]. reflexivity.
    + intros Heq. rewrite (same_hash_same_row bs b c Hnd Hb Hin Heq). exact Htrue.
Qed.

(** A revert batch moves the current flag down the chain. *)
Lemma revert_batch_current (w : World) (h : string) (rl : list Block.t) :
  current_is h (blocks (committed w)) ->
  revert_chain (map Block.blockhash (blocks (committed w))) h rl ->
  current_is (if (500 <? length rl)%nat then h else reverted_to h rl)
             (blocks (committed (snd (revert_batch w rl)))).
Proof.
  intros Hcur Hchain. unfold revert_batch, revert_blocks.
  destruct rl as [|r rest]; [exact Hcur|].
  cbn [length Nat.eqb].
  destruct (500 <? S (length rest))%nat; [exact Hcur|].
  cbn [nonempty snd commit committed]. apply revert_loop_current; assumption.
Qed.



(** *** Which version a revert restores *)

Section PreviousEntry.
Context {K P : Type} `{EqDecision K}.

(** [.order_by(X.blocknumber.desc()).first()] yields a row of the
    candidates whose [blocknumber] no other candidate exceeds, and yields
    none only when there is no candidate. *)
Lemma first_by_blocknumber_desc_greatest (l : @Loaded K P) :
  match first_by_blocknumber_desc l with
  | Some x =>
    In x l /\ forall y, In y l ->
                        Version.blocknumber (snd y) <= Version.blocknumber (snd x)
  | None => l = []
  end.
Proof.
  induction l as [|x l IH]; [reflexivity|].
  cbn [first_by_blocknumber_desc].
  destruct (first_by_blocknumber_desc l) as [y|].
  - destruct IH as [Hy Hmax].
    destruct (Z.leb_spec (Version.blocknumber (snd y)) (Version.blocknumber (snd x))).
    + split; [left; reflexivity|].
      intros z [<-|Hz]; [lia|]. specialize (Hmax z Hz). lia.
    + split; [right; exact Hy|].
      intros z [<-|Hz]; [lia|]. apply Hmax. exact Hz.
  - subst l. split; [left; reflexivity|]. intros z [<-|[]]. lia.
Qed.

(** The lookup of the loops over playlists, tracks and users: the row made
    current has the key of the reverted row and the greatest
    [blocknumber] strictly below the reverted block's number. *)
Lemma previous_entry_below (n : Z) (k : K) (l : @Loaded K P) (x : nat * Version.t K P) :
  first_by_blocknumber_desc
    (List.filter (fun y => same_key k y && below (Some n) y) l) = Some x ->
  In x l /\ Version.key (snd x) = k /\ Version.blocknumber (snd x) < n
  /\ forall y, In y l -> Version.key (snd y) = k -> Version.blocknumber (snd y) < n ->
               Version.blocknumber (snd y) <= Version.blocknumber (snd x).
Proof.
  intros Hfirst.
  pose proof (first_by_blocknumber_desc_greatest
                (List.filter (fun y => same_key k y && below (Some n) y) l)) as Hspec.
  rewrite Hfirst in Hspec. destruct Hspec as [Hin Hmax].
  apply filter_In in Hin as [Hin Hsel].
  apply andb_prop in Hsel as [Hk Hn].
  unfold same_key in Hk. apply bool_decide_eq_true in Hk.
  unfold below in Hn. apply Z.ltb_lt in Hn.
  repeat split; try assumption.
  intros y Hy Hyk Hyn. apply Hmax. apply filter_In. split; [exact Hy|].
  apply andb_true_intro. split.
  - unfold same_key. apply bool_decide_eq_true. exact Hyk.
  - unfold below. apply Z.ltb_lt. exact Hyn.
Qed.

(** The lookup of the loops over saves, reposts and follows: while the row
    to revert is still in its table, the row found is never older than it. *)
Lemma previous_entry_by_key_not_older (l : @Loaded K P) (to_revert : nat * Version.t K P) :
  In to_revert l ->
  exists x,
    first_by_blocknumber_desc (List.filter (same_key (Version.key (snd to_revert))) l)
    = Some x
    /\ Version.blocknumber (snd to_revert) <= Version.blocknumber (snd x).
Proof.
  intros Hin.
  assert (Hsel : In to_revert (List.filter (same_key (Version.key (snd to_revert))) l)).
  { apply filter_In. split; [exact Hin|].
    unfold same_key. apply bool_decide_eq_true. reflexivity. }
  pose proof (first_by_blocknumber_desc_greatest
                (List.filter (same_key (Version.key (snd to_revert))) l)) as Hspec.
  destruct (first_by_blocknumber_desc _) as [x|].
  - exists x. split; [reflexivity|]. apply Hspec. exact Hsel.
  - rewrite Hspec in Hsel. destruct Hsel.
Qed.
End PreviousEntry.

(** C4. Reverting block [H1] (number 11) with two versions of the follow
    (1, 2) and of track 5, the older ones from block 10 and not current: the
    track version of block 10 becomes current and the one of block 11 is
    deleted, but the follow version of block 10 stays not current, because
    the lookup of the follow loop has no bound on [blocknumber] and finds
    the row being reverted itself. *)
Theorem revert_follow_keeps_predecessor_not_current :
  let db := Example.store Example.persisted Example.versioned in
  let reverted := snd (revert_blocks db [Example.row_H1]) in
  tracks (entities reverted) = [Version.set_is_current true Example.track_old]
  /\ follows (entities reverted) = [Example.follow_old]
  /\ Version.is_current Example.follow_old = false
  /\ first_by_blocknumber_desc
       (List.filter (same_key (1, 2)) (load (follows Example.versioned)))
     = Some (1%nat, Example.follow_new).
Proof. repeat split. Qed.

(** C3. Indexing [B1], [B2], [B3] on top of [H0] and reverting
    [[B3; B2; B1]] makes [H0] the current block again, but the follow that
    was current before [B1] is not current afterwards: [B1] recorded an
    unfollow, and its revert does not restore the version before it. *)
Theorem index_then_revert_loses_current_follow :
  let indexed := snd (index_blocks Example.social_ctx Example.before_B1
                                   [Example.B3; Example.B2; Example.B1]) in
  let reverted := snd (revert_batch indexed Example.revert_B3_B2_B1) in
  fst (index_blocks Example.social_ctx Example.before_B1
                    [Example.B3; Example.B2; Example.B1]) = Ok tt
  /\ current_blocks (blocks (committed indexed)) = [Block.mk "0xd3" (Some 13) "0xd2" true]
  /\ traverse 4 (blocks (committed indexed)) (Block.mk "0xd3" (Some 13) "0xd2" true)
               Example.H0 []
     = Some Example.revert_B3_B2_B1
  /\ blocks (committed reverted) = blocks (committed Example.before_B1)
  /\ follows (Example.current_rows (entities (committed Example.before_B1)))
     = [Example.follow_current]
  /\ follows (Example.current_rows (entities (committed reverted))) = []
  /\ Example.current_rows (entities (committed reverted))
     <> Example.current_rows (entities (committed Example.before_B1)).
Proof. vm_compute. repeat split. discriminate. Qed.

(** ** Receipts *)

Lemma collect_step_lookup (ctx : TaskContext) (d : gmap string Receipt)
    (tx : Chain.Transaction) (h : string) :
  collect_step ctx d tx !! h
  = if has_hash h tx
    then match getTransactionReceipt ctx h with
         | Some r => Some r
         | None => d !! h
         end
    else d !! h.
Proof.
  unfold collect_step, fetch_tx_receipt, has_hash.
  destruct (String.eqb_spec (Chain.tx_hash tx) h) as [->|Hne].
  - destruct (getTransactionReceipt ctx h); [apply lookup_insert_eq|reflexivity].
  - destruct (getTransactionReceipt ctx (Chain.tx_hash tx)); [|reflexivity].
    apply lookup_insert_ne. exact Hne.
Qed.

(** What the dictionary holds once the futures in [completed] are through. *)
Lemma collect_lookup (ctx : TaskContext) (completed : list Chain.Transaction) (h : string) :
  forall d,
    fold_left (collect_step ctx) completed d !! h
    = if existsb (has_hash h) completed
      then match getTransactionReceipt ctx h with
           | Some r => Some r
           | None => d !! h
           end
      else d !! h.
Proof.
  induction completed as [|tx rest IH]; intros d; [reflexivity|].
  cbn [fold_left existsb]. rewrite IH, collect_step_lookup.
  destruct (has_hash h tx), (existsb (has_hash h) rest),
    (getTransactionReceipt ctx h); reflexivity.
Qed.

Lemma collect_receipts_lookup (ctx : TaskContext) (completed : list Chain.Transaction)
    (h : string) :
  collect_receipts ctx completed !! h
  = if existsb (has_hash h) completed then getTransactionReceipt ctx h else None.
Proof.
  unfold collect_receipts.
  rewrite collect_lookup, lookup_empty.
  destruct (existsb _ _), (getTransactionReceipt ctx h); reflexivity.
Qed.

(** The order in which the futures complete does not change the result. *)
Lemma collect_receipts_any_order (ctx : TaskContext) (submitted completed : list Chain.Transaction) :
  Permutation submitted completed ->
  collect_receipts ctx completed = collect_receipts ctx submitted.
Proof.
  intros Hperm. apply map_eq. intros h. rewrite !collect_receipts_lookup.
  assert (Hex : existsb (has_hash h) completed = existsb (has_hash h) submitted).
  { apply Bool.eq_iff_eq_true. rewrite !existsb_exists.
    split; intros (tx & Hin & Htx); exists tx; split; try exact Htx.
    - apply list_elem_of_In. rewrite Hperm. apply list_elem_of_In. exact Hin.
    - apply list_elem_of_In. rewrite <- Hperm. apply list_elem_of_In. exact Hin. }
  rewrite Hex. reflexivity.
Qed.

Lemma collect_step_size (ctx : TaskContext) (d : gmap string Receipt) (tx : Chain.Transaction) :
  (size (collect_step ctx d tx) <= size d + (if fetched ctx tx then 1 else 0))%nat.
Proof.
  unfold collect_step, fetch_tx_receipt, fetched.
  destruct (getTransactionReceipt ctx (Chain.tx_hash tx)) as [r|]; [|lia].
  destruct (d !! Chain.tx_hash tx) eqn:Hd.
  - rewrite map_size_insert_Some by eauto. lia.
  - rewrite map_size_insert_None by exact Hd. lia.
Qed.

Lemma collect_size (ctx : TaskContext) (completed : list Chain.Transaction) :
  forall d,
    (size (fold_left (collect_step ctx) completed d)
     <= size d + length (List.filter (fetched ctx) completed))%nat.
Proof.
  induction completed as [|tx rest IH]; intros d; cbn [fold_left List.filter]; [cbn; lia|].
  specialize (IH (collect_step ctx d tx)).
  pose proof (collect_step_size ctx d tx) as Hstep.
  destruct (fetched ctx tx); cbn [length]; lia.
Qed.

Lemma filter_length_lt {A} (f : A -> bool) (l : list A) (x : A) :
  In x l -> f x = false -> (length (List.filter f l) < length l)%nat.
Proof.
  induction l as [|y l IH]; intros Hin Hx; [destruct Hin|].
  cbn [List.filter length].
  pose proof (List.filter_length_le f l) as Hle.
  destruct Hin as [->|Hin].
  - rewrite Hx. lia.
  - specialize (IH Hin Hx). destruct (f y); cbn [length]; lia.
Qed.

(** A receipt that could not be fetched leaves the dictionary short. *)
Lemma collect_receipts_short (ctx : TaskContext) (txs : list Chain.Transaction)
    (tx : Chain.Transaction) :
  In tx txs -> getTransactionReceipt ctx (Chain.tx_hash tx) = None ->
  (size (collect_receipts ctx txs) < length txs)%nat.
Proof.
  intros Hin Hnone.
  pose proof (collect_size ctx txs ∅) as Hsize. rewrite map_size_empty in Hsize.
  assert (Hf : fetched ctx tx = false) by (unfold fetched; rewrite Hnone; reflexivity).
  pose proof (filter_length_lt (fetched ctx) txs tx Hin Hf).
  unfold collect_receipts. lia.
Qed.

Lemma collect_size_distinct (ctx : TaskContext) (txs : list Chain.Transaction) :
  forall d,
    List.NoDup (map Chain.tx_hash txs) ->
    (forall tx, In tx txs -> fetched ctx tx = true /\ d !! Chain.tx_hash tx = None) ->
    size (fold_left (collect_step ctx) txs d) = (size d + length txs)%nat.
Proof.
  induction txs as [|tx rest IH]; intros d Hnd Hall; cbn [fold_left length]; [lia|].
  cbn [map] in Hnd. apply NoDup_cons_iff in Hnd as [Hnotin Hnd].
  destruct (Hall tx (or_introl eq_refl)) as [Hf Hd].
  assert (Hstep : collect_step ctx d tx !! Chain.tx_hash tx <> None
                  /\ size (collect_step ctx d tx) = S (size d)).
  { unfold collect_step, fetch_tx_receipt. unfold fetched in Hf.
    destruct (getTransactionReceipt ctx (Chain.tx_hash tx)) as [r|]; [|discriminate].
    rewrite lookup_insert_eq, map_size_insert_None by exact Hd. split; [discriminate|reflexivity]. }
  rewrite IH; [lia|exact Hnd|].
  intros tx' Hin'. destruct (Hall tx' (or_intror Hin')) as [Hf' Hd']. split; [exact Hf'|].
  rewrite collect_step_lookup. unfold has_hash.
  destruct (String.eqb_spec (Chain.tx_hash tx) (Chain.tx_hash tx')) as [Heq|_]; [|exact Hd'].
  exfalso. apply Hnotin. rewrite Heq. apply in_map. exact Hin'.
Qed.

Lemma index_block_fetch_failure (ctx : TaskContext) (w : World) (block : Chain.t) (e : Error) :
  fetch_tx_receipts ctx (Chain.transactions block) = Raised e ->
  exists e', index_block ctx w block = (Raised e', w).
Proof.
  intros Hfetch. unfold index_block, index_block_session. rewrite Hfetch.
  destruct (current_blocks (blocks (committed w))) as [|c [|c2 rest]]; cbn; eauto.
Qed.

(** C7. When the dictionary of fetched receipts is not as long as the
    block's transaction list, which is the case as soon as one receipt
    cannot be fetched, [fetch_tx_receipts] raises and the block's unit of
    work ends with the committed store and the trace as they were.
    Otherwise it returns the dictionary, which maps the hash of every
    submitted transaction to its receipt; this is the outcome whenever all
    receipts can be fetched and the hashes are distinct. *)
Theorem fetch_tx_receipts_all_or_nothing (ctx : TaskContext) (w : World) (block : Chain.t) :
  let txs := Chain.transactions block in
  (size (collect_receipts ctx txs) <> length txs ->
   is_raised (fetch_tx_receipts ctx txs) = true
   /\ exists e, index_block ctx w block = (Raised e, w))
  /\ (forall tx, In tx txs -> getTransactionReceipt ctx (Chain.tx_hash tx) = None ->
                 size (collect_receipts ctx txs) <> length txs)
  /\ (size (collect_receipts ctx txs) = length txs ->
      fetch_tx_receipts ctx txs = Ok (collect_receipts ctx txs)
      /\ forall tx, In tx txs ->
                    exists r, getTransactionReceipt ctx (Chain.tx_hash tx) = Some r
                              /\ collect_receipts ctx txs !! Chain.tx_hash tx = Some r)
  /\ (List.NoDup (map Chain.tx_hash txs) ->
      (forall tx, In tx txs -> fetched ctx tx = true) ->
      size (collect_receipts ctx txs) = length txs).
Proof.
  intros txs. split; [|split; [|split]].
  - intros Hne.
    assert (Hraise : exists e, fetch_tx_receipts ctx txs = Raised e).
    { unfold fetch_tx_receipts.
      destruct (Nat.eqb_spec (size (collect_receipts ctx txs)) (length txs)); [contradiction|].
      cbn. eauto. }
    destruct Hraise as [e He]. split; [rewrite He; reflexivity|].
    apply (index_block_fetch_failure ctx w block e). exact He.
  - intros tx Hin Hnone.
    pose proof (collect_receipts_short ctx txs tx Hin Hnone). lia.
  - intros Heq. split.
    + unfold fetch_tx_receipts. rewrite Heq, Nat.eqb_refl. reflexivity.
    + intros tx Hin.
      destruct (getTransactionReceipt ctx (Chain.tx_hash tx)) as [r|] eqn:Hr.
      * exists r. split; [reflexivity|].
        rewrite collect_receipts_lookup, Hr.
        assert (Hex : existsb (has_hash (Chain.tx_hash tx)) txs = true).
        { apply existsb_exists. exists tx. split; [exact Hin|apply String.eqb_refl]. }
        rewrite Hex. reflexivity.
      * pose proof (collect_receipts_short ctx txs tx Hin Hr). lia.
  - intros Hnd Hall. unfold collect_receipts.
    rewrite collect_size_distinct, map_size_empty; [reflexivity|exact Hnd|].
    intros tx Hin. split; [apply Hall; exact Hin|apply lookup_empty].
Qed.

Lemma fetch_tx_receipts_all_or_nothing_witness :
  fetch_tx_receipts Example.social_ctx (Chain.transactions Example.B1)
  = Ok (collect_receipts Example.social_ctx (Chain.transactions Example.B1))
  /\ collect_receipts Example.social_ctx (Chain.transactions Example.B1) !! "0xf1"
     = Some {| transactionHash := "0xf1"; logs := [] |}.
Proof.
  destruct (fetch_tx_receipts_all_or_nothing Example.social_ctx Example.before_B1 Example.B1)
    as (_ & _ & Hok & Hsize).
  assert (Hlen : size (collect_receipts Example.social_ctx (Chain.transactions Example.B1))
                 = length (Chain.transactions Example.B1)).
  { apply Hsize.
    - repeat constructor. cbn. intuition.
    - intros tx _. reflexivity. }
  destruct (Hok Hlen) as [Hfetch Hcover]. split; [exact Hfetch|].
  destruct (Hcover {| Chain.tx_hash := "0xf1"; Chain.to := "0xc3" |}) as (r & Hr & Hd).
  - left. reflexivity.
  - cbn in Hr. injection Hr as <-. exact Hd.
Defined.

(** A receipt that cannot be fetched fails the block: nothing is committed
    and nothing is published. *)
Example missing_receipt_fails_block :
  let ctx := {| getBlock := Example.canonical;
                getTransactionReceipt := fun _ => None;
                contract_addresses := Example.addresses;
                user_state_update := Example.idle (0, []);
                track_state_update := Example.idle (0, []);
                social_feature_state_update := Example.unfollow;
                user_replica_set_state_update := Example.idle 0;
                playlist_state_update := Example.idle (0, []);
                user_library_state_update := Example.idle 0 |} in
  index_block ctx Example.before_B1 Example.B1
  = (Raised (Exception "index.py | fetch_tx_receipts Expected received"), Example.before_B1).
Proof. vm_compute. reflexivity. Qed.

(** ** Order of commit, cache invalidation and publication *)

Lemma index_block_raised (ctx : TaskContext) (w w' : World) (block : Chain.t) (e : Error) :
  index_block ctx w block = (Raised e, w') -> w' = w.
Proof.
  unfold index_block.
  destruct (index_block_session ctx (committed w) block) as [[db work]|e0]; intros H.
  - discriminate H.
  - injection H as _ <-. reflexivity.
Qed.

Lemma index_block_ok (ctx : TaskContext) (w w' : World) (block : Chain.t) :
  index_block ctx w block = (Ok tt, w') ->
  exists work,
    index_block_session ctx (committed w) block = Ok (committed w', work)
    /\ trace w' = trace w ++ block_events (committed w') work block.
Proof.
  unfold index_block.
  destruct (index_block_session ctx (committed w) block) as [[db work]|e0]; intros H.
  - injection H as <-. exists work. split; [reflexivity|].
    cbn. unfold block_events. rewrite <- !app_assoc. reflexivity.
  - discriminate H.
Qed.

Lemma effects_follow_commit_block (db : Db) (work : CacheWork) (block : Chain.t)
    (rest : list Event) (open : bool) :
  effects_follow_commit open (block_events db work block ++ rest)
  = effects_follow_commit false rest.
Proof.
  unfold block_events, cache_invalidations. cbn [app effects_follow_commit].
  destruct (user_state_changed work && nonempty (user_ids work)),
    (track_lexeme_state_changed work && nonempty (track_ids work)),
    (playlist_state_changed work && nonempty (playlist_ids work)); reflexivity.
Qed.

Lemma index_each_trace (ctx : TaskContext) (in_order : list Chain.t) :
  forall w, exists evs,
    trace (snd (index_each ctx w in_order)) = trace w ++ evs
    /\ effects_follow_commit false evs = true.
Proof.
  induction in_order as [|block rest IH]; intros w.
  - exists []. split; [symmetry; apply app_nil_r|reflexivity].
  - cbn [index_each].
    destruct (index_block ctx w block) as [[[]|e] w'] eqn:Hstep.
    + apply index_block_ok in Hstep as (work & _ & Htrace).
      destruct (IH w') as (evs & Hevs & Hscan).
      exists (block_events (committed w') work block ++ evs). split.
      * rewrite Hevs, Htrace, <- app_assoc. reflexivity.
      * rewrite effects_follow_commit_block. exact Hscan.
    + apply index_block_raised in Hstep as ->.
      exists []. split; [symmetry; apply app_nil_r|reflexivity].
Qed.

(** C8. A block whose unit of work raises adds nothing to the trace: no
    cache invalidation and no publication.  A block that is indexed adds
    its commit first, then the cache invalidations, then the publication of
    its number and hash, and the committed store then has that block as its
    current row.  Over the whole loop of [index_blocks], every cache
    invalidation and publication stands behind the commit of its block. *)
Theorem side_effects_follow_commit (ctx : TaskContext) (w : World) (block : Chain.t)
    (blocks_list : list Chain.t) :
  (forall e w', index_block ctx w block = (Raised e, w') -> w' = w)
  /\ (forall w', index_block ctx w block = (Ok tt, w') ->
        exists work,
          index_block_session ctx (committed w) block = Ok (committed w', work)
          /\ trace w' = trace w ++ Commit (committed w') :: cache_invalidations work
                        ++ [redis_set most_recent_indexed_block_redis_key
                                      (RInt (Chain.number block));
                            redis_set most_recent_indexed_block_hash_redis_key
                                      (RStr (Chain.hash block))]
          /\ current_blocks (blocks (committed w'))
             = [Block.mk (Chain.hash block) (Some (Chain.number block))
                         (Chain.parentHash block) true])
  /\ exists evs,
      trace (snd (index_blocks ctx w blocks_list)) = trace w ++ evs
      /\ effects_follow_commit false evs = true.
Proof.
  split; [|split].
  - intros e w'. apply index_block_raised.
  - intros w' Hok. apply index_block_ok in Hok as (work & Hs & Htrace).
    exists work. split; [exact Hs|]. split; [exact Htrace|].
    apply (index_block_session_one_current _ _ _ _ _ Hs).
  - apply index_each_trace.
Qed.

Lemma side_effects_follow_commit_witness :
  trace (snd (index_block Example.social_ctx Example.before_B1 Example.B1))
  = [Commit (committed (snd (index_block Example.social_ctx Example.before_B1 Example.B1)));
     redis_set most_recent_indexed_block_redis_key (RInt 11);
     redis_set most_recent_indexed_block_hash_redis_key (RStr "0xd1")].
Proof.
  destruct (side_effects_follow_commit Example.social_ctx Example.before_B1 Example.B1 [])
    as (_ & Hok & _).
  destruct (Hok (snd (index_block Example.social_ctx Example.before_B1 Example.B1)))
    as (work & Hs & Htrace & _).
  - vm_compute. reflexivity.
  - rewrite Htrace.
    assert (Hwork : cache_invalidations work = []).
    { vm_compute in Hs. injection Hs as <-. reflexivity. }
    rewrite Hwork. reflexivity.
Defined.

(** ** Aggregate maintenance *)

(** C9 as stated fails: a stored checkpoint of 0 that equals the number of
    the current block does not make [_update_aggregate_user] return at
    once; it truncates [aggregate_user] and runs the upsert query. *)
Lemma checkpoint_zero_is_not_skipped :
  get_last_indexed_checkpoint (Example.at_checkpoint 0 (Some 0)) AGGREGATE_USER = Some 0
  /\ get_latest_blocknumber (Example.at_checkpoint 0 (Some 0)) = Some 0
  /\ snd (_update_aggregate_user (Example.at_checkpoint 0 (Some 0)))
     = [TRUNCATE_TABLE AGGREGATE_USER; EXECUTE_UPDATE 0]
  /\ aggregate_user (fst (_update_aggregate_user (Example.at_checkpoint 0 (Some 0))))
       !! 1 = None
  /\ aggregate_user (Example.at_checkpoint 0 (Some 0)) !! 1 = Some Example.aggregate_row
  /\ _update_aggregate_user (Example.at_checkpoint 0 (Some 0))
     <> (Example.at_checkpoint 0 (Some 0), []).
Proof.
  repeat split; try (vm_compute; reflexivity).
  intros H. apply (f_equal snd) in H. vm_compute in H. discriminate H.
Qed.

(** C9, amended. When the checkpoint is present, is not 0 and equals the
    number of the current Block row, [_update_aggregate_user] executes no
    statement and returns the store as it was. *)
Theorem aggregate_up_to_date_is_noop (db : Db) (c : Z) :
  get_last_indexed_checkpoint db AGGREGATE_USER = Some c ->
  c <> 0 ->
  get_latest_blocknumber db = Some c ->
  _update_aggregate_user db = (db, []).
Proof.
  intros Hc Hnz Hlatest. unfold _update_aggregate_user.
  rewrite Hc, Hlatest. cbn [truthy].
  apply Z.eqb_neq in Hnz. rewrite Hnz. cbn [negb].
  rewrite bool_decide_eq_true_2 by reflexivity. reflexivity.
Qed.

Lemma aggregate_up_to_date_is_noop_witness :
  _update_aggregate_user (Example.at_checkpoint 100 (Some 100))
  = (Example.at_checkpoint 100 (Some 100), []).
Proof.
  apply (aggregate_up_to_date_is_noop (Example.at_checkpoint 100 (Some 100)) 100).
  - vm_compute. reflexivity.
  - lia.
  - reflexivity.
Defined.




(** The upsert recounts the changed user in full (scenario D). *)
Example recount_owner_of_two :
  UPDATE_AGGREGATE_USER_QUERY 10 Example.owner_of_two ∅ !! 7
  = Some {| track_count := 0; playlist_count := 1; album_count := 1; follower_count := 0;
            following_count := 0; repost_count := 0; track_save_count := 0 |}.
Proof. vm_compute. reflexivity. Qed.

(** ** The upsert query *)

Lemma upsert_fold_lookup (c : Z) (e : Entities) (l : list User) (user_id : Z) :
  forall tb : gmap Z AggregateUser,
    fold_left (fun tb u => <[Version.key u := recount c e (Version.key u)]> tb) l tb
      !! user_id
    = if existsb (fun u => Version.key u =? user_id) l
      then Some (recount c e user_id) else tb !! user_id.
Proof.
  induction l as [|u l IH]; intros tb; [reflexivity|].
  cbn [fold_left existsb]. rewrite IH.
  destruct (existsb (fun u0 => Version.key u0 =? user_id) l);
    [rewrite Bool.orb_true_r; reflexivity|].
  rewrite Bool.orb_false_r.
  destruct (Z.eqb_spec (Version.key u) user_id) as [->|Hne].
  - apply lookup_insert_eq.
  - apply lookup_insert_ne. exact Hne.
Qed.

Lemma existsb_filter {A} (f g : A -> bool) (l : list A) :
  existsb g (List.filter f l) = existsb (fun x => f x && g x) l.
Proof.
  induction l as [|x l IH]; [reflexivity|].
  cbn [List.filter existsb]. destruct (f x); cbn [existsb andb]; rewrite IH; reflexivity.
Qed.

Lemma existsb_current_changed (g : Z -> bool) (l : list User) (user_id : Z) :
  existsb (fun u : User => Version.is_current u && g (Version.key u)
                           && (Version.key u =? user_id)) l
  = existsb (fun u : User => Version.is_current u && (Version.key u =? user_id)) l
    && g user_id.
Proof.
  induction l as [|u l IH]; [reflexivity|].
  cbn [existsb]. rewrite IH.
  set (rest := existsb (fun u0 : User => Version.is_current u0
                                         && (Version.key u0 =? user_id)) l).
  destruct (Z.eqb_spec (Version.key u) user_id) as [->|Hne].
  - destruct (Version.is_current u), (g user_id), rest; reflexivity.
  - rewrite !Bool.andb_false_r. reflexivity.
Qed.

Lemma upsert_lookup (c : Z) (e : Entities) (tb : gmap Z AggregateUser) (user_id : Z) :
  UPDATE_AGGREGATE_USER_QUERY c e tb !! user_id
  = if is_current_user e user_id && in_changed_users c e user_id
    then Some (recount c e user_id)
    else tb !! user_id.
Proof.
  unfold UPDATE_AGGREGATE_USER_QUERY, is_current_user.
  rewrite upsert_fold_lookup, existsb_filter.
  rewrite (existsb_current_changed (in_changed_users c e)). reflexivity.
Qed.

Lemma filter_ext_in_length {A} (f g : A -> bool) (l : list A) :
  (forall x, In x l -> f x = g x) ->
  length (List.filter f l) = length (List.filter g l).
Proof.
  intros Hfg. rewrite (List.filter_ext_in f g l Hfg). reflexivity.
Qed.

Lemma existsb_in_map {A} (f : A -> Z) (l : list A) (x : A) (z : Z) :
  In x l -> f x = z -> existsb (Z.eqb z) (map f l) = true.
Proof.
  intros Hin Hf. apply existsb_exists. exists z. split; [|apply Z.eqb_refl].
  rewrite <- Hf. apply in_map. exact Hin.
Qed.

(** For a user among the changed ones the restriction of the seven
    subqueries to the changed users leaves out no row of that user. *)
Lemma recount_is_full_count (c : Z) (e : Entities) (user_id : Z) :
  in_changed_users c e user_id = true ->
  recount c e user_id = full_count e user_id.
Proof.
  intros Hin. unfold recount, full_count, count_where.
  f_equal; f_equal; apply filter_ext_in_length; intros x _;
    match goal with
    | |- context [(?y =? user_id)] =>
      destruct (Z.eqb_spec y user_id) as [->|_];
        [rewrite Hin, ?Bool.andb_true_r; reflexivity
        |rewrite !Bool.andb_false_r; reflexivity]
    end.
Qed.

(** X1. The upsert overwrites the row of every user that has a current row
    in [users] and is among the changed ones with the full counts of that
    user, whatever was stored, and leaves every other row of
    [aggregate_user] as it was. *)
Theorem upsert_recounts_changed_users (c : Z) (e : Entities)
    (tb : gmap Z AggregateUser) (user_id : Z) :
  (is_current_user e user_id && in_changed_users c e user_id = true ->
   UPDATE_AGGREGATE_USER_QUERY c e tb !! user_id = Some (full_count e user_id))
  /\ (is_current_user e user_id && in_changed_users c e user_id = false ->
      UPDATE_AGGREGATE_USER_QUERY c e tb !! user_id = tb !! user_id).
Proof.
  rewrite upsert_lookup. split; intros Hc; rewrite Hc; [|reflexivity].
  apply andb_prop in Hc as [_ Hin]. rewrite (recount_is_full_count c e user_id Hin).
  reflexivity.
Qed.

Lemma upsert_recounts_changed_users_witness :
  UPDATE_AGGREGATE_USER_QUERY 10 Example.owner_of_two {[ 7 := Example.aggregate_row ]} !! 7
  = Some (full_count Example.owner_of_two 7)
  /\ UPDATE_AGGREGATE_USER_QUERY 10 Example.owner_of_two {[ 1 := Example.aggregate_row ]} !! 1
     = Some Example.aggregate_row.
Proof.
  split.
  - apply (upsert_recounts_changed_users 10 Example.owner_of_two). reflexivity.
  - rewrite (proj2 (upsert_recounts_changed_users 10 Example.owner_of_two
                      {[ 1 := Example.aggregate_row ]} 1)) by reflexivity.
    reflexivity.
Defined.

Lemma filter_none {A} (f : A -> bool) (l : list A) :
  (forall x, In x l -> f x = false) -> List.filter f l = [].
Proof.
  induction l as [|x l IH]; intros Hf; [reflexivity|].
  cbn [List.filter]. rewrite (Hf x) by (left; reflexivity).
  apply IH. intros y Hy. apply Hf. right. exact Hy.
Qed.

Lemma not_newer {K P} (c : Z) (r : Version.t K P) :
  (Version.is_current r = true -> Version.blocknumber r <= c) -> newer c r = false.
Proof.
  unfold newer. intros H. destruct (Version.is_current r); [|reflexivity].
  apply Z.ltb_ge. apply H. reflexivity.
Qed.

Lemma nothing_newer_no_changed_users (c : Z) (e : Entities) :
  nothing_newer c e -> changed_users c e = [].
Proof.
  intros (Hu & Ht & Hp & Hf & Hr & Hs). unfold changed_users.
  rewrite (filter_none (newer c) (users e)) by (intros; apply not_newer; auto).
  rewrite (filter_none (newer c) (tracks e)) by (intros; apply not_newer; auto).
  rewrite (filter_none (newer c) (follows e)) by (intros; apply not_newer; auto).
  rewrite (filter_none (newer c) (reposts e)) by (intros; apply not_newer; auto).
  rewrite (filter_none _ (playlists e))
    by (intros x Hx; rewrite (not_newer c x) by auto; apply Bool.andb_false_r).
  rewrite (filter_none _ (playlists e))
    by (intros x Hx; rewrite (not_newer c x) by auto; apply Bool.andb_false_r).
  rewrite (filter_none _ (saves e)); [reflexivity|].
  intros s Hin. destruct (Version.is_current s) eqn:Hc; [|reflexivity].
  destruct (bool_decide_reflect (snd (Version.key s) = track)) as [Ht'|_]; [|reflexivity].
  cbn [andb]. apply Z.ltb_ge. apply Hs; assumption.
Qed.

(** X2. When no current row of the six kinds has a [blocknumber] above the
    lower bound, the upsert changes nothing in [aggregate_user]. *)
Theorem upsert_without_news_is_identity (c : Z) (e : Entities) (tb : gmap Z AggregateUser) :
  nothing_newer c e -> UPDATE_AGGREGATE_USER_QUERY c e tb = tb.
Proof.
  intros Hnone. apply map_eq. intros user_id. rewrite upsert_lookup.
  unfold in_changed_users. rewrite (nothing_newer_no_changed_users c e Hnone).
  cbn [existsb]. rewrite Bool.andb_false_r. reflexivity.
Qed.

Lemma upsert_without_news_is_identity_witness :
  UPDATE_AGGREGATE_USER_QUERY 11 Example.owner_of_two {[ 7 := Example.aggregate_row ]}
  = {[ 7 := Example.aggregate_row ]}.
Proof.
  apply (upsert_without_news_is_identity 11 Example.owner_of_two).
  unfold nothing_newer. cbn.
  repeat split; intros x Hx; repeat (destruct Hx as [<-|Hx]); try destruct Hx;
    cbn; intros; first [lia | discriminate].
Defined.

(** X3. Running the upsert a second time with the same lower bound on the
    same entity tables changes nothing more. *)
Theorem upsert_idempotent (c : Z) (e : Entities) (tb : gmap Z AggregateUser) :
  UPDATE_AGGREGATE_USER_QUERY c e (UPDATE_AGGREGATE_USER_QUERY c e tb)
  = UPDATE_AGGREGATE_USER_QUERY c e tb.
Proof.
  apply map_eq. intros user_id. rewrite !upsert_lookup.
  destruct (is_current_user e user_id && in_changed_users c e user_id); reflexivity.
Qed.

(** ** The aggregate job as a whole *)

Lemma run_update_sources (c : Z) (latest : option Z) (db : Db) (log : list Statement) :
  blocks (fst (run_update c latest db log)) = blocks db
  /\ entities (fst (run_update c latest db log)) = entities db
  /\ aggregate_user (fst (run_update c latest db log))
     = UPDATE_AGGREGATE_USER_QUERY c (entities db) (aggregate_user db)
  /\ indexing_checkpoints (fst (run_update c latest db log))
     = if truthy latest
       then match latest with
            | Some n => <[AGGREGATE_USER := n]> (indexing_checkpoints db)
            | None => indexing_checkpoints db
            end
       else indexing_checkpoints db.
Proof.
  unfold run_update. destruct latest as [n|]; [|repeat split].
  destruct (truthy (Some n)); repeat split.
Qed.

Lemma update_keeps_blocks (db : Db) :
  blocks (fst (_update_aggregate_user db)) = blocks db.
Proof.
  unfold _update_aggregate_user.
  destruct (negb (truthy (get_last_indexed_checkpoint db AGGREGATE_USER))).
  - apply (run_update_sources 0 _ (with_aggregate_user ∅ db)).
  - destruct (bool_decide _); [reflexivity|].
    destruct (get_last_indexed_checkpoint db AGGREGATE_USER) as [c|]; [|reflexivity].
    apply (run_update_sources c _ db).
Qed.

(** [_update_aggregate_user] reads the [blocks] table and the six entity
    tables but never writes them. *)
Theorem aggregate_job_leaves_sources (db : Db) :
  blocks (fst (_update_aggregate_user db)) = blocks db
  /\ entities (fst (_update_aggregate_user db)) = entities db.
Proof.
  unfold _update_aggregate_user.
  destruct (negb (truthy (get_last_indexed_checkpoint db AGGREGATE_USER))).
  - destruct (run_update_sources 0 (get_latest_blocknumber db) (with_aggregate_user ∅ db)
                [TRUNCATE_TABLE AGGREGATE_USER]) as (Hb & He & _).
    rewrite Hb, He. split; reflexivity.
  - destruct (bool_decide _); [split; reflexivity|].
    destruct (get_last_indexed_checkpoint db AGGREGATE_USER) as [c|]; [|split; reflexivity].
    destruct (run_update_sources c (get_latest_blocknumber db) db []) as (Hb & He & _).
    rewrite Hb, He. split; reflexivity.
Qed.

(** X4. When the current block has a number that is not 0, a run of
    [_update_aggregate_user] leaves the checkpoint at that number, and a
    second run right after it executes no statement and changes nothing. *)
Theorem aggregate_job_settles (db : Db) (n : Z) :
  get_latest_blocknumber db = Some n ->
  n <> 0 ->
  get_last_indexed_checkpoint (fst (_update_aggregate_user db)) AGGREGATE_USER = Some n
  /\ _update_aggregate_user (fst (_update_aggregate_user db))
     = (fst (_update_aggregate_user db), []).
Proof.
  intros Hlatest Hn.
  assert (Hcp : get_last_indexed_checkpoint (fst (_update_aggregate_user db)) AGGREGATE_USER
                = Some n).
  { unfold _update_aggregate_user, get_last_indexed_checkpoint. rewrite Hlatest.
    assert (Htruthy : truthy (Some n) = true)
      by (cbn; apply Bool.negb_true_iff, Z.eqb_neq; exact Hn).
    destruct (negb (truthy (indexing_checkpoints db !! AGGREGATE_USER))) eqn:Hfalsy.
    - destruct (run_update_sources 0 (Some n) (with_aggregate_user ∅ db)
                  [TRUNCATE_TABLE AGGREGATE_USER]) as (_ & _ & _ & Hc).
      rewrite Hc, Htruthy. apply lookup_insert_eq.
    - destruct (bool_decide_reflect (Some n = indexing_checkpoints db !! AGGREGATE_USER))
        as [Heq|Hne]; [symmetry; exact Heq|].
      destruct (indexing_checkpoints db !! AGGREGATE_USER) as [c|] eqn:Hc0;
        [|discriminate Hfalsy].
      destruct (run_update_sources c (Some n) db []) as (_ & _ & _ & Hc).
      rewrite Hc, Htruthy. apply lookup_insert_eq. }
  split; [exact Hcp|].
  assert (Hlatest' : get_latest_blocknumber (fst (_update_aggregate_user db)) = Some n).
  { unfold get_latest_blocknumber in *. rewrite update_keeps_blocks. exact Hlatest. }
  generalize dependent (fst (_update_aggregate_user db)). intros db' Hcp Hlatest'.
  unfold _update_aggregate_user. rewrite Hcp, Hlatest'. cbn [truthy].
  apply Z.eqb_neq in Hn. rewrite Hn. cbn [negb].
  rewrite bool_decide_eq_true_2 by reflexivity. reflexivity.
Qed.

Lemma aggregate_job_settles_witness :
  get_last_indexed_checkpoint
    (fst (_update_aggregate_user (Example.at_checkpoint 7 (Some 100)))) AGGREGATE_USER
  = Some 100
  /\ _update_aggregate_user (fst (_update_aggregate_user (Example.at_checkpoint 7 (Some 100))))
     = (fst (_update_aggregate_user (Example.at_checkpoint 7 (Some 100))), []).
Proof.
  apply (aggregate_job_settles (Example.at_checkpoint 7 (Some 100)) 100).
  - reflexivity.
  - lia.
Defined.

Lemma upsert_full_lookup (c : Z) (e : Entities) (tb : gmap Z AggregateUser) (user_id : Z) :
  UPDATE_AGGREGATE_USER_QUERY c e tb !! user_id
  = if is_current_user e user_id && in_changed_users c e user_id
    then Some (full_count e user_id)
    else tb !! user_id.
Proof.
  rewrite upsert_lookup.
  destruct (is_current_user e user_id); [|reflexivity].
  destruct (in_changed_users c e user_id) eqn:Hin; [|reflexivity].
  cbn [andb]. rewrite (recount_is_full_count c e user_id Hin). reflexivity.
Qed.

(** X5. What a run leaves in [aggregate_user].  Without a checkpoint (absent
    or 0) the table is rebuilt: a user has a row exactly when the user is
    current and has a current row above blocknumber 0, and the row holds
    the full counts.  With a checkpoint [c] that differs from the number of
    the current block the run is incremental: users changed since [c] get
    their full counts and every other row is kept. *)
Theorem aggregate_job_rows (db : Db) (user_id : Z) :
  (truthy (get_last_indexed_checkpoint db AGGREGATE_USER) = false ->
   aggregate_user (fst (_update_aggregate_user db)) !! user_id
   = if is_current_user (entities db) user_id && in_changed_users 0 (entities db) user_id
     then Some (full_count (entities db) user_id)
     else None)
  /\ (forall c,
         get_last_indexed_checkpoint db AGGREGATE_USER = Some c ->
         c <> 0 ->
         get_latest_blocknumber db <> Some c ->
         aggregate_user (fst (_update_aggregate_user db)) !! user_id
         = if is_current_user (entities db) user_id
              && in_changed_users c (entities db) user_id
           then Some (full_count (entities db) user_id)
           else aggregate_user db !! user_id).
Proof.
  split.
  - intros Hfalsy. unfold _update_aggregate_user. rewrite Hfalsy. cbn [negb].
    destruct (run_update_sources 0 (get_latest_blocknumber db) (with_aggregate_user ∅ db)
                [TRUNCATE_TABLE AGGREGATE_USER]) as (_ & _ & Ha & _).
    rewrite Ha, upsert_full_lookup. cbn [with_aggregate_user entities aggregate_user].
    rewrite lookup_empty. reflexivity.
  - intros c Hc Hnz Hlatest. unfold _update_aggregate_user. rewrite Hc. cbn [truthy].
    apply Z.eqb_neq in Hnz. rewrite Hnz. cbn [negb].
    rewrite bool_decide_eq_false_2 by exact Hlatest.
    destruct (run_update_sources c (get_latest_blocknumber db) db []) as (_ & _ & Ha & _).
    rewrite Ha, upsert_full_lookup. reflexivity.
Qed.

Lemma aggregate_job_rows_witness :
  aggregate_user (fst (_update_aggregate_user (Example.at_checkpoint 7 (Some 100)))) !! 1
  = Some Example.aggregate_row
  /\ aggregate_user (fst (_update_aggregate_user (Example.at_checkpoint 0 (Some 100)))) !! 1
     = None.
Proof.
  split.
  - rewrite (proj2 (aggregate_job_rows (Example.at_checkpoint 7 (Some 100)) 1) 7);
      [reflexivity | reflexivity | lia | discriminate].
  - rewrite (proj1 (aggregate_job_rows (Example.at_checkpoint 0 (Some 100)) 1));
      reflexivity.
Defined.

(** ** What a revert deletes and what it keeps *)

Section RevertLoop.
Context {K P : Type} `{EqDecision K}.

Lemma kept_refl (l : @Loaded K P) : Forall2 kept l l.
Proof. induction l; constructor; [split; auto|assumption]. Qed.

Lemma kept_set_current_at (i : nat) (a l : @Loaded K P) :
  Forall2 kept a l -> Forall2 kept a (set_current_at i l).
Proof.
  induction 1 as [|x x' a l [Hid Hrow] _ IH]; [constructor|].
  cbn [set_current_at map]. constructor; [|exact IH].
  destruct (Nat.eqb (fst x') i); [|split; assumption].
  split; [exact Hid|]. right. cbn [snd].
  destruct Hrow as [->| ->]; reflexivity.
Qed.

Lemma kept_delete_at (i : nat) (a l : @Loaded K P) :
  Forall2 kept a l -> Forall2 kept (delete_at i a) (delete_at i l).
Proof.
  induction 1 as [|x x' a l [Hid Hrow] _ IH]; [constructor|].
  unfold delete_at in *. cbn [List.filter]. rewrite Hid.
  destruct (negb (Nat.eqb (fst x) i)); [constructor; [split; assumption|]|]; exact IH.
Qed.

Lemma delete_at_not_among (i : nat) (deleted : list nat) (l0 : @Loaded K P) :
  delete_at i (List.filter (not_among deleted) l0)
  = List.filter (not_among (i :: deleted)) l0.
Proof.
  unfold delete_at. induction l0 as [|x l0 IH]; [reflexivity|].
  cbn [List.filter]. unfold not_among in *. cbn [existsb].
  destruct (existsb (Nat.eqb (fst x)) deleted) eqn:Hd; cbn [negb].
  - rewrite Bool.orb_true_r. cbn [negb]. exact IH.
  - cbn [List.filter]. rewrite Bool.orb_false_r.
    destruct (Nat.eqb (fst x) i); cbn [negb]; rewrite IH; reflexivity.
Qed.

Lemma kept_restore_and_delete (previous_entry : option (nat * Version.t K P))
    (to_revert : nat * Version.t K P) (deleted : list nat) (l0 l : @Loaded K P) :
  Forall2 kept (List.filter (not_among deleted) l0) l ->
  Forall2 kept (List.filter (not_among (fst to_revert :: deleted)) l0)
          (restore_and_delete previous_entry to_revert l).
Proof.
  intros Hl. unfold restore_and_delete. rewrite <- delete_at_not_among.
  apply kept_delete_at. destruct previous_entry; [apply kept_set_current_at|]; exact Hl.
Qed.

Lemma kept_loop (step : @Loaded K P -> nat * Version.t K P -> @Loaded K P)
    (l0 : @Loaded K P) :
  (forall l x, exists previous_entry, step l x = restore_and_delete previous_entry x l) ->
  forall (entries : @Loaded K P) (deleted : list nat) (l : @Loaded K P),
    Forall2 kept (List.filter (not_among deleted) l0) l ->
    Forall2 kept (List.filter (not_among (rev (map fst entries) ++ deleted)) l0)
            (fold_left step entries l).
Proof.
  intros Hstep. induction entries as [|x entries IH]; intros deleted l Hl; [exact Hl|].
  cbn [fold_left map rev]. rewrite <- app_assoc. cbn [app].
  apply IH. destruct (Hstep l x) as [p ->]. apply kept_restore_and_delete. exact Hl.
Qed.

Lemma combine_seq_fst (tb : list (Version.t K P)) :
  forall s, map fst (combine (seq s (length tb)) tb) = seq s (length tb).
Proof.
  induction tb as [|r tb IH]; intros s; [reflexivity|].
  cbn. rewrite IH. reflexivity.
Qed.

Lemma combine_seq_snd (tb : list (Version.t K P)) :
  forall s, map snd (combine (seq s (length tb)) tb) = tb.
Proof.
  induction tb as [|r tb IH]; intros s; [reflexivity|].
  cbn. rewrite IH. reflexivity.
Qed.

Lemma load_ids (tb : list (Version.t K P)) : map fst (load tb) = seq 0 (length tb).
Proof. apply combine_seq_fst. Qed.

Lemma load_rows (tb : list (Version.t K P)) : map snd (load tb) = tb.
Proof. apply combine_seq_snd. Qed.

Lemma same_id_same_row (l : @Loaded K P) (x y : nat * Version.t K P) :
  List.NoDup (map fst l) -> In x l -> In y l -> fst x = fst y -> x = y.
Proof.
  induction l as [|z l IH]; intros Hnd Hx Hy Heq; [destruct Hx|].
  cbn [map] in Hnd. apply NoDup_cons_iff in Hnd as [Hnotin Hnd].
  destruct Hx as [<-|Hx], Hy as [<-|Hy].
  - reflexivity.
  - exfalso. apply Hnotin. rewrite Heq. apply in_map. exact Hy.
  - exfalso. apply Hnotin. rewrite <- Heq. apply in_map. exact Hx.
  - apply IH; assumption.
Qed.

(** Once every entry of the block is deleted, the rows left are those of
    the other blocks. *)
Lemma not_among_entries (h : string) (tb : list (Version.t K P)) :
  List.filter (not_among (rev (map fst (entries_to_revert h (load tb))) ++ [])) (load tb)
  = List.filter (fun x => negb (String.eqb (Version.blockhash (snd x)) h)) (load tb).
Proof.
  apply List.filter_ext_in. intros x Hx. unfold not_among. f_equal.
  rewrite app_nil_r.
  apply Bool.eq_iff_eq_true. rewrite existsb_exists. split.
  - intros (i & Hi & Heq). apply Nat.eqb_eq in Heq. subst i.
    apply in_rev, in_map_iff in Hi as (y & Hy & Hin).
    unfold entries_to_revert in Hin. apply filter_In in Hin as [Hin Hh].
    assert (y = x); [|subst y; exact Hh].
    apply (same_id_same_row (load tb)); try assumption.
    rewrite load_ids. apply seq_NoDup.
  - intros Hh. exists (fst x). split; [|apply Nat.eqb_refl].
    apply in_rev. rewrite rev_involutive. apply in_map.
    apply filter_In. split; assumption.
Qed.

Lemma filter_snd (f : Version.t K P -> bool) (l : @Loaded K P) :
  map snd (List.filter (fun x => f (snd x)) l) = List.filter f (map snd l).
Proof.
  induction l as [|x l IH]; [reflexivity|].
  cbn [List.filter map]. destruct (f (snd x)); cbn [map]; rewrite IH; reflexivity.
Qed.

Lemma kept_raised (a l : @Loaded K P) :
  Forall2 kept a l -> raised (map snd a) (map snd l).
Proof.
  unfold raised. induction 1 as [|x x' a l [_ Hrow] _ IH]; constructor; assumption.
Qed.

Lemma revert_loop_raised (step : @Loaded K P -> nat * Version.t K P -> @Loaded K P)
    (h : string) (tb : list (Version.t K P)) :
  (forall l x, exists previous_entry, step l x = restore_and_delete previous_entry x l) ->
  raised (other_blocks h tb)
         (store (fold_left step (entries_to_revert h (load tb)) (load tb))).
Proof.
  intros Hstep.
  pose proof (kept_loop step (load tb) Hstep (entries_to_revert h (load tb)) []
                (load tb)) as Hloop.
  cbn [not_among existsb] in Hloop.
  assert (Hstart : Forall2 kept (List.filter (not_among []) (load tb)) (load tb)).
  { unfold not_among. cbn [existsb negb]. rewrite filter_true. apply kept_refl. }
  specialize (Hloop Hstart). rewrite not_among_entries in Hloop.
  apply kept_raised in Hloop.
  rewrite (filter_snd (fun r => negb (String.eqb (Version.blockhash r) h))) in Hloop.
  rewrite load_rows in Hloop. exact Hloop.
Qed.

Lemma revert_by_key_raised (h : string) (tb : list (Version.t K P)) :
  raised (other_blocks h tb) (revert_by_key h tb).
Proof.
  apply revert_loop_raised. intros l x. eexists. reflexivity.
Qed.

Lemma revert_below_raised (h : string) (n : option Z) (tb : list (Version.t K P)) :
  raised (other_blocks h tb) (revert_below h n tb).
Proof.
  apply (revert_loop_raised (revert_entry_below n)). intros l x. eexists. reflexivity.
Qed.
End RevertLoop.

Lemma delete_block_flags (h : string) (bs : list Block.t) :
  map (Block.set_is_current false) (delete_block h bs)
  = delete_block h (map (Block.set_is_current false) bs).
Proof.
  unfold delete_block. induction bs as [|b bs IH]; [reflexivity|].
  cbn [List.filter map Block.set_is_current Block.blockhash].
  destruct (negb (String.eqb (Block.blockhash b) h)); cbn [map]; rewrite IH; reflexivity.
Qed.

Lemma update_is_current_flags (h : string) (v : bool) (bs : list Block.t) :
  map (Block.set_is_current false) (update_is_current h v bs)
  = map (Block.set_is_current false) bs.
Proof.
  unfold update_is_current. rewrite map_map. apply map_ext.
  intros b. destruct (String.eqb (Block.blockhash b) h); reflexivity.
Qed.

(** X6. Reverting a block deletes, in each of the six tables, exactly the
    rows stamped with the block's hash: the rows of the other blocks stay, in
    their order, and the only change to them is that [is_current] may have
    gone from false to true; no flag is cleared.  Of the [blocks] table it
    deletes the rows with the block's hash and changes nothing but
    [is_current] in the others. *)
Theorem revert_block_keeps_other_blocks (db : Db) (revert_block_row : Block.t) :
  entities_raised
    (entities_of_other_blocks (Block.blockhash revert_block_row) (entities db))
    (entities (revert_block db revert_block_row))
  /\ map (Block.set_is_current false) (blocks (revert_block db revert_block_row))
     = map (Block.set_is_current false)
           (delete_block (Block.blockhash revert_block_row) (blocks db)).
Proof.
  split.
  - unfold entities_raised, entities_of_other_blocks, revert_block.
    cbn [with_entities with_blocks entities saves reposts follows playlists tracks users].
    repeat split; first [apply revert_by_key_raised | apply revert_below_raised].
  - unfold revert_block. cbn [with_entities with_blocks blocks].
    rewrite !delete_block_flags, !update_is_current_flags. reflexivity.
Qed.

(** ** The version a bounded revert restores *)

Section RestorePredecessor.
Context {K P : Type} `{EqDecision K}.

Lemma kept_candidate (n : Z) (k : K) (x x' : nat * Version.t K P) :
  kept x x' -> candidate n k x' = candidate n k x.
Proof.
  intros [_ Hrow]. unfold candidate, same_key, below.
  destruct Hrow as [-> | ->]; reflexivity.
Qed.

Lemma kept_filter (f : nat * Version.t K P -> bool) (a l : @Loaded K P) :
  (forall x x', kept x x' -> f x' = f x) ->
  Forall2 kept a l -> Forall2 kept (List.filter f a) (List.filter f l).
Proof.
  intros Hf. induction 1 as [|x x' a l Hk _ IH]; [constructor|].
  cbn [List.filter]. rewrite (Hf x x' Hk).
  destruct (f x); [constructor; assumption|exact IH].
Qed.

Lemma kept_first (a l : @Loaded K P) :
  Forall2 kept a l ->
  match first_by_blocknumber_desc a, first_by_blocknumber_desc l with
  | Some x, Some x' => kept x x'
  | None, None => True
  | _, _ => False
  end.
Proof.
  induction 1 as [|x x' a l Hk _ IH]; [exact I|].
  cbn [first_by_blocknumber_desc].
  destruct (first_by_blocknumber_desc a) as [y|], (first_by_blocknumber_desc l) as [y'|];
    try contradiction; [|exact Hk].
  assert (Hbn : forall z z' : nat * Version.t K P,
             kept z z' -> Version.blocknumber (snd z') = Version.blocknumber (snd z)).
  { intros z z' [_ [-> | ->]]; reflexivity. }
  rewrite (Hbn x x' Hk), (Hbn y y' IH).
  destruct (Version.blocknumber (snd y) <=? Version.blocknumber (snd x)); assumption.
Qed.

Lemma filter_absorb {A} (f g : A -> bool) (l : list A) :
  (forall x, In x l -> f x = true -> g x = true) ->
  List.filter f (List.filter g l) = List.filter f l.
Proof.
  induction l as [|x l IH]; intros Hfg; [reflexivity|].
  cbn [List.filter].
  assert (IH' : List.filter f (List.filter g l) = List.filter f l)
    by (apply IH; intros y Hy; apply Hfg; right; exact Hy).
  destruct (g x) eqn:Hg; cbn [List.filter].
  - rewrite IH'. reflexivity.
  - destruct (f x) eqn:Hfx; [|exact IH'].
    rewrite (Hfg x (or_introl eq_refl) Hfx) in Hg. discriminate Hg.
Qed.

Lemma set_current_at_has (i j : nat) (x : Version.t K P) (l : @Loaded K P) :
  In (i, Version.set_is_current true x) l ->
  In (i, Version.set_is_current true x) (set_current_at j l).
Proof.
  intros Hin. unfold set_current_at. apply in_map_iff.
  exists (i, Version.set_is_current true x). split; [|exact Hin].
  cbn [fst snd]. destruct (Nat.eqb i j); reflexivity.
Qed.

Lemma delete_at_has (i j : nat) (y : Version.t K P) (l : @Loaded K P) :
  i <> j -> In (i, y) l -> In (i, y) (delete_at j l).
Proof.
  intros Hne Hin. unfold delete_at. apply filter_In. split; [exact Hin|].
  cbn [fst]. apply Bool.negb_true_iff, Nat.eqb_neq. exact Hne.
Qed.

Lemma loop_has (n : Z) (i : nat) (x : Version.t K P) (entries : @Loaded K P) :
  (forall e, In e entries -> fst e <> i) ->
  forall l, In (i, Version.set_is_current true x) l ->
            In (i, Version.set_is_current true x)
               (fold_left (revert_entry_below (Some n)) entries l).
Proof.
  induction entries as [|e entries IH]; intros Hids l Hin; [exact Hin|].
  cbn [fold_left]. apply IH; [intros e' He'; apply Hids; right; exact He'|].
  unfold revert_entry_below, restore_and_delete.
  apply delete_at_has; [intros Heq; apply (Hids e (or_introl eq_refl)); auto|].
  destruct (first_by_blocknumber_desc _); [apply set_current_at_has|]; exact Hin.
Qed.

Variable h : string.
Variable n : Z.
Variable tb : list (Version.t K P).
(** The rows stamped with the block carry a [blocknumber] that is not below
    the block's number. *)
Hypothesis Hstamped :
  forall y, In y tb -> Version.blockhash y = h -> n <= Version.blocknumber y.

Lemma candidate_not_entry (k : K) (x : nat * Version.t K P) :
  In x (load tb) -> candidate n k x = true ->
  forall e, In e (entries_to_revert h (load tb)) -> fst e <> fst x.
Proof.
  intros Hx Hc e He Heq. unfold entries_to_revert in He.
  apply filter_In in He as [He Hh]. apply String.eqb_eq in Hh.
  assert (e = x).
  { apply (same_id_same_row (load tb)); try assumption.
    rewrite load_ids. apply seq_NoDup. }
  subst e. apply andb_prop in Hc as [_ Hb]. unfold below in Hb. apply Z.ltb_lt in Hb.
  assert (Hrow : In (snd x) tb) by (rewrite <- (load_rows tb); apply in_map; exact Hx).
  specialize (Hstamped (snd x) Hrow Hh). lia.
Qed.

Lemma loop_restores (k : K) (i : nat) (x : Version.t K P)
    (before after : @Loaded K P) (to_revert : nat * Version.t K P) :
  entries_to_revert h (load tb) = before ++ to_revert :: after ->
  Version.key (snd to_revert) = k ->
  first_by_blocknumber_desc (List.filter (candidate n k) (load tb)) = Some (i, x) ->
  In (i, Version.set_is_current true x)
     (fold_left (revert_entry_below (Some n)) (entries_to_revert h (load tb)) (load tb)).
Proof.
  intros Hsplit Hk Hfirst.
  assert (Hsel : In (i, x) (load tb) /\ candidate n k (i, x) = true).
  { pose proof (first_by_blocknumber_desc_greatest
                  (List.filter (candidate n k) (load tb))) as Hspec.
    rewrite Hfirst in Hspec. destruct Hspec as [Hin _].
    apply filter_In in Hin. exact Hin. }
  destruct Hsel as [Hin Hcand].
  pose proof (candidate_not_entry k (i, x) Hin Hcand) as Hfresh. cbn [fst] in Hfresh.
  rewrite Hsplit in *. rewrite fold_left_app. cbn [fold_left].
  apply loop_has.
  { intros e He. apply Hfresh. apply in_or_app. right. right. exact He. }
  pose proof (kept_loop (revert_entry_below (Some n)) (load tb)
                (fun l y => ex_intro _ _ eq_refl) before [] (load tb)) as Hloop.
  assert (Hstart : Forall2 kept (List.filter (not_among []) (load tb)) (load tb)).
  { unfold not_among. cbn [existsb negb]. rewrite filter_true. apply kept_refl. }
  specialize (Hloop Hstart).
  set (l1 := fold_left (revert_entry_below (Some n)) before (load tb)) in *.
  pose proof (kept_filter (candidate n k) _ _ (kept_candidate n k) Hloop) as Hc.
  rewrite filter_absorb in Hc.
  2:{ intros y Hy Hyc. unfold not_among. apply Bool.negb_true_iff.
      apply Bool.not_true_iff_false. intros Hex. apply existsb_exists in Hex as (j & Hj & Hjy).
      apply Nat.eqb_eq in Hjy. subst j. rewrite app_nil_r in Hj.
      apply in_rev, in_map_iff in Hj as (e & He & Hine).
      apply (candidate_not_entry k y Hy Hyc e); [|exact He].
      rewrite Hsplit. apply in_or_app. left. exact Hine. }
  apply kept_first in Hc. rewrite Hfirst in Hc.
  unfold revert_entry_below, restore_and_delete. rewrite Hk.
  change (fun x0 : nat * Version.t K P => same_key k x0 && below (Some n) x0)
    with (@candidate K P _ n k).
  destruct (first_by_blocknumber_desc (List.filter (candidate n k) l1)) as [x'|] eqn:Hx';
    [|contradiction].
  destruct x' as [i' x']. destruct Hc as [Hid Hrow]. cbn [fst snd] in Hid, Hrow. subst i'.
  apply delete_at_has.
  { intros Heq. apply (Hfresh to_revert); [|auto].
    apply in_or_app. right. left. reflexivity. }
  assert (Hin1 : In (i, x') l1).
  { pose proof (first_by_blocknumber_desc_greatest (List.filter (candidate n k) l1)) as Hs.
    rewrite Hx' in Hs. destruct Hs as [Hs _]. apply filter_In in Hs as [Hs _]. exact Hs. }
  unfold set_current_at. apply in_map_iff. exists (i, x'). split; [|exact Hin1].
  cbn [fst snd]. rewrite Nat.eqb_refl. f_equal.
  destruct Hrow as [-> | ->]; reflexivity.
Qed.

Lemma loaded_row (r : Version.t K P) :
  In r tb -> exists j, In (j, r) (load tb).
Proof.
  intros Hin. rewrite <- (load_rows tb) in Hin.
  apply in_map_iff in Hin as ([j r'] & Heq & Hin). cbn [snd] in Heq. subst r'.
  exists j. exact Hin.
Qed.

(** X7. In the loops over playlists, tracks and users: when the reverted
    block stamped a version of a business id, and [x] is the version of that
    id whose [blocknumber] is the greatest below the block's number (no
    other version below it reaches that [blocknumber]), then [x] is current
    after the revert. *)
Theorem revert_below_restores_predecessor (r x : Version.t K P) :
  In r tb -> Version.blockhash r = h ->
  In x tb -> Version.key x = Version.key r -> Version.blocknumber x < n ->
  (forall y, In y tb -> Version.key y = Version.key r -> Version.blocknumber y < n ->
             Version.blocknumber y < Version.blocknumber x \/ y = x) ->
  In (Version.set_is_current true x) (revert_below h (Some n) tb).
Proof.
  intros Hr Hrh Hx Hxk Hxn Hmax.
  destruct (loaded_row r Hr) as [j Hj]. destruct (loaded_row x Hx) as [i0 Hi0].
  assert (Hentry : In (j, r) (entries_to_revert h (load tb))).
  { apply filter_In. split; [exact Hj|]. apply String.eqb_eq. exact Hrh. }
  apply in_split in Hentry as (before & after & Hsplit).
  assert (Hcx : candidate n (Version.key r) (i0, x) = true).
  { unfold candidate, same_key, below. cbn [snd].
    rewrite bool_decide_eq_true_2 by exact Hxk. apply Z.ltb_lt. exact Hxn. }
  pose proof (first_by_blocknumber_desc_greatest
                (List.filter (candidate n (Version.key r)) (load tb))) as Hspec.
  destruct (first_by_blocknumber_desc
              (List.filter (candidate n (Version.key r)) (load tb)))
    as [[i x']|] eqn:Hfirst.
  - destruct Hspec as [Hin Hgreatest].
    assert (Hle : Version.blocknumber x <= Version.blocknumber x').
    { apply (Hgreatest (i0, x)). apply filter_In. split; assumption. }
    apply filter_In in Hin as [Hin Hc']. apply andb_prop in Hc' as [Hk' Hn'].
    unfold same_key in Hk'. apply bool_decide_eq_true in Hk'. cbn [snd] in Hk'.
    unfold below in Hn'. apply Z.ltb_lt in Hn'. cbn [snd] in Hn'.
    assert (Hx' : In x' tb) by (rewrite <- (load_rows tb); apply (in_map snd _ _ Hin)).
    destruct (Hmax x' Hx' Hk' Hn') as [Hlt | ->]; [cbn [snd] in Hle; lia|].
    unfold revert_below, store.
    apply (in_map snd _ (i, Version.set_is_current true x)).
    apply (loop_restores (Version.key r) i x before after (j, r)); [exact Hsplit|reflexivity|].
    exact Hfirst.
  - assert (Hin : In (i0, x) (List.filter (candidate n (Version.key r)) (load tb)))
      by (apply filter_In; split; assumption).
    rewrite Hspec in Hin. destruct Hin.
Qed.
End RestorePredecessor.

Lemma revert_below_restores_predecessor_witness :
  In (Version.set_is_current true Example.track_old)
     (revert_below Example.H1 (Some 11) [Example.track_old; Example.track_new]).
Proof.
  apply (revert_below_restores_predecessor Example.H1 11
           [Example.track_old; Example.track_new])
    with (r := Example.track_new).
  - intros y [<-|[<-|[]]]; cbn; intros; first [discriminate | lia].
  - right. left. reflexivity.
  - reflexivity.
  - left. reflexivity.
  - reflexivity.
  - cbn. lia.
  - intros y [<-|[<-|[]]]; cbn; intros; first [right; reflexivity | lia].
Defined.

(** ** What the block indexer commits *)

Lemma flip_first_current_flags (bs : list Block.t) :
  map (Block.set_is_current false) (flip_first_current bs)
  = map (Block.set_is_current false) bs.
Proof.
  induction bs as [|b bs IH]; [reflexivity|].
  cbn [flip_first_current]. destruct (Block.is_current b); cbn [map]; [|rewrite IH];
    reflexivity.
Qed.

Lemma existsb_flags (f : Block.t -> bool) (bs bs' : list Block.t) :
  (forall b, f (Block.set_is_current false b) = f b) ->
  map (Block.set_is_current false) bs = map (Block.set_is_current false) bs' ->
  existsb f bs = existsb f bs'.
Proof.
  intros Hf. revert bs'. induction bs as [|b bs IH]; intros [|b' bs'] Hmap;
    try discriminate Hmap; [reflexivity|].
  cbn [map] in Hmap.
  assert (Hb : Block.set_is_current false b = Block.set_is_current false b')
    by congruence.
  assert (Hrest : map (Block.set_is_current false) bs
                  = map (Block.set_is_current false) bs') by congruence.
  cbn [existsb]. rewrite (IH bs' Hrest), <- (Hf b), <- (Hf b'), Hb. reflexivity.
Qed.

(** X8. A chain block whose hash, or whose number, a row of [blocks]
    already has is never committed: its unit of work raises and leaves the
    committed store and the trace as they were. *)
Theorem index_block_rejects_persisted (ctx : TaskContext) (w : World) (block : Chain.t) :
  already_persisted block (blocks (committed w)) = true ->
  exists e, index_block ctx w block = (Raised e, w).
Proof.
  intros Hdup. unfold index_block.
  destruct (index_block_session ctx (committed w) block) as [[db work]|e] eqn:Hs;
    [|eauto].
  exfalso. apply index_block_session_ok in Hs as (c & d & _ & _ & Hadd & _).
  unfold add_block in Hadd. cbn [Block.blockhash Block.number] in Hadd.
  unfold already_persisted in Hdup.
  rewrite (existsb_flags _ (flip_first_current (blocks (committed w)))
             (blocks (committed w))) in Hadd;
    [|reflexivity|apply flip_first_current_flags].
  rewrite (existsb_flags (fun b => match Block.number b with
                                   | Some n => n =? Chain.number block
                                   | None => false
                                   end)
             (flip_first_current (blocks (committed w))) (blocks (committed w))) in Hadd;
    [|reflexivity|apply flip_first_current_flags].
  rewrite Hdup in Hadd. discriminate Hadd.
Qed.

Lemma index_block_rejects_persisted_witness :
  exists e, index_block Example.ctx Example.from_start Example.chain_H0
            = (Raised e, Example.from_start).
Proof.
  apply (index_block_rejects_persisted Example.ctx Example.from_start Example.chain_H0).
  reflexivity.
Defined.




(** ** The order and the buckets of a block's transactions *)

Lemma insert_by_hash_permutation (tx : Chain.Transaction) (l : list Chain.Transaction) :
  Permutation (tx :: l) (insert_by_hash tx l).
Proof.
  induction l as [|y l IH]; [reflexivity|].
  cbn [insert_by_hash].
  destruct (String.leb (Chain.tx_hash tx) (Chain.tx_hash y)); [reflexivity|].
  rewrite perm_swap. apply perm_skip. exact IH.
Qed.

Lemma insert_by_hash_sorted (tx : Chain.Transaction) (l : list Chain.Transaction) :
  Sorted hash_le l -> Sorted hash_le (insert_by_hash tx l).
Proof.
  induction 1 as [|y l Hs IH Hhd]; [repeat constructor|].
  cbn [insert_by_hash].
  destruct (String.leb (Chain.tx_hash tx) (Chain.tx_hash y)) eqn:Hle.
  - constructor; [constructor; assumption|constructor; exact Hle].
  - constructor; [exact IH|].
    assert (Hyx : hash_le y tx).
    { unfold hash_le. destruct (String.leb_total (Chain.tx_hash tx) (Chain.tx_hash y));
        congruence. }
    destruct l as [|z l]; cbn [insert_by_hash]; [constructor; exact Hyx|].
    destruct (String.leb (Chain.tx_hash tx) (Chain.tx_hash z));
      constructor; [exact Hyx|].
    inversion Hhd; assumption.
Qed.

(** X10. The order in which a block's transactions are applied holds each
    transaction of the block exactly as often as the block does, in
    ascending order of transaction hash. *)
Theorem sorted_by_hash_orders (txs : list Chain.Transaction) :
  Permutation txs (sorted_by_hash txs) /\ Sorted hash_le (sorted_by_hash txs).
Proof.
  unfold sorted_by_hash. induction txs as [|tx txs [IHp IHs]]; [split; constructor|].
  cbn [foldr]. split.
  - rewrite <- insert_by_hash_permutation. apply perm_skip. exact IHp.
  - apply insert_by_hash_sorted. exact IHs.
Qed.

Lemma parse_txs_buckets (addrs : ContractAddresses) (d : gmap string Receipt)
    (txs : list Chain.Transaction) :
  forall b0 b,
    parse_txs addrs d txs b0 = Ok b ->
    user_factory_txs b = user_factory_txs b0 ++ receipts_sent_to (user_factory addrs) d txs
    /\ track_factory_txs b
       = track_factory_txs b0 ++ receipts_sent_to (track_factory addrs) d txs
    /\ social_feature_factory_txs b
       = social_feature_factory_txs b0
         ++ receipts_sent_to (social_feature_factory addrs) d txs
    /\ playlist_factory_txs b
       = playlist_factory_txs b0 ++ receipts_sent_to (playlist_factory addrs) d txs
    /\ user_library_factory_txs b
       = user_library_factory_txs b0
         ++ receipts_sent_to (user_library_factory addrs) d txs
    /\ user_replica_set_manager_txs b
       = user_replica_set_manager_txs b0
         ++ receipts_sent_to (user_replica_set_manager addrs) d txs.
Proof.
  unfold receipts_sent_to.
  induction txs as [|tx txs IH]; intros b0 b Hparse.
  - injection Hparse as <-. cbn. rewrite !app_nil_r. repeat split.
  - cbn [parse_txs] in Hparse.
    destruct (d !! Chain.tx_hash tx) as [r|] eqn:Hr; [|discriminate Hparse].
    destruct (IH _ _ Hparse) as (H1 & H2 & H3 & H4 & H5 & H6).
    rewrite H1, H2, H3, H4, H5, H6. unfold classify, append_if. cbn [List.filter].
    cbn [user_factory_txs track_factory_txs social_feature_factory_txs
         playlist_factory_txs user_library_factory_txs user_replica_set_manager_txs].
    repeat split;
      match goal with
      | |- context [String.eqb (Chain.to tx) ?a] =>
        destruct (String.eqb (Chain.to tx) a); csimpl; rewrite ?Hr, <- ?app_assoc;
          reflexivity
      end.
Qed.

(** X11. When every transaction of the sorted list has a receipt in the
    dictionary, each of the six buckets holds exactly the receipts of the
    transactions sent to its contract address, in the order of the list; a
    transaction sent to none of the six addresses goes to no bucket.  A
    transaction without a receipt in the dictionary makes the parse raise. *)
Theorem parse_txs_classifies (addrs : ContractAddresses) (d : gmap string Receipt)
    (txs : list Chain.Transaction) :
  (Forall (fun tx => is_Some (d !! Chain.tx_hash tx)) txs ->
   parse_txs addrs d txs empty_buckets
   = Ok {| user_factory_txs := receipts_sent_to (user_factory addrs) d txs;
           track_factory_txs := receipts_sent_to (track_factory addrs) d txs;
           social_feature_factory_txs :=
             receipts_sent_to (social_feature_factory addrs) d txs;
           playlist_factory_txs := receipts_sent_to (playlist_factory addrs) d txs;
           user_library_factory_txs :=
             receipts_sent_to (user_library_factory addrs) d txs;
           user_replica_set_manager_txs :=
             receipts_sent_to (user_replica_set_manager addrs) d txs |})
  /\ (forall tx, In tx txs -> d !! Chain.tx_hash tx = None ->
                 is_raised (parse_txs addrs d txs empty_buckets) = true).
Proof.
  split.
  - intros Hall.
    assert (Hok : forall b0, exists b, parse_txs addrs d txs b0 = Ok b).
    { induction Hall as [|tx txs [r Hr] _ IH]; intros b0; [eexists; reflexivity|].
      cbn [parse_txs]. rewrite Hr. apply IH. }
    destruct (Hok empty_buckets) as [b Hb]. rewrite Hb.
    destruct (parse_txs_buckets addrs d txs _ _ Hb) as (H1 & H2 & H3 & H4 & H5 & H6).
    destruct b. cbn in *. subst. reflexivity.
  - intros tx Hin Hnone. generalize empty_buckets.
    induction txs as [|y txs IH]; intros b0; [destruct Hin|].
    cbn [parse_txs]. destruct Hin as [->|Hin].
    + rewrite Hnone. reflexivity.
    + destruct (d !! Chain.tx_hash y); [apply IH; exact Hin|reflexivity].
Qed.

Lemma parse_txs_classifies_witness :
  parse_txs Example.addresses
            (collect_receipts Example.social_ctx (Chain.transactions Example.B1))
            (Chain.transactions Example.B1) empty_buckets
  = Ok {| user_factory_txs := []; track_factory_txs := [];
          social_feature_factory_txs := [{| transactionHash := "0xf1"; logs := [] |}];
          playlist_factory_txs := []; user_library_factory_txs := [];
          user_replica_set_manager_txs := [] |}.
Proof.
  rewrite (proj1 (parse_txs_classifies Example.addresses
                    (collect_receipts Example.social_ctx (Chain.transactions Example.B1))
                    (Chain.transactions Example.B1))).
  - vm_compute. reflexivity.
  - repeat constructor. vm_compute. eauto.
Defined.

(** ** The tip-walk in general *)

Lemma tip_walk_acc (ctx : TaskContext) (bs : list Block.t) (fuel : nat) :
  forall latest_block acc,
    tip_walk ctx fuel bs latest_block acc
    = match tip_walk ctx fuel bs latest_block [] with
      | Some (Ok (intersect, found)) => Some (Ok (intersect, acc ++ found))
      | Some (Raised e) => Some (Raised e)
      | None => None
      end.
Proof.
  induction fuel as [|fuel IH]; intros c acc; [reflexivity|].
  cbn [tip_walk].
  destruct (0 <? length (latest_block_db_query (Chain.hash c) (Chain.parentHash c) bs))%nat;
    [rewrite app_nil_r; reflexivity|].
  destruct (String.eqb (Chain.parentHash c) default_padded_start_hash); [reflexivity|].
  destruct (getBlock ctx (Chain.parentHash c)) as [c'|]; [|reflexivity].
  destruct (0 <? length (blocks_with_hash (Chain.parentHash c) bs))%nat; [reflexivity|].
  rewrite (IH c' (acc ++ [c])), (IH c' ([] ++ [c])).
  destruct (tip_walk ctx fuel bs c' []) as [[[x found]|e]|]; try reflexivity.
  rewrite <- app_assoc. reflexivity.
Qed.

(** One step of the tip-walk, with the rest of the walk started afresh. *)
Lemma tip_walk_step (ctx : TaskContext) (bs : list Block.t) (fuel : nat) (c : Chain.t) :
  tip_walk ctx (S fuel) bs c []
  = match blocks_with_hash (Chain.hash c) bs with
    | _ :: _ => Some (Ok (Chain.hash c, []))
    | [] =>
      if String.eqb (Chain.parentHash c) default_padded_start_hash
      then Some (Ok (default_config_start_hash, [c]))
      else match getBlock ctx (Chain.parentHash c) with
           | None => Some (Raised BlockNotFound)
           | Some c' =>
             match blocks_with_hash (Chain.parentHash c) bs with
             | _ :: _ => Some (Ok (Chain.hash c', [c]))
             | [] =>
               match tip_walk ctx fuel bs c' [] with
               | Some (Ok (intersect, found)) => Some (Ok (intersect, c :: found))
               | Some (Raised e) => Some (Raised e)
               | None => None
               end
             end
           end
    end.
Proof.
  cbn [tip_walk]. rewrite latest_block_db_query_by_hash.
  destruct (blocks_with_hash (Chain.hash c) bs); [|reflexivity].
  cbn [length Nat.ltb Nat.leb].
  destruct (String.eqb (Chain.parentHash c) default_padded_start_hash); [reflexivity|].
  destruct (getBlock ctx (Chain.parentHash c)) as [c'|]; [|reflexivity].
  destruct (blocks_with_hash (Chain.parentHash c) bs); [|reflexivity].
  cbn [length Nat.ltb Nat.leb]. rewrite tip_walk_acc. reflexivity.
Qed.

(** X12. Whatever the chain client answers, the tip-walk puts on the index
    list only blocks whose hash no row of [blocks] has, and it lists them as
    it met them: the first is the block it started from, and each further
    one is what the client returned for the parent hash of the one before. *)
Theorem tip_walk_indexes_only_new (ctx : TaskContext) (bs : list Block.t) (fuel : nat) :
  forall latest_block intersect found,
    tip_walk ctx fuel bs latest_block [] = Some (Ok (intersect, found)) ->
    Forall (fun c => blocks_with_hash (Chain.hash c) bs = []) found
    /\ (found = [] \/ exists older, found = latest_block :: older)
    /\ forall before a b after,
         found = before ++ a :: b :: after ->
         getBlock ctx (Chain.parentHash a) = Some b.
Proof.
  induction fuel as [|fuel IH]; intros c x found Hwalk; [discriminate|].
  rewrite tip_walk_step in Hwalk.
  destruct (blocks_with_hash (Chain.hash c) bs) eqn:Hc.
  2:{ injection Hwalk as <- <-. split; [constructor|]. split; [left; reflexivity|].
      intros [|? ?] ? ? ? Hsplit; discriminate Hsplit. }
  assert (Hone : Forall (fun c => blocks_with_hash (Chain.hash c) bs = []) [c]
                 /\ ([c] = [] \/ exists older, [c] = c :: older)
                 /\ forall before a b after,
                      [c] = before ++ a :: b :: after ->
                      getBlock ctx (Chain.parentHash a) = Some b).
  { split; [repeat constructor; exact Hc|]. split; [right; eauto|].
    intros [|? [|? ?]] ? ? ? Hsplit; discriminate Hsplit. }
  destruct (String.eqb (Chain.parentHash c) default_padded_start_hash).
  { injection Hwalk as <- <-. exact Hone. }
  destruct (getBlock ctx (Chain.parentHash c)) as [c'|] eqn:Hget; [|discriminate].
  destruct (blocks_with_hash (Chain.parentHash c) bs).
  2:{ injection Hwalk as <- <-. exact Hone. }
  destruct (tip_walk ctx fuel bs c' []) as [[[x' found']|e]|] eqn:Hrest; try discriminate.
  injection Hwalk as <- <-.
  destruct (IH _ _ _ Hrest) as (Hnew & Hhead & Hlinks).
  split; [constructor; [exact Hc|exact Hnew]|]. split; [right; eauto|].
  intros before a b after Hsplit.
  destruct before as [|b0 before]; cbn [app] in Hsplit.
  - injection Hsplit as <- Hfound.
    destruct Hhead as [->|[older ->]]; [discriminate|].
    injection Hfound as <- _. exact Hget.
  - injection Hsplit as _ Hfound. apply (Hlinks before a b after Hfound).
Qed.

Lemma tip_walk_indexes_only_new_witness :
  Forall (fun c => blocks_with_hash (Chain.hash c) Example.persisted = [])
         [Example.chain_H2'; Example.chain_H1']
  /\ getBlock Example.ctx (Chain.parentHash Example.chain_H2') = Some Example.chain_H1'.
Proof.
  destruct (tip_walk_indexes_only_new Example.ctx Example.persisted 2 Example.chain_H2'
              Example.H0 [Example.chain_H2'; Example.chain_H1'] eq_refl)
    as (Hnew & _ & Hlinks).
  split; [exact Hnew|].
  apply (Hlinks [] Example.chain_H2' Example.chain_H1' []). reflexivity.
Defined.

(** X13. On a stretch of the chain that the client serves and that ends
    with a block whose parent is the padded zero hash, the tip-walk started
    at its first block ends without an exception when its fuel is the
    length of the stretch, and the blocks it lists are the first ones of the
    stretch. *)
Theorem tip_walk_ends_by_genesis (ctx : TaskContext) (bs : list Block.t)
    (above : list Chain.t) (genesis : Chain.t) :
  forall fuel,
    served_chain ctx (above ++ [genesis]) ->
    Chain.parentHash genesis = default_padded_start_hash ->
    (length (above ++ [genesis]) <= fuel)%nat ->
    exists intersect found rest,
      tip_walk ctx fuel bs (hd genesis above) [] = Some (Ok (intersect, found))
      /\ above ++ [genesis] = found ++ rest.
Proof.
  induction above as [|c above IH]; intros fuel Hserved Hlast Hfuel;
    (destruct fuel as [|fuel]; [cbn in Hfuel; lia|]); cbn [hd]; rewrite tip_walk_step.
  - destruct (blocks_with_hash (Chain.hash genesis) bs);
      [|exists (Chain.hash genesis), [], [genesis]; eauto].
    rewrite Hlast, String.eqb_refl.
    exists default_config_start_hash, [genesis], []. eauto.
  - destruct (blocks_with_hash (Chain.hash c) bs);
      [|exists (Chain.hash c), [], ((c :: above) ++ [genesis]); eauto].
    destruct (String.eqb (Chain.parentHash c) default_padded_start_hash).
    { exists default_config_start_hash, [c], (above ++ [genesis]). eauto. }
    assert (Hnext : exists b older, above ++ [genesis] = b :: older /\ hd genesis above = b).
    { destruct above as [|b above]; [exists genesis, []|exists b, (above ++ [genesis])];
        split; reflexivity. }
    destruct Hnext as (b & older & Hsplit & Hhd).
    cbn [app] in Hserved. rewrite Hsplit in Hserved.
    destruct Hserved as (Hparent & Hget & Hrest). rewrite <- Hsplit in Hrest.
    rewrite Hparent, Hget.
    destruct (blocks_with_hash (Chain.hash b) bs);
      [|exists (Chain.hash b), [c], (above ++ [genesis]); eauto].
    destruct (IH fuel Hrest Hlast) as (x & found & rest & Hwalk & Hfound).
    { cbn [app length] in Hfuel. lia. }
    rewrite Hhd in Hwalk. rewrite Hwalk.
    exists x, (c :: found), rest. cbn [app]. rewrite Hfound. eauto.
Qed.

Lemma tip_walk_ends_by_genesis_witness :
  exists intersect found rest,
    tip_walk Sample.ctx 3 [] Sample.G2 [] = Some (Ok (intersect, found))
    /\ [Sample.G2; Sample.G1; Sample.G0] = found ++ rest.
Proof.
  apply (tip_walk_ends_by_genesis Sample.ctx [] [Sample.G2; Sample.G1] Sample.G0 3).
  - cbn. repeat split.
  - reflexivity.
  - cbn. lia.
Defined.

(** ** Reconciliation in general *)

Lemma tip_walk_to_base (ctx : TaskContext) (bs : list Block.t) (base : Chain.t)
    (new : list Chain.t) :
  forall fuel,
    served_chain ctx (new ++ [base]) ->
    all_new bs new ->
    blocks_with_hash (Chain.hash base) bs <> [] ->
    (length new < fuel)%nat ->
    tip_walk ctx fuel bs (hd base new) [] = Some (Ok (Chain.hash base, new)).
Proof.
  induction new as [|c new IH]; intros fuel Hserved Hnew Hbase Hfuel;
    (destruct fuel as [|fuel]; [cbn in Hfuel; lia|]); cbn [hd]; rewrite tip_walk_step.
  - destruct (blocks_with_hash (Chain.hash base) bs); [contradiction|reflexivity].
  - apply Forall_cons_iff in Hnew as [[Hc Hpad] Hnew].
    rewrite Hc. apply String.eqb_neq in Hpad. rewrite Hpad.
    assert (Hnext : exists older, new ++ [base] = hd base new :: older).
    { destruct new as [|b new]; [exists []|exists (new ++ [base])]; reflexivity. }
    destruct Hnext as (older & Hsplit).
    cbn [app] in Hserved. rewrite Hsplit in Hserved.
    destruct Hserved as (Hparent & Hget & Hrest). rewrite <- Hsplit in Hrest.
    rewrite Hparent, Hget.
    destruct new as [|b new]; cbn [hd] in *.
    + destruct (blocks_with_hash (Chain.hash base) bs); [contradiction|reflexivity].
    + pose proof Hnew as Hb. apply Forall_cons_iff in Hb as [[Hb _] _]. rewrite Hb.
      rewrite (IH fuel Hrest Hnew Hbase); [reflexivity|].
      cbn [length] in Hfuel |- *. lia.
Qed.

Lemma walk_traverse (bs : list Block.t) (X : string) (t : Block.t) (p : list Block.t) :
  walk bs X t p ->
  forall fuel, (length p < fuel)%nat -> traverse fuel bs t X [] = Some p.
Proof.
  induction 1 as [t Ht|t Ht Hq|t parent ps p Ht Hq Hw IH]; intros fuel Hfuel;
    (destruct fuel as [|fuel]; [cbn in Hfuel; lia|]); rewrite traverse_step.
  - apply String.eqb_eq in Ht. rewrite Ht. reflexivity.
  - apply String.eqb_neq in Ht. rewrite Ht, Hq. reflexivity.
  - apply String.eqb_neq in Ht. rewrite Ht, Hq.
    rewrite (IH fuel); [reflexivity|]. cbn [length] in Hfuel. lia.
Qed.

(** X14. The two lists of a reconciliation.  Let the chain client serve
    the blocks [new], tip first, on top of a block [base]; let no block of
    [new] be persisted and [base] be persisted; and let [reverted] be the
    rows from the current block down to [base], as the parent links of the
    table give them.  With fuel for both walks, the intersection is [base],
    the index list is [new] and the revert list is [reverted]. *)
Theorem reconcile_finds_fork (ctx : TaskContext) (bs : list Block.t) (fuel : nat)
    (base : Chain.t) (new : list Chain.t)
    (db_current_block : Block.t) (reverted : list Block.t) :
  served_chain ctx (new ++ [base]) ->
  all_new bs new ->
  blocks_with_hash (Chain.hash base) bs <> [] ->
  current_blocks bs = [db_current_block] ->
  walk bs (Chain.hash base) db_current_block reverted ->
  (length new < fuel)%nat ->
  (length reverted < fuel)%nat ->
  reconcile ctx fuel bs (hd base new)
  = Some (Ok {| intersect_block_hash := Chain.hash base;
                index_blocks_list := new;
                revert_blocks_list := reverted |}).
Proof.
  intros Hserved Hnew Hbase Hcur Hwalk Hf1 Hf2. unfold reconcile.
  rewrite (tip_walk_to_base ctx bs base new fuel Hserved Hnew Hbase Hf1), Hcur.
  rewrite (walk_traverse _ _ _ _ Hwalk fuel Hf2). reflexivity.
Qed.

Lemma reconcile_finds_fork_witness :
  reconcile Example.ctx 3 Example.persisted Example.chain_H2'
  = Some (Ok {| intersect_block_hash := Example.H0;
                index_blocks_list := [Example.chain_H2'; Example.chain_H1'];
                revert_blocks_list := [Example.row_H1] |}).
Proof.
  apply (reconcile_finds_fork Example.ctx Example.persisted 3 Example.chain_H0
           [Example.chain_H2'; Example.chain_H1'] Example.row_H1 [Example.row_H1]).
  - cbn. repeat split.
  - repeat constructor; discriminate.
  - discriminate.
  - reflexivity.
  - eapply walk_next; [discriminate|reflexivity|]. apply walk_stop. reflexivity.
  - cbn. lia.
  - cbn. lia.
Defined.

(** X15. What the revert list of the second walk looks like, on a table
    where [blockhash] is a key: its rows are rows of the table, none of them
    has the intersection hash, no hash occurs twice, and it starts with the
    current block (when it is not empty) and follows the parent links. *)
Theorem traverse_revert_list_shape (bs : list Block.t) (fuel : nat) (intersect : string)
    (db_current_block : Block.t) (revert_list : list Block.t) :
  List.NoDup (map Block.blockhash bs) ->
  In db_current_block bs ->
  traverse fuel bs db_current_block intersect [] = Some revert_list ->
  (forall r, In r revert_list -> In r bs /\ Block.blockhash r <> intersect)
  /\ List.NoDup (map Block.blockhash revert_list)
  /\ (revert_list = [] \/ exists older, revert_list = db_current_block :: older)
  /\ forall before a b after,
       revert_list = before ++ a :: b :: after ->
       Block.blockhash b = Block.parenthash a.
Proof.
  intros Hnd Hin Htr. apply traverse_walk in Htr.
  split; [|split; [|split]].
  - intros r Hr. split.
    + apply (walk_persisted bs intersect _ _ Htr Hin). exact Hr.
    + apply (walk_not_intersection bs intersect _ _ Htr). exact Hr.
  - apply (walk_distinct bs intersect _ _ Hnd Hin Htr).
  - inversion Htr; subst; [left; reflexivity|right; eauto|right; eauto].
  - clear Hnd Hin.
    induction Htr as [t Ht|t Ht Hq|t parent ps p Ht Hq Hw IH]; intros before a b after Hs.
    + destruct before; discriminate Hs.
    + destruct before as [|? [|? ?]]; discriminate Hs.
    + destruct before as [|b0 before]; cbn [app] in Hs.
      * injection Hs as <- Hp. subst p.
        inversion Hw; subst; apply (parent_persisted bs _ _ _ Hq).
      * injection Hs as _ Hp. apply (IH before a b after Hp).
Qed.

Lemma traverse_revert_list_shape_witness :
  List.NoDup (map Block.blockhash [Example.first_row; Example.genesis_row])
  /\ Block.blockhash Example.genesis_row = Block.parenthash Example.first_row.
Proof.
  destruct (traverse_revert_list_shape (blocks (committed Example.from_start)) 3
              default_config_start_hash Example.first_row
              [Example.first_row; Example.genesis_row])
    as (_ & Hdistinct & _ & Hlinks).
  - repeat constructor; cbn; intuition discriminate.
  - right. right. left. reflexivity.
  - reflexivity.
  - split; [exact Hdistinct|].
    apply (Hlinks [] Example.first_row Example.genesis_row []). reflexivity.
Defined.

(** ** One cycle of [update_task] *)

Lemma initialize_with_current (ctx : TaskContext) (start : string) (w : World)
    (target_block : Chain.t) (c : Block.t) :
  getBlock ctx start = Some target_block ->
  current_blocks (blocks (committed w)) = [c] ->
  fst (initialize_blocks_table_if_necessary ctx start w) = Ok start
  /\ committed (snd (initialize_blocks_table_if_necessary ctx start w)) = committed w.
Proof.
  intros Hget Hcur. unfold initialize_blocks_table_if_necessary. rewrite Hget, Hcur.
  split; [reflexivity|].
  destruct (Block.number c) as [n|]; cbn;
    repeat (match goal with |- context [if ?b then _ else _] => destruct b end);
    reflexivity.
Qed.

(** X16. A cycle that finds the store up to date changes nothing in it:
    when the block the chain client returns as the target has the hash of
    the current Block row, the cycle ends without an exception, with both
    lists empty; the committed store is the one it started from and nothing
    is committed. *)
Theorem update_cycle_up_to_date (ctx : TaskContext) (head : ChainHead) (config : Config)
    (fuel : nat) (w : World) (target_block latest_block : Chain.t) (c : Block.t) :
  getBlock ctx (start_block config) = Some target_block ->
  current_blocks (blocks (committed w)) = [c] ->
  get_latest_block head (block_processing_window config) (blocks (committed w))
  = Ok latest_block ->
  Chain.hash latest_block = Block.blockhash c ->
  update_cycle ctx head config (S fuel) w
  = Some (Ok tt, snd (initialize_blocks_table_if_necessary ctx (start_block config) w))
  /\ committed (snd (initialize_blocks_table_if_necessary ctx (start_block config) w))
     = committed w.
Proof.
  intros Hget Hcur Hlatest Hhash.
  destruct (initialize_with_current ctx _ w _ c Hget Hcur) as [Hok Hsame].
  split; [|exact Hsame].
  unfold update_cycle.
  destruct (initialize_blocks_table_if_necessary ctx (start_block config) w) as [r w1].
  cbn [fst snd] in *. subst r. rewrite Hsame, Hlatest.
  assert (Hpersisted : blocks_with_hash (Chain.hash latest_block) (blocks (committed w)) <> []).
  { intros Hq.
    assert (Hin : In c (blocks_with_hash (Chain.hash latest_block) (blocks (committed w)))).
    { apply filter_In. split.
      - assert (Hc : In c (current_blocks (blocks (committed w))))
          by (rewrite Hcur; left; reflexivity).
        apply filter_In in Hc. apply Hc.
      - apply String.eqb_eq. symmetry. exact Hhash. }
    rewrite Hq in Hin. destruct Hin. }
  unfold reconcile. rewrite tip_walk_step.
  destruct (blocks_with_hash (Chain.hash latest_block) (blocks (committed w)));
    [contradiction|].
  rewrite Hcur, traverse_step, <- Hhash, String.eqb_refl.
  cbn [revert_blocks_list index_blocks_list]. unfold revert_batch. cbn.
  reflexivity.
Qed.

Lemma update_cycle_up_to_date_witness :
  update_cycle Sample.ctx Sample.head Sample.config 1 Sample.at_G2
  = Some (Ok tt, snd (initialize_blocks_table_if_necessary Sample.ctx "0x0" Sample.at_G2)).
Proof.
  apply (update_cycle_up_to_date Sample.ctx Sample.head Sample.config 0 Sample.at_G2
           Sample.G0 Sample.G2 (Block.mk "0xa2" (Some 2) "0xa1" true));
    reflexivity.
Defined.

Lemma index_each_app (ctx : TaskContext) (l1 l2 : list Chain.t) :
  forall w,
    index_each ctx w (l1 ++ l2)
    = match index_each ctx w l1 with
      | (Ok _, w1) => index_each ctx w1 l2
      | (Raised e, w1) => (Raised e, w1)
      end.
Proof.
  induction l1 as [|b l1 IH]; intros w; [reflexivity|].
  cbn [app index_each].
  destruct (index_block ctx w b) as [[[]|e] w1]; [apply IH|reflexivity].
Qed.

Lemma index_each_last_current (ctx : TaskContext) (w w' : World)
    (earlier : list Chain.t) (b : Chain.t) :
  index_each ctx w (earlier ++ [b]) = (Ok tt, w') ->
  current_blocks (blocks (committed w')) = [block_row true b].
Proof.
  rewrite index_each_app.
  destruct (index_each ctx w earlier) as [[[]|e] w1]; [|discriminate].
  cbn [index_each].
  destruct (index_block ctx w1 b) as [[[]|e] w2] eqn:Hstep; [|discriminate].
  intros Heq. injection Heq as <-.
  apply index_block_ok in Hstep as (work & Hs & _).
  apply (index_block_session_one_current _ _ _ _ _ Hs).
Qed.

Lemma tip_walk_head (ctx : TaskContext) (bs : list Block.t) (fuel : nat)
    (latest_block : Chain.t) (intersect : string) (found : list Chain.t) :
  tip_walk ctx fuel bs latest_block [] = Some (Ok (intersect, found)) ->
  found = [] \/ exists older, found = latest_block :: older.
Proof.
  destruct fuel as [|fuel]; [discriminate|]. rewrite tip_walk_step.
  destruct (blocks_with_hash (Chain.hash latest_block) bs);
    [|intros Heq; injection Heq as _ <-; left; reflexivity].
  destruct (String.eqb (Chain.parentHash latest_block) default_padded_start_hash);
    [intros Heq; injection Heq as _ <-; right; eauto|].
  destruct (getBlock ctx (Chain.parentHash latest_block)); [|discriminate].
  destruct (blocks_with_hash (Chain.parentHash latest_block) bs);
    [|intros Heq; injection Heq as _ <-; right; eauto].
  destruct (tip_walk ctx fuel bs t []) as [[[x f]|e]|]; try discriminate.
  intros Heq. injection Heq as _ <-. right. eauto.
Qed.

(** X17. A cycle that ends without an exception and had blocks to index
    leaves the block it walked back from, the target block the chain client
    returned, as the current Block row. *)
Theorem update_cycle_reaches_target (ctx : TaskContext) (head : ChainHead) (config : Config)
    (fuel : nat) (w w' : World) :
  update_cycle ctx head config fuel w = Some (Ok tt, w') ->
  exists latest_block lists,
    get_latest_block head (block_processing_window config)
      (blocks (committed (snd (initialize_blocks_table_if_necessary
                                 ctx (start_block config) w))))
    = Ok latest_block
    /\ reconcile ctx fuel
         (blocks (committed (snd (initialize_blocks_table_if_necessary
                                    ctx (start_block config) w))))
         latest_block
       = Some (Ok lists)
    /\ (index_blocks_list lists <> [] ->
        current_blocks (blocks (committed w')) = [block_row true latest_block]).
Proof.
  unfold update_cycle.
  destruct (initialize_blocks_table_if_necessary ctx (start_block config) w) as [[s|e] w1];
    [|discriminate].
  cbn [snd].
  destruct (get_latest_block head (block_processing_window config) (blocks (committed w1)))
    as [latest_block|e]; [|discriminate].
  destruct (reconcile ctx fuel (blocks (committed w1)) latest_block) as [[lists|e]|] eqn:Hrec;
    try discriminate.
  destruct (revert_batch w1 (revert_blocks_list lists)) as [[[]|e] w2]; [|discriminate].
  intros Hindex. injection Hindex as Hindex.
  exists latest_block, lists. split; [reflexivity|]. split; [exact Hrec|].
  intros Hne.
  assert (Hhead : exists older, index_blocks_list lists = latest_block :: older).
  { unfold reconcile in Hrec.
    destruct (tip_walk ctx fuel (blocks (committed w1)) latest_block [])
      as [[[x found]|e]|] eqn:Hwalk; try discriminate.
    destruct (current_blocks (blocks (committed w1))) as [|c [|c2 rest]]; try discriminate.
    destruct (traverse fuel (blocks (committed w1)) c x []); [|discriminate].
    injection Hrec as <-. cbn [index_blocks_list] in *.
    destruct (tip_walk_head _ _ _ _ _ _ Hwalk) as [->|Hh]; [contradiction|exact Hh]. }
  destruct Hhead as [older Hlist].
  unfold index_blocks in Hindex. rewrite application_order_rev, Hlist in Hindex.
  cbn [rev] in Hindex.
  apply (index_each_last_current ctx w2 w' (rev older) latest_block). exact Hindex.
Qed.

Lemma update_cycle_reaches_target_witness :
  exists w',
    update_cycle Sample.ctx Sample.head Sample.config 3 Sample.at_G1 = Some (Ok tt, w')
    /\ current_blocks (blocks (committed w')) = [block_row true Sample.G2].
Proof.
  eexists. split; [vm_compute; reflexivity|].
  match goal with
  | |- current_blocks (blocks (committed ?w')) = _ =>
    destruct (update_cycle_reaches_target Sample.ctx Sample.head Sample.config 3
                Sample.at_G1 w')
      as (latest_block & lists & Hlatest & Hrec & Hcur); [vm_compute; reflexivity|]
  end.
  vm_compute in Hlatest. injection Hlatest as <-.
  vm_compute in Hrec. injection Hrec as <-.
  apply Hcur. discriminate.
Defined.



(** X19. The whole cycle keeps the invariant of the [blocks] table.  From a
    persisted chain with exactly one current row, exactly one row is current
    when the cycle ends, whether it ends normally or with an exception
    raised by the chain client, by an assertion, by the revert or by the
    indexing of a block. *)
Theorem update_cycle_keeps_one_current (ctx : TaskContext) (head : ChainHead)
    (config : Config) (fuel : nat) (w w' : World) (result : Result unit) :
  persisted_chain (blocks (committed w)) ->
  exactly_one_current (blocks (committed w)) ->
  update_cycle ctx head config fuel w = Some (result, w') ->
  exactly_one_current (blocks (committed w')).
Proof.
  intros Hwf Hinv. unfold update_cycle.
  pose proof (initialize_one_current ctx (start_block config) w Hinv) as Hsame.
  destruct (initialize_blocks_table_if_necessary ctx (start_block config) w) as [[s|e] w1];
    cbn [snd] in Hsame;
    [|intros Heq; injection Heq as _ <-; rewrite Hsame; exact Hinv].
  rewrite <- Hsame in Hwf, Hinv.
  destruct (get_latest_block head (block_processing_window config) (blocks (committed w1)))
    as [latest_block|e]; [|intros Heq; injection Heq as _ <-; exact Hinv].
  destruct (reconcile ctx fuel (blocks (committed w1)) latest_block) as [[lists|e]|] eqn:Hrec;
    [|intros Heq; injection Heq as _ <-; exact Hinv|discriminate].
  assert (Hbatch : exactly_one_current
                     (blocks (committed (snd (revert_batch w1 (revert_blocks_list lists)))))).
  { unfold reconcile in Hrec.
    destruct (tip_walk ctx fuel (blocks (committed w1)) latest_block [])
      as [[[x found]|e]|]; try discriminate.
    destruct (current_blocks (blocks (committed w1))) as [|c [|c2 rest]] eqn:Hcur;
      try discriminate.
    destruct (traverse fuel (blocks (committed w1)) c x []) as [rl|] eqn:Htr;
      [|discriminate].
    injection Hrec as <-. cbn [revert_blocks_list].
    destruct (single_current_is _ c (proj1 Hwf) Hcur) as [Hin Hc].
    pose proof (traverse_revert_chain _ _ _ _ _ Hwf Hin Htr) as Hchain.
    exact (current_is_one _ _ (revert_batch_current w1 _ rl Hc Hchain)). }
  destruct (revert_batch w1 (revert_blocks_list lists)) as [[[]|e] w2]; cbn [snd] in Hbatch;
    [|intros Heq; injection Heq as _ <-; exact Hbatch].
  intros Heq. injection Heq as Heq.
  pose proof (index_each_one_current ctx (application_order (index_blocks_list lists)) w2 Hbatch)
    as Hindex.
  unfold index_blocks in Heq. rewrite Heq in Hindex. exact Hindex.
Qed.

Lemma update_cycle_keeps_one_current_witness :
  exists w',
    update_cycle Sample.ctx Sample.head Sample.config 3 Sample.at_G1 = Some (Ok tt, w')
    /\ exactly_one_current (blocks (committed w')).
Proof.
  eexists. split; [vm_compute; reflexivity|].
  eapply (update_cycle_keeps_one_current Sample.ctx Sample.head Sample.config 3
            Sample.at_G1 _ (Ok tt)).
  - split; [|split; [|split]].
    + repeat constructor; cbn; intuition discriminate.
    + cbn. intuition discriminate.
    + intros r Hr; cbn in Hr; repeat (destruct Hr as [<-|Hr]; [cbn; intuition|]);
        destruct Hr.
    + intros r Hr; cbn in Hr; repeat (destruct Hr as [<-|Hr];
        [cbn; intros; first [reflexivity | discriminate]|]); destruct Hr.
  - reflexivity.
  - vm_compute. reflexivity.
Defined.

(** ** Redirect weights *)

Lemma fold_left_max_ge (rest : list Z) :
  forall v, v <= fold_left Z.max rest v
            /\ (forall x, In x rest -> x <= fold_left Z.max rest v)
            /\ (fold_left Z.max rest v = v \/ In (fold_left Z.max rest v) rest).
Proof.
  induction rest as [|y rest IH]; intros v; cbn [fold_left].
  - split; [lia|]. split; [intros x []|left; reflexivity].
  - destruct (IH (Z.max v y)) as (Hge & Hall & Hin). split; [lia|]. split.
    + intros x [<-|Hx]; [lia|apply Hall; exact Hx].
    + destruct Hin as [Heq|Hin]; [|right; right; exact Hin].
      destruct (Z.max_spec v y) as [[_ Hm]|[_ Hm]].
      * right. left. rewrite Heq. symmetry. exact Hm.
      * left. rewrite Heq. exact Hm.
Qed.

Lemma max_default_ge (values : list Z) (default x : Z) :
  In x values -> x <= RedirectWeights.max_default values default.
Proof.
  destruct values as [|v rest]; [intros []|]. cbn [RedirectWeights.max_default].
  destruct (fold_left_max_ge rest v) as (Hge & Hall & _).
  intros [<-|Hx]; [exact Hge|apply Hall; exact Hx].
Qed.

Lemma max_default_in (values : list Z) (default : Z) :
  values <> [] -> In (RedirectWeights.max_default values default) values.
Proof.
  destruct values as [|v rest]; [congruence|]. intros _.
  cbn [RedirectWeights.max_default].
  destruct (fold_left_max_ge rest v) as (_ & _ & [->|Hin]); [left; reflexivity|right; exact Hin].
Qed.

Lemma max_default_all_one (values : list Z) :
  (forall x, In x values -> x = 1) -> RedirectWeights.max_default values 1 = 1.
Proof.
  intros Hone. destruct values as [|v rest]; [reflexivity|].
  apply Hone, max_default_in. discriminate.
Qed.

Lemma all_one_lookup (endpoints : list string) (e : string) :
  RedirectWeights.all_one endpoints !! e
  = if decide (e ∈ endpoints) then Some 1 else None.
Proof.
  unfold RedirectWeights.all_one.
  induction endpoints as [|a rest IH]; cbn [map].
  - rewrite list_to_map_nil, lookup_empty. destruct (decide (e ∈ [])) as [Hin|_]; [|reflexivity].
    inversion Hin.
  - rewrite list_to_map_cons. cbn [fst snd]. destruct (decide (a = e)) as [->|Hne].
    + rewrite lookup_insert. rewrite decide_True by reflexivity.
      rewrite decide_True by constructor.
      reflexivity.
    + rewrite lookup_insert_ne by exact Hne. rewrite IH.
      destruct (decide (e ∈ rest)) as [Hin|Hnin].
      * rewrite decide_True by (constructor; exact Hin). reflexivity.
      * rewrite decide_False; [reflexivity|].
        intros Hin. inversion Hin; subst; [congruence|contradiction].
Qed.

Lemma values_in (loads : gmap string Z) (x : Z) :
  In x (snd <$> map_to_list loads) <-> exists e, loads !! e = Some x.
Proof.
  rewrite <- list_elem_of_In, list_elem_of_fmap. split.
  - intros ([e y] & -> & Hin). exists e. apply elem_of_map_to_list. exact Hin.
  - intros [e He]. exists (e, x). split; [reflexivity|].
    apply elem_of_map_to_list. exact He.
Qed.

Lemma weigh_lookup (endpoints : list string) (loads : gmap string Z) (e : string) :
  RedirectWeights.weigh endpoints loads !! e
  = (fun load =>
       (RedirectWeights.max_default
          (snd <$> map_to_list (if (size loads =? 0)%nat
                                then RedirectWeights.all_one endpoints else loads)) 1
        - load) + 5)
    <$> (if (size loads =? 0)%nat then RedirectWeights.all_one endpoints else loads) !! e.
Proof. unfold RedirectWeights.weigh. rewrite lookup_fmap. reflexivity. Qed.

Lemma request_counts_skips (answers : list (string * RedirectWeights.Reply)) (e : string) :
  forall loads0 loads,
    (forall status_code int_text,
        In (e, RedirectWeights.Response status_code int_text) answers -> status_code <> 200) ->
    RedirectWeights.request_counts answers loads0 = Some loads ->
    loads !! e = loads0 !! e.
Proof.
  induction answers as [|[endpoint reply] rest IH]; intros loads0 loads Hno Hrun;
    cbn [RedirectWeights.request_counts] in Hrun.
  - injection Hrun as <-. reflexivity.
  - assert (Hrest : forall status_code int_text,
               In (e, RedirectWeights.Response status_code int_text) rest ->
               status_code <> 200).
    { intros s t Hin. apply (Hno s t). right. exact Hin. }
    destruct reply as [|status_code int_text]; [discriminate|].
    destruct (status_code =? 200) eqn:Hs; [|apply (IH _ _ Hrest Hrun)].
    destruct int_text as [load|]; [|discriminate].
    rewrite (IH _ _ Hrest Hrun). apply lookup_insert_ne.
    intros ->. apply Z.eqb_eq in Hs. apply (Hno status_code (Some load)); [left; reflexivity|].
    exact Hs.
Qed.

Lemma request_counts_last (answers : list (string * RedirectWeights.Reply)) (e : string)
    (load : Z) (loads0 loads : gmap string Z) :
  RedirectWeights.last_load answers e load ->
  RedirectWeights.request_counts answers loads0 = Some loads ->
  loads !! e = Some load.
Proof.
  intros (before & after & -> & Hafter). revert loads0.
  induction before as [|[endpoint reply] before IH]; intros loads0 Hrun;
    cbn [app RedirectWeights.request_counts] in Hrun.
  - cbn [Z.eqb Pos.eqb] in Hrun.
    rewrite (request_counts_skips after e _ _ Hafter Hrun). apply lookup_insert_eq.
  - destruct reply as [|status_code int_text]; [discriminate|].
    destruct (status_code =? 200); [|apply (IH _ Hrun)].
    destruct int_text as [l|]; [|discriminate]. apply (IH _ Hrun).
Qed.

Lemma request_counts_none_healthy (answers : list (string * RedirectWeights.Reply)) :
  forall loads0,
    RedirectWeights.none_healthy answers ->
    RedirectWeights.request_counts answers loads0 = Some loads0.
Proof.
  induction answers as [|[endpoint reply] rest IH]; intros loads0 Hdown; [reflexivity|].
  cbn [RedirectWeights.request_counts].
  destruct (Hdown endpoint reply) as (s & t & -> & Hs); [left; reflexivity|].
  apply Z.eqb_neq in Hs. rewrite Hs. apply IH.
  intros e r Hin. apply (Hdown e r). right. exact Hin.
Qed.

Lemma request_counts_keeps (answers : list (string * RedirectWeights.Reply)) :
  forall loads0 loads e,
    RedirectWeights.request_counts answers loads0 = Some loads ->
    is_Some (loads0 !! e) -> is_Some (loads !! e).
Proof.
  induction answers as [|[endpoint reply] rest IH]; intros loads0 loads e Hrun He;
    cbn [RedirectWeights.request_counts] in Hrun.
  - injection Hrun as <-. exact He.
  - destruct reply as [|status_code int_text]; [discriminate|].
    destruct (status_code =? 200); [|apply (IH _ _ _ Hrun He)].
    destruct int_text as [l|]; [|discriminate]. apply (IH _ _ _ Hrun).
    destruct (decide (endpoint = e)) as [->|Hne].
    + rewrite lookup_insert_eq. eauto.
    + rewrite lookup_insert_ne by exact Hne. exact He.
Qed.

(** X20. Every weight that [redirect_weights] returns is at least 5, and
    when there are endpoints at all, some endpoint has exactly 5: the one
    with the greatest load. *)
Theorem redirect_weights_at_least_five (answers : list (string * RedirectWeights.Reply))
    (weights : gmap string Z) :
  RedirectWeights.redirect_weights answers = Some weights ->
  (forall endpoint weight, weights !! endpoint = Some weight -> 5 <= weight)
  /\ (answers <> [] -> exists endpoint, weights !! endpoint = Some 5).
Proof.
  unfold RedirectWeights.redirect_weights.
  destruct (RedirectWeights.request_counts answers ∅) as [loads|] eqn:Hrun; [|discriminate].
  intros Heq. injection Heq as <-.
  set (final := if (size loads =? 0)%nat
                then RedirectWeights.all_one (map fst answers) else loads).
  split.
  - intros e wt. rewrite weigh_lookup. fold final.
    destruct (final !! e) as [load|] eqn:He; [|discriminate].
    cbn. intros Heq. injection Heq as <-.
    assert (load <= RedirectWeights.max_default (snd <$> map_to_list final) 1); [|lia].
    apply max_default_ge, values_in. eauto.
  - intros Hne.
    assert (Hsome : exists e load, final !! e = Some load).
    { subst final. destruct (size loads =? 0)%nat eqn:Hsize.
      - destruct answers as [|[e r] rest]; [congruence|]. exists e, 1.
        rewrite all_one_lookup. apply decide_True. cbn. constructor.
      - apply Nat.eqb_neq in Hsize.
        destruct (map_choose loads) as (e & load & He); [|eauto].
        intros ->. apply Hsize, map_size_empty. }
    destruct Hsome as (e0 & load0 & He0).
    assert (Hin : In (RedirectWeights.max_default (snd <$> map_to_list final) 1)
                     (snd <$> map_to_list final)).
    { apply max_default_in. intros Hnil.
      assert (Hv : In load0 (snd <$> map_to_list final)) by (apply values_in; eauto).
      rewrite Hnil in Hv. destruct Hv. }
    apply values_in in Hin as [e He]. exists e.
    rewrite weigh_lookup. fold final. rewrite He. cbn. f_equal. lia.
Qed.

Lemma redirect_weights_at_least_five_witness :
  exists weights,
    RedirectWeights.redirect_weights Charts.answers = Some weights
    /\ (forall endpoint weight, weights !! endpoint = Some weight -> 5 <= weight)
    /\ (Charts.answers <> [] -> exists endpoint, weights !! endpoint = Some 5).
Proof.
  eexists. split; [vm_compute; reflexivity|].
  apply (redirect_weights_at_least_five Charts.answers). vm_compute. reflexivity.
Defined.

(** X21. The weights follow the loads in reverse.  Of two endpoints whose
    last answer with status 200 carried the loads [la] and [lb], both get a
    weight, and the weights differ by the loads, the other way round; and
    when some endpoint answered with status 200, an endpoint that never did
    gets no weight. *)
Theorem redirect_weights_by_load (answers : list (string * RedirectWeights.Reply))
    (weights : gmap string Z) (a b : string) (la lb : Z) :
  RedirectWeights.redirect_weights answers = Some weights ->
  RedirectWeights.last_load answers a la ->
  RedirectWeights.last_load answers b lb ->
  (exists wa wb,
      weights !! a = Some wa /\ weights !! b = Some wb /\ wa - wb = lb - la)
  /\ (forall endpoint,
         (forall status_code int_text,
             In (endpoint, RedirectWeights.Response status_code int_text) answers ->
             status_code <> 200) ->
         weights !! endpoint = None).
Proof.
  unfold RedirectWeights.redirect_weights.
  destruct (RedirectWeights.request_counts answers ∅) as [loads|] eqn:Hrun; [|discriminate].
  intros Heq Ha Hb. injection Heq as <-.
  pose proof (request_counts_last _ _ _ _ _ Ha Hrun) as Hla.
  pose proof (request_counts_last _ _ _ _ _ Hb Hrun) as Hlb.
  assert (Hsize : (size loads =? 0)%nat = false).
  { apply Nat.eqb_neq. intros Hsize. apply map_size_empty_inv in Hsize. subst loads.
    rewrite lookup_empty in Hla. discriminate. }
  split.
  - eexists _, _. rewrite !weigh_lookup, Hsize, Hla, Hlb. cbn.
    split; [reflexivity|]. split; [reflexivity|]. lia.
  - intros e Hnever. rewrite weigh_lookup, Hsize.
    rewrite (request_counts_skips answers e _ _ Hnever Hrun), lookup_empty. reflexivity.
Qed.

Lemma redirect_weights_by_load_witness :
  exists weights,
    RedirectWeights.redirect_weights Charts.answers = Some weights
    /\ exists wa wb,
         weights !! "https://dn1" = Some wa /\ weights !! "https://dn3" = Some wb
         /\ wa - wb = 10 - 40.
Proof.
  eexists. split; [vm_compute; reflexivity|].
  refine (proj1 (redirect_weights_by_load Charts.answers _ "https://dn1" "https://dn3"
                   40 10 _ _ _)).
  - vm_compute. reflexivity.
  - exists [], (tail Charts.answers). split; [reflexivity|].
    cbn. intros s t [Heq|[Heq|[]]]; discriminate Heq.
  - exists (removelast Charts.answers), []. split; [reflexivity|]. intros s t [].
Defined.

(** X22. When no endpoint answers with status 200, every endpoint gets the
    weight 5, and nothing else gets a weight. *)
Theorem redirect_weights_none_healthy (answers : list (string * RedirectWeights.Reply)) :
  RedirectWeights.none_healthy answers ->
  exists weights,
    RedirectWeights.redirect_weights answers = Some weights
    /\ forall endpoint,
         weights !! endpoint
         = if decide (endpoint ∈ map fst answers) then Some 5 else None.
Proof.
  intros Hdown. unfold RedirectWeights.redirect_weights.
  rewrite (request_counts_none_healthy answers ∅ Hdown).
  eexists. split; [reflexivity|]. intros e.
  rewrite weigh_lookup. rewrite map_size_empty. cbn [Nat.eqb].
  rewrite max_default_all_one.
  - rewrite all_one_lookup. destruct (decide (e ∈ map fst answers)); reflexivity.
  - intros x Hx. apply values_in in Hx as [e' He']. rewrite all_one_lookup in He'.
    destruct (decide (e' ∈ map fst answers)); congruence.
Qed.

Lemma redirect_weights_none_healthy_witness :
  exists weights,
    RedirectWeights.redirect_weights Charts.all_down = Some weights
    /\ forall endpoint,
         weights !! endpoint
         = if decide (endpoint ∈ map fst Charts.all_down) then Some 5 else None.
Proof.
  apply (redirect_weights_none_healthy Charts.all_down).
  intros e r [Heq|[Heq|[]]]; injection Heq as <- <-; eexists _, _;
    (split; [reflexivity|discriminate]).
Defined.

(** ** Trending challenges *)

Lemma dispatch_from_lookup (challenge_event : TrendingChallenges.ChallengeEvent)
    (latest_blocknumber : Z) (version week : string) (type : TrendingChallenges.TrendingType)
    (tracks : list TrendingChallenges.Track) :
  forall (idx : Z) (i : nat),
    TrendingChallenges.dispatch_from idx challenge_event latest_blocknumber tracks
                                     version week type !! i
    = (fun tr =>
         {| TrendingChallenges.event := challenge_event;
            TrendingChallenges.block_number := latest_blocknumber;
            TrendingChallenges.dispatch_user_id := TrendingChallenges.owner_id tr;
            TrendingChallenges.extra :=
              {| TrendingChallenges.id := TrendingChallenges.track_id tr;
                 TrendingChallenges.user_id := TrendingChallenges.owner_id tr;
                 TrendingChallenges.rank := idx + Z.of_nat i + 1;
                 TrendingChallenges.type := type;
                 TrendingChallenges.version := version;
                 TrendingChallenges.week := week |} |})
      <$> tracks !! i.
Proof.
  induction tracks as [|tr rest IH]; intros idx i; [reflexivity|].
  cbn [TrendingChallenges.dispatch_from]. destruct i as [|i].
  - replace (idx + Z.of_nat 0 + 1) with (idx + 1) by lia. reflexivity.
  - replace (idx + Z.of_nat (S i) + 1) with (idx + 1 + Z.of_nat i + 1) by lia.
    change ((?x :: ?l) !! S i) with (l !! i). rewrite IH. reflexivity.
Qed.

Lemma dispatch_playlists_event (latest_blocknumber : Z) (version week : string)
    (trending_playlists : list TrendingChallenges.Playlist) :
  forall idx d,
    In d (TrendingChallenges.dispatch_playlists_from idx latest_blocknumber
            trending_playlists version week) ->
    TrendingChallenges.event d = TrendingChallenges.trending_playlist.
Proof.
  induction trending_playlists as [|p rest IH]; intros idx d; [intros []|].
  intros [<-|Hin]; [reflexivity|apply (IH _ _ Hin)].
Qed.

Lemma dispatch_from_event (challenge_event : TrendingChallenges.ChallengeEvent)
    (latest_blocknumber : Z) (version week : string) (type : TrendingChallenges.TrendingType)
    (tracks : list TrendingChallenges.Track) :
  forall idx d,
    In d (TrendingChallenges.dispatch_from idx challenge_event latest_blocknumber tracks
            version week type) ->
    TrendingChallenges.event d = challenge_event.
Proof.
  induction tracks as [|tr rest IH]; intros idx d; [intros []|].
  intros [<-|Hin]; [reflexivity|apply (IH _ _ Hin)].
Qed.

Lemma in_concat_map {A B} (f : A -> list B) (l : list A) (y : B) :
  In y (concat (map f l)) <-> exists x, In x l /\ In y (f x).
Proof.
  rewrite <- flat_map_concat_map. apply in_flat_map.
Qed.

(** X23. What a [trending_track] reward is.  Every dispatch of that event
    carries a rank between 1 and [TRENDING_LIMIT], the latest block number,
    and the track at that rank in the trending list of one of the versions
    of tracks trending, with the owner of the track as the rewarded user. *)
Theorem trending_track_rewards (t : TrendingChallenges.Trending) (db : Db)
    (latest_indexed_block_num : option Z) (week : string) (d : TrendingChallenges.Dispatch) :
  In d (TrendingChallenges.enqueue_trending_challenges t db latest_indexed_block_num week) ->
  TrendingChallenges.event d = TrendingChallenges.trending_track ->
  exists version tr,
    In version (TrendingChallenges.get_versions_for_type t TrendingChallenges.TRACKS)
    /\ 1 <= TrendingChallenges.rank (TrendingChallenges.extra d)
       <= TrendingChallenges.TRENDING_LIMIT
    /\ TrendingChallenges._get_trending_tracks_with_session t db version
         !! Z.to_nat (TrendingChallenges.rank (TrendingChallenges.extra d) - 1)
       = Some tr
    /\ TrendingChallenges.get_latest_blocknumber_via_redis db latest_indexed_block_num
       = Some (TrendingChallenges.block_number d)
    /\ TrendingChallenges.dispatch_user_id d = TrendingChallenges.owner_id tr
    /\ TrendingChallenges.extra d
       = {| TrendingChallenges.id := TrendingChallenges.track_id tr;
            TrendingChallenges.user_id := TrendingChallenges.owner_id tr;
            TrendingChallenges.rank := TrendingChallenges.rank (TrendingChallenges.extra d);
            TrendingChallenges.type := TrendingChallenges.TRACKS;
            TrendingChallenges.version := version;
            TrendingChallenges.week := week |}.
Proof.
  unfold TrendingChallenges.enqueue_trending_challenges.
  destruct (TrendingChallenges.get_latest_blocknumber_via_redis db latest_indexed_block_num)
    as [latest_blocknumber|]; [|intros []].
  intros Hin Hev. apply in_app_or in Hin as [Hin|Hin].
  - apply in_concat_map in Hin as (version & Hversion & Hin).
    unfold TrendingChallenges.dispatch_trending_challenges in Hin.
    apply list_elem_of_In, list_elem_of_lookup in Hin as [i Hi].
    rewrite dispatch_from_lookup in Hi.
    unfold TrendingChallenges.top in Hi.
    destruct (take _ _ !! i) as [tr|] eqn:Htr; [|discriminate].
    apply lookup_take_Some in Htr as [Htr Hlt].
    cbn in Hi. injection Hi as <-. cbn.
    exists version, tr. split; [exact Hversion|].
    unfold TrendingChallenges.TRENDING_LIMIT in *.
    split; [lia|].
    replace (Z.to_nat (0 + Z.of_nat i + 1 - 1)) with i by lia.
    repeat split. exact Htr.
  - exfalso. apply in_app_or in Hin as [Hin|Hin];
      apply in_concat_map in Hin as (version & _ & Hin).
    + apply dispatch_from_event in Hin. congruence.
    + apply dispatch_playlists_event in Hin. congruence.
Qed.

Lemma trending_track_rewards_witness :
  exists version tr,
    In version (TrendingChallenges.get_versions_for_type Charts.trending
                  TrendingChallenges.TRACKS)
    /\ 1 <= 5 <= TrendingChallenges.TRENDING_LIMIT
    /\ TrendingChallenges._get_trending_tracks_with_session Charts.trending
         (committed Sample.at_G2) version !! Z.to_nat (5 - 1)
       = Some tr
    /\ TrendingChallenges.get_latest_blocknumber_via_redis (committed Sample.at_G2) None
       = Some 2
    /\ 15 = TrendingChallenges.owner_id tr
    /\ {| TrendingChallenges.id := 105; TrendingChallenges.user_id := 15;
          TrendingChallenges.rank := 5; TrendingChallenges.type := TrendingChallenges.TRACKS;
          TrendingChallenges.version := "ML51L"; TrendingChallenges.week := "2022-01-07" |}
       = {| TrendingChallenges.id := TrendingChallenges.track_id tr;
            TrendingChallenges.user_id := TrendingChallenges.owner_id tr;
            TrendingChallenges.rank := 5;
            TrendingChallenges.type := TrendingChallenges.TRACKS;
            TrendingChallenges.version := version;
            TrendingChallenges.week := "2022-01-07" |}.
Proof.
  apply (trending_track_rewards Charts.trending (committed Sample.at_G2) None "2022-01-07"
           {| TrendingChallenges.event := TrendingChallenges.trending_track;
              TrendingChallenges.block_number := 2;
              TrendingChallenges.dispatch_user_id := 15;
              TrendingChallenges.extra :=
                {| TrendingChallenges.id := 105; TrendingChallenges.user_id := 15;
                   TrendingChallenges.rank := 5;
                   TrendingChallenges.type := TrendingChallenges.TRACKS;
                   TrendingChallenges.version := "ML51L";
                   TrendingChallenges.week := "2022-01-07" |} |}).
  - vm_compute. do 4 right. left. reflexivity.
  - reflexivity.
Defined.

(** X24. Nobody of the top of the list is left out: when a latest block
    number is available, the track at position [i] below [TRENDING_LIMIT] of
    the trending list of a version of tracks trending is dispatched as a
    [trending_track] event with rank [i + 1] for the owner of the track. *)
Theorem trending_track_top_is_rewarded (t : TrendingChallenges.Trending) (db : Db)
    (latest_indexed_block_num : option Z) (week version : string) (latest_blocknumber : Z)
    (i : nat) (tr : TrendingChallenges.Track) :
  TrendingChallenges.get_latest_blocknumber_via_redis db latest_indexed_block_num
  = Some latest_blocknumber ->
  In version (TrendingChallenges.get_versions_for_type t TrendingChallenges.TRACKS) ->
  TrendingChallenges._get_trending_tracks_with_session t db version !! i = Some tr ->
  Z.of_nat i < TrendingChallenges.TRENDING_LIMIT ->
  In {| TrendingChallenges.event := TrendingChallenges.trending_track;
        TrendingChallenges.block_number := latest_blocknumber;
        TrendingChallenges.dispatch_user_id := TrendingChallenges.owner_id tr;
        TrendingChallenges.extra :=
          {| TrendingChallenges.id := TrendingChallenges.track_id tr;
             TrendingChallenges.user_id := TrendingChallenges.owner_id tr;
             TrendingChallenges.rank := Z.of_nat i + 1;
             TrendingChallenges.type := TrendingChallenges.TRACKS;
             TrendingChallenges.version := version;
             TrendingChallenges.week := week |} |}
     (TrendingChallenges.enqueue_trending_challenges t db latest_indexed_block_num week).
Proof.
  intros Hlatest Hversion Htr Hlt.
  unfold TrendingChallenges.enqueue_trending_challenges. rewrite Hlatest.
  apply in_or_app. left. apply in_concat_map. exists version. split; [exact Hversion|].
  apply list_elem_of_In, list_elem_of_lookup. exists i.
  unfold TrendingChallenges.dispatch_trending_challenges.
  rewrite dispatch_from_lookup. unfold TrendingChallenges.top.
  rewrite lookup_take_lt by (unfold TrendingChallenges.TRENDING_LIMIT in *; lia).
  rewrite Htr. reflexivity.
Qed.

Lemma trending_track_top_is_rewarded_witness :
  In {| TrendingChallenges.event := TrendingChallenges.trending_track;
        TrendingChallenges.block_number := 2;
        TrendingChallenges.dispatch_user_id := 11;
        TrendingChallenges.extra :=
          {| TrendingChallenges.id := 101;
             TrendingChallenges.user_id := 11;
             TrendingChallenges.rank := Z.of_nat 0 + 1;
             TrendingChallenges.type := TrendingChallenges.TRACKS;
             TrendingChallenges.version := "ML51L";
             TrendingChallenges.week := "2022-01-07" |} |}
     (TrendingChallenges.enqueue_trending_challenges Charts.trending (committed Sample.at_G2)
        None "2022-01-07").
Proof.
  apply (trending_track_top_is_rewarded Charts.trending (committed Sample.at_G2) None
           "2022-01-07" "ML51L" 2 0
           {| TrendingChallenges.track_id := 101; TrendingChallenges.owner_id := 11 |}).
  - reflexivity.
  - left. reflexivity.
  - reflexivity.
  - vm_compute. reflexivity.
Defined.

(** ** The published block number *)

Lemma most_recent_indexed_block_app (l1 l2 : list Event) :
  forall before,
    TrendingChallenges.most_recent_indexed_block (l1 ++ l2) before
    = TrendingChallenges.most_recent_indexed_block l2
        (TrendingChallenges.most_recent_indexed_block l1 before).
Proof.
  induction l1 as [|ev l1 IH]; intros before; [reflexivity|].
  cbn [app TrendingChallenges.most_recent_indexed_block].
  destruct ev as [| | | |[] []]; apply IH.
Qed.

Lemma most_recent_indexed_block_events (db : Db) (work : CacheWork) (block : Chain.t)
    (before : option Z) :
  TrendingChallenges.most_recent_indexed_block (block_events db work block) before
  = Some (Chain.number block).
Proof.
  unfold block_events, cache_invalidations.
  destruct (user_state_changed work && nonempty (user_ids work)),
    (track_lexeme_state_changed work && nonempty (track_ids work)),
    (playlist_state_changed work && nonempty (playlist_ids work)); reflexivity.
Qed.

Lemma revert_loop_hashes (revert_blocks_list : list Block.t) :
  forall (db : Db) (h : string),
    In h (map Block.blockhash (blocks (fold_left revert_block revert_blocks_list db))) ->
    In h (map Block.blockhash (blocks db))
    /\ ~ In h (map Block.blockhash revert_blocks_list).
Proof.
  induction revert_blocks_list as [|r rest IH]; intros db h Hin; [split; [exact Hin|intros []]|].
  cbn [fold_left] in Hin. apply IH in Hin as [Hin Hrest].
  rewrite blockhash_revert_block in Hin. apply filter_In in Hin as [Hin Hne].
  split; [exact Hin|]. intros [Heq|Hr]; [|contradiction].
  apply Bool.negb_true_iff, String.eqb_neq in Hne. congruence.
Qed.

(** X25. After a block is indexed, the number that
    [get_latest_blocknumber_via_redis] reads from redis is the number of
    that block, whatever redis held before, and it is the number that the
    query of the current block gives. *)
Theorem index_block_publishes_blocknumber (ctx : TaskContext) (w w' : World)
    (block : Chain.t) (before : option Z) :
  index_block ctx w block = (Ok tt, w') ->
  TrendingChallenges.most_recent_indexed_block (trace w') before = Some (Chain.number block)
  /\ get_latest_blocknumber (committed w') = Some (Chain.number block)
  /\ TrendingChallenges.get_latest_blocknumber_via_redis
       (committed w') (TrendingChallenges.most_recent_indexed_block (trace w') before)
     = get_latest_blocknumber (committed w').
Proof.
  intros Hstep. apply index_block_ok in Hstep as (work & Hs & Htrace).
  assert (Hredis : TrendingChallenges.most_recent_indexed_block (trace w') before
                   = Some (Chain.number block)).
  { rewrite Htrace, most_recent_indexed_block_app. apply most_recent_indexed_block_events. }
  assert (Hdb : get_latest_blocknumber (committed w') = Some (Chain.number block)).
  { unfold get_latest_blocknumber.
    rewrite (index_block_session_one_current _ _ _ _ _ Hs). reflexivity. }
  split; [exact Hredis|]. split; [exact Hdb|]. rewrite Hredis, Hdb. reflexivity.
Qed.

Lemma index_block_publishes_blocknumber_witness :
  TrendingChallenges.most_recent_indexed_block
    (trace (snd (index_block Sample.ctx Sample.at_G1 Sample.G2))) (Some 1)
  = Some 2
  /\ get_latest_blocknumber (committed (snd (index_block Sample.ctx Sample.at_G1 Sample.G2)))
     = Some 2.
Proof.
  destruct (index_block_publishes_blocknumber Sample.ctx Sample.at_G1
              (snd (index_block Sample.ctx Sample.at_G1 Sample.G2)) Sample.G2 (Some 1))
    as (Hredis & Hdb & _); [vm_compute; reflexivity|].
  split; [exact Hredis|exact Hdb].
Defined.

(** X26. A revert publishes nothing.  When a block is indexed and then
    reverted, in a batch within the depth bound, its row is gone from
    [blocks], and [get_latest_blocknumber_via_redis] still gives the number
    of the reverted block. *)
Theorem reverted_block_number_stays_published (ctx : TaskContext) (w w1 : World)
    (block : Chain.t) (revert_blocks_list : list Block.t) (before : option Z) :
  index_block ctx w block = (Ok tt, w1) ->
  In (block_row true block) revert_blocks_list ->
  (length revert_blocks_list <= 500)%nat ->
  ~ In (Chain.hash block)
       (map Block.blockhash (blocks (committed (snd (revert_batch w1 revert_blocks_list)))))
  /\ TrendingChallenges.get_latest_blocknumber_via_redis
       (committed (snd (revert_batch w1 revert_blocks_list)))
       (TrendingChallenges.most_recent_indexed_block
          (trace (snd (revert_batch w1 revert_blocks_list))) before)
     = Some (Chain.number block).
Proof.
  intros Hstep Hin Hlen. apply index_block_ok in Hstep as (work & _ & Htrace).
  unfold revert_batch, revert_blocks.
  destruct revert_blocks_list as [|r rest]; [destruct Hin|].
  cbn [length Nat.eqb]. apply Nat.ltb_ge in Hlen. cbn [length] in Hlen. rewrite Hlen.
  cbn [nonempty snd commit committed trace]. split.
  - intros Hgone. apply revert_loop_hashes in Hgone as [_ Hgone]. apply Hgone.
    apply (in_map Block.blockhash) in Hin. exact Hin.
  - rewrite Htrace, !most_recent_indexed_block_app, most_recent_indexed_block_events.
    reflexivity.
Qed.

Lemma reverted_block_number_stays_published_witness :
  ~ In "0xa2"
       (map Block.blockhash
          (blocks (committed
             (snd (revert_batch (snd (index_block Sample.ctx Sample.at_G1 Sample.G2))
                                [block_row true Sample.G2])))))
  /\ TrendingChallenges.get_latest_blocknumber_via_redis
       (committed (snd (revert_batch (snd (index_block Sample.ctx Sample.at_G1 Sample.G2))
                                     [block_row true Sample.G2])))
       (TrendingChallenges.most_recent_indexed_block
          (trace (snd (revert_batch (snd (index_block Sample.ctx Sample.at_G1 Sample.G2))
                                    [block_row true Sample.G2]))) None)
     = Some 2.
Proof.
  apply (reverted_block_number_stays_published Sample.ctx Sample.at_G1
           (snd (index_block Sample.ctx Sample.at_G1 Sample.G2)) Sample.G2
           [block_row true Sample.G2] None).
  - vm_compute. reflexivity.
  - left. reflexivity.
  - cbn. lia.
Defined.

(** ** The start row *)

Lemma initialize_keeps_filled_table (ctx : TaskContext) (start_block : string) (w : World) :
  blocks (committed w) <> [] ->
  committed (snd (initialize_blocks_table_if_necessary ctx start_block w)) = committed w.
Proof.
  intros Hfilled. unfold initialize_blocks_table_if_necessary.
  destruct (getBlock ctx start_block); [|reflexivity].
  destruct (current_blocks (blocks (committed w))) as [|c [|c2 rest]]; [| |reflexivity].
  - destruct (blocks (committed w)); [congruence|reflexivity].
  - destruct (Block.number c) as [n|]; cbn;
      repeat (match goal with |- context [if ?b then _ else _] => destruct b end);
      reflexivity.
Qed.

(** X27. [initialize_blocks_table_if_necessary] writes to an empty [blocks]
    table only: a table with rows is left as it is, whatever the configured
    start block, and a second call in a row changes nothing in the store. *)
Theorem initialize_only_fills_empty_table (ctx : TaskContext) (start_block : string)
    (w : World) :
  (blocks (committed w) <> [] ->
   committed (snd (initialize_blocks_table_if_necessary ctx start_block w)) = committed w)
  /\ committed (snd (initialize_blocks_table_if_necessary ctx start_block
                       (snd (initialize_blocks_table_if_necessary ctx start_block w))))
     = committed (snd (initialize_blocks_table_if_necessary ctx start_block w)).
Proof.
  split; [apply initialize_keeps_filled_table|].
  destruct (blocks (committed w)) as [|b bs] eqn:Hbs.
  - unfold initialize_blocks_table_if_necessary at 2 3.
    destruct (getBlock ctx start_block) as [target_block|] eqn:Hget.
    + rewrite Hbs. cbn [current_blocks List.filter length Nat.eqb negb snd].
      apply initialize_keeps_filled_table. cbn. discriminate.
    + cbn [snd]. unfold initialize_blocks_table_if_necessary. rewrite Hget. reflexivity.
  - assert (Hfilled : blocks (committed w) <> []) by (rewrite Hbs; discriminate).
    pose proof (initialize_keeps_filled_table ctx start_block w Hfilled) as Hsame.
    apply initialize_keeps_filled_table. rewrite Hsame. exact Hfilled.
Qed.

Lemma initialize_only_fills_empty_table_witness :
  committed (snd (initialize_blocks_table_if_necessary Sample.ctx "0xa2" Sample.at_G1))
  = committed Sample.at_G1.
Proof.
  refine (proj1 (initialize_only_fills_empty_table Sample.ctx "0xa2" Sample.at_G1) _).
  discriminate.
Defined.

(** ** Rewards that follow the query *)

Lemma dispatch_playlists_from_lookup (latest_blocknumber : Z) (version week : string)
    (trending_playlists : list TrendingChallenges.Playlist) :
  forall (idx : Z) (i : nat),
    TrendingChallenges.dispatch_playlists_from idx latest_blocknumber trending_playlists
                                               version week !! i
    = (fun pl =>
         {| TrendingChallenges.event := TrendingChallenges.trending_playlist;
            TrendingChallenges.block_number := latest_blocknumber;
            TrendingChallenges.dispatch_user_id := TrendingChallenges.playlist_owner_id pl;
            TrendingChallenges.extra :=
              {| TrendingChallenges.id := TrendingChallenges.playlist_id pl;
                 TrendingChallenges.user_id := TrendingChallenges.playlist_owner_id pl;
                 TrendingChallenges.rank := idx + Z.of_nat i + 1;
                 TrendingChallenges.type := TrendingChallenges.PLAYLISTS;
                 TrendingChallenges.version := version;
                 TrendingChallenges.week := week |} |})
      <$> trending_playlists !! i.
Proof.
  induction trending_playlists as [|pl rest IH]; intros idx i; [reflexivity|].
  cbn [TrendingChallenges.dispatch_playlists_from]. destruct i as [|i].
  - replace (idx + Z.of_nat 0 + 1) with (idx + 1) by lia. reflexivity.
  - replace (idx + Z.of_nat (S i) + 1) with (idx + 1 + Z.of_nat i + 1) by lia.
    change ((?x :: ?l) !! S i) with (l !! i). rewrite IH. reflexivity.
Qed.

(** X28. For underground tracks and for playlists the task relies on the
    query to respect the limit it passes: whatever position a row has in the
    list that the query returns, the row is dispatched with that position
    plus one as its rank. *)
Theorem trending_rewards_follow_query (t : TrendingChallenges.Trending) (db : Db)
    (latest_indexed_block_num : option Z) (week version : string) (latest_blocknumber : Z)
    (i : nat) :
  TrendingChallenges.get_latest_blocknumber_via_redis db latest_indexed_block_num
  = Some latest_blocknumber ->
  (forall tr,
      In version (TrendingChallenges.get_versions_for_type
                    t TrendingChallenges.UNDERGROUND_TRACKS) ->
      TrendingChallenges._get_underground_trending_with_session
        t db TrendingChallenges.TRENDING_LIMIT version !! i = Some tr ->
      In {| TrendingChallenges.event := TrendingChallenges.trending_underground;
            TrendingChallenges.block_number := latest_blocknumber;
            TrendingChallenges.dispatch_user_id := TrendingChallenges.owner_id tr;
            TrendingChallenges.extra :=
              {| TrendingChallenges.id := TrendingChallenges.track_id tr;
                 TrendingChallenges.user_id := TrendingChallenges.owner_id tr;
                 TrendingChallenges.rank := Z.of_nat i + 1;
                 TrendingChallenges.type := TrendingChallenges.UNDERGROUND_TRACKS;
                 TrendingChallenges.version := version;
                 TrendingChallenges.week := week |} |}
         (TrendingChallenges.enqueue_trending_challenges t db latest_indexed_block_num week))
  /\ (forall pl,
         In version (TrendingChallenges.get_versions_for_type t TrendingChallenges.PLAYLISTS) ->
         TrendingChallenges._get_trending_playlists_with_session
           t db TrendingChallenges.TRENDING_LIMIT version !! i = Some pl ->
         In {| TrendingChallenges.event := TrendingChallenges.trending_playlist;
               TrendingChallenges.block_number := latest_blocknumber;
               TrendingChallenges.dispatch_user_id := TrendingChallenges.playlist_owner_id pl;
               TrendingChallenges.extra :=
                 {| TrendingChallenges.id := TrendingChallenges.playlist_id pl;
                    TrendingChallenges.user_id := TrendingChallenges.playlist_owner_id pl;
                    TrendingChallenges.rank := Z.of_nat i + 1;
                    TrendingChallenges.type := TrendingChallenges.PLAYLISTS;
                    TrendingChallenges.version := version;
                    TrendingChallenges.week := week |} |}
            (TrendingChallenges.enqueue_trending_challenges t db latest_indexed_block_num
               week)).
Proof.
  intros Hlatest. unfold TrendingChallenges.enqueue_trending_challenges. rewrite Hlatest.
  split.
  - intros tr Hversion Htr. apply in_or_app. right. apply in_or_app. left.
    apply in_concat_map. exists version. split; [exact Hversion|].
    apply list_elem_of_In, list_elem_of_lookup. exists i.
    unfold TrendingChallenges.dispatch_trending_challenges.
    rewrite dispatch_from_lookup, Htr. reflexivity.
  - intros pl Hversion Hpl. apply in_or_app. right. apply in_or_app. right.
    apply in_concat_map. exists version. split; [exact Hversion|].
    apply list_elem_of_In, list_elem_of_lookup. exists i.
    rewrite dispatch_playlists_from_lookup, Hpl. reflexivity.
Qed.

Lemma trending_rewards_follow_query_witness :
  In {| TrendingChallenges.event := TrendingChallenges.trending_playlist;
        TrendingChallenges.block_number := 2;
        TrendingChallenges.dispatch_user_id := 70;
        TrendingChallenges.extra :=
          {| TrendingChallenges.id := 7;
             TrendingChallenges.user_id := 70;
             TrendingChallenges.rank := Z.of_nat 6 + 1;
             TrendingChallenges.type := TrendingChallenges.PLAYLISTS;
             TrendingChallenges.version := "ML51L";
             TrendingChallenges.week := "2022-01-07" |} |}
     (TrendingChallenges.enqueue_trending_challenges Charts.unbounded (committed Sample.at_G2)
        None "2022-01-07").
Proof.
  refine (proj2 (trending_rewards_follow_query Charts.unbounded (committed Sample.at_G2) None
                   "2022-01-07" "ML51L" 2 6 _)
            {| TrendingChallenges.playlist_id := 7; TrendingChallenges.playlist_owner_id := 70 |}
            _ _).
  - reflexivity.
  - left. reflexivity.
  - reflexivity.
Defined.
